(** * Antler portfolio scraper: a shallow embedding of [fetcher.ts] and [utils.ts]

    The development follows the two source files.  [JsString] gives the
    JavaScript string primitives the code calls, [Utils] embeds [utils.ts],
    [Types] embeds [types.ts], [Dom] is the query interface the scraper has on
    a parsed page (what cheerio answers), and [Fetcher] embeds the class
    [AntlerPortfolioScraper].  [Runtime] has what the code meets in Node:
    the properties of [Object.prototype] and the text of a type error.
    [Reference] holds the notions the statements are phrased in and
    [Examples] some concrete pages and sites.  The facts proved about them
    come afterwards.

    A string is a sequence of UTF-16 code units.  The embedding carries the
    units U+0000..U+00FF (one [ascii] each); on that range white space, word
    characters and lower-casing below are the ECMAScript ones, and so is
    upper-casing except on U+00B5 and U+00FF, whose capitals lie above the
    range. *)

From Stdlib Require Import Ascii String List ZArith Bool Arith Lia.
Import ListNotations.

(* ------------------------------------------------------------------ *)
(** ** JavaScript strings *)

Module JsString.

Definition jsstring := list ascii.

(** String literals of the source are written [js "..."]. *)
Definition js (s : string) : jsstring := list_ascii_of_string s.

Definition code (c : ascii) : nat := nat_of_ascii c.

Definition inRange (lo hi : nat) (c : ascii) : bool :=
  (lo <=? code c) && (code c <=? hi).

Definition isDigit (c : ascii) : bool := inRange 48 57 c.        (* \d, [0-9] *)
Definition isUpperAZ (c : ascii) : bool := inRange 65 90 c.      (* [A-Z] *)
Definition isLowerAZ (c : ascii) : bool := inRange 97 122 c.     (* [a-z] *)

(** [\w] of a regular expression without the unicode flag. *)
Definition isWordChar (c : ascii) : bool :=
  isDigit c || isUpperAZ c || isLowerAZ c || (code c =? 95).

(** White space of [trim] and of [\s]: TAB, LF, VT, FF, CR, SP, NBSP. *)
Definition isWhiteSpace (c : ascii) : bool :=
  inRange 9 13 c || (code c =? 32) || (code c =? 160).

(** The characters [.] refuses: LF and CR. *)
Definition isLineTerminator (c : ascii) : bool :=
  (code c =? 10) || (code c =? 13).

(** [String.prototype.toLowerCase] on one unit: A-Z and the Latin-1 capitals
    U+00C0..U+00DE (U+00D7 is the multiplication sign) move up by 32. *)
Definition lowerChar (c : ascii) : ascii :=
  if isUpperAZ c || (inRange 192 222 c && negb (code c =? 215))
  then ascii_of_nat (code c + 32)
  else c.

Definition toLowerCase (s : jsstring) : jsstring := map lowerChar s.

(** The two units whose capital lies above U+00FF: the micro sign U+00B5
    (capital U+039C) and U+00FF (capital U+0178). *)
Definition capitalOutside (c : ascii) : bool :=
  (code c =? 181) || (code c =? 255).

(** [toUpperCase] of a one-unit string: a-z and U+00E0..U+00FE (U+00F7 is the
    division sign) move down by 32, the sharp s becomes "SS".  On the two
    units of [capitalOutside] the result of the code is no string over the
    units U+0000..U+00FF; they stand here unchanged, and what is stated of
    [toUpperCase] is stated of the other units. *)
Definition upperChar (c : ascii) : jsstring :=
  if isLowerAZ c || (inRange 224 254 c && negb (code c =? 247))
  then [ascii_of_nat (code c - 32)]
  else if code c =? 223 then js "SS" else [c].

Fixpoint str_eqb (a b : jsstring) : bool :=
  match a, b with
  | [], [] => true
  | x :: a', y :: b' => Ascii.eqb x y && str_eqb a' b'
  | _, _ => false
  end.

(** [s.startsWith(p)] *)
Fixpoint startsWith (s p : jsstring) {struct p} : bool :=
  match p, s with
  | [], _ => true
  | x :: p', y :: s' => Ascii.eqb x y && startsWith s' p'
  | _ :: _, [] => false
  end.

(** [s.includes(sub)] *)
Fixpoint includes (s sub : jsstring) : bool :=
  startsWith s sub ||
  match s with
  | [] => false
  | _ :: s' => includes s' sub
  end.

Fixpoint dropWhile (p : ascii -> bool) (s : jsstring) : jsstring :=
  match s with
  | [] => []
  | c :: s' => if p c then dropWhile p s' else s
  end.

Definition trimStart (s : jsstring) : jsstring := dropWhile isWhiteSpace s.
Definition trimEnd (s : jsstring) : jsstring :=
  rev (dropWhile isWhiteSpace (rev s)).

(** [s.trim()] *)
Definition trim (s : jsstring) : jsstring := trimEnd (trimStart s).

(** [s.split(sep)] for a one-character separator; never the empty array. *)
Fixpoint split (sep : ascii) (s : jsstring) : list jsstring :=
  match s with
  | [] => [[]]
  | c :: s' =>
      if Ascii.eqb c sep then [] :: split sep s'
      else match split sep s' with
           | [] => [[c]]
           | w :: ws => (c :: w) :: ws
           end
  end.

(** [a || b] on strings: the empty string is the only falsy one. *)
Definition orElse (a b : jsstring) : jsstring :=
  match a with
  | [] => b
  | _ :: _ => a
  end.

(** [!s] *)
Definition isEmpty (s : jsstring) : bool :=
  match s with
  | [] => true
  | _ :: _ => false
  end.

(** [parseInt] of a string of decimal digits. *)
Definition digitValue (c : ascii) : Z := Z.of_nat (code c - 48).
Definition parseDigits (s : jsstring) : Z :=
  fold_left (fun acc c => (10 * acc + digitValue c)%Z) s 0%Z.

End JsString.

Import JsString.

Declare Scope js_scope.
Delimit Scope js_scope with js.
Infix "<|>" := orElse (at level 55, left associativity) : js_scope.
Infix "+++" := (@app ascii) (at level 60, right associativity) : js_scope.
Open Scope js_scope.

(* ------------------------------------------------------------------ *)
(** ** utils.ts *)

Module Utils.

(** The class [[a-z0-9]]. *)
Definition isSlugChar (c : ascii) : bool := isLowerAZ c || isDigit c.

Definition dash : ascii := "-"%char.

(** [.replace(/[^a-z0-9]+/g, '-')]: each maximal run of characters outside
    [[a-z0-9]] is one match and becomes one dash.  [inRun] says that the
    previous character already belongs to the run being replaced. *)
Fixpoint replaceRuns (inRun : bool) (s : jsstring) : jsstring :=
  match s with
  | [] => []
  | c :: s' =>
      if isSlugChar c then c :: replaceRuns false s'
      else if inRun then replaceRuns true s'
      else dash :: replaceRuns true s'
  end.

(** The [-$] alternative: a dash that is the last character. *)
Fixpoint dropFinalDash (s : jsstring) : jsstring :=
  match s with
  | [] => []
  | [c] => if Ascii.eqb c dash then [] else [c]
  | c :: s' => c :: dropFinalDash s'
  end.

(** [.replace(/(^-|-$)/g, '')]: a dash at index 0 goes, then a dash at the
    last index of what follows goes. *)
Definition stripEdgeDashes (s : jsstring) : jsstring :=
  match s with
  | c :: s' => if Ascii.eqb c dash then dropFinalDash s' else dropFinalDash s
  | [] => []
  end.

Definition createSlug (name : jsstring) : jsstring :=
  stripEdgeDashes (replaceRuns false (toLowerCase name)).

(** The alternation [(UK|USA|US)] under the [i] flag. *)
Definition isCountryToken (t : jsstring) : bool :=
  let l := toLowerCase t in
  str_eqb l (js "uk") || str_eqb l (js "usa") || str_eqb l (js "us").

(** Whether the whole of [t] matches [,?\s*(UK|USA|US)]. *)
Definition matchesCountrySuffix (t : jsstring) : bool :=
  let t1 := match t with
            | c :: r => if Ascii.eqb c ","%char then r else t
            | [] => t
            end in
  isCountryToken (dropWhile isWhiteSpace t1).

(** [location.replace(/,?\s*(UK|USA|US)$/i, '')]: the match starts at the
    leftmost index whose whole remainder matches, and is removed. *)
Fixpoint stripCountrySuffix (s : jsstring) : jsstring :=
  if matchesCountrySuffix s then []
  else match s with
       | [] => []
       | c :: s' => c :: stripCountrySuffix s'
       end.

Definition normalizeLocation (location : jsstring) : jsstring :=
  trim (stripCountrySuffix location).

End Utils.


Import Utils.

(* ------------------------------------------------------------------ *)
(** ** types.ts *)

Module Types.

Record AntlerCompany := mkCompany {
  id : jsstring;
  name : jsstring;
  slug : jsstring;
  website : jsstring;
  description : jsstring;
  founded_year : Z;
  location : jsstring;
  sector : jsstring;
  logo_url : jsstring;
  url : jsstring;
  api : jsstring
}.

Record ScrapingConfig := mkConfig {
  baseUrl : jsstring;
  maxPages : nat;
  delay : nat;
  retryAttempts : nat;
  outputDir : jsstring
}.

Record ScrapingProgress := mkProgress {
  totalCompanies : nat;
  processedCompanies : nat;
  currentPage : nat;
  errors : list jsstring
}.

End Types.

Import Types.

(* ------------------------------------------------------------------ *)
(** ** The parsed page, as the scraper queries it

    cheerio is an external library.  An element is represented by the answers
    it gives to the queries [extractCompanyFromElement] and
    [extractCompaniesFromCurrentPage] put to it. *)

Module Dom.

(** The selectors handed to [extractText]. *)
Inductive TextSelector :=
| SelHeadings      (* 'h1, h2, h3, h4, h5, h6' *)
| SelNameHint      (* '[class*="name"], [class*="title"], [class*="company"]' *)
| SelBold          (* 'strong, b' *)
| SelParagraph     (* 'p:not([class*="tag"]):not(...)' *)
| SelDescHint      (* '[class*="description"], [class*="summary"], [class*="intro"]' *)
| SelNestedPara.   (* 'div:not([class*="tag"]):not(...) p' *)

(** The selectors handed to [closest], in the order of [parentSelectors]. *)
Inductive ParentSelector :=
| ParCard | ParItem | ParCompany | ParDiv | ParLi.

Record Img := mkImg {
  alt : option jsstring;      (* attr('alt'), undefined when absent *)
  src : option jsstring       (* attr('src'), undefined when absent *)
}.

(** One element of [$card.find('*')]. *)
Record Node := mkNode {
  node_text : jsstring;       (* $(el).text() *)
  node_is_inline : bool       (* $(el).is('a, img, script, style') *)
}.

Record Card := mkCard {
  text : jsstring;                                 (* $card.text() *)
  html : option jsstring;                          (* $card.html(), may be null *)
  find_first : TextSelector -> option jsstring;    (* text() of find(sel).first() *)
  find_img : option Img;                           (* find('img').first() *)
  find_all : list Node;                            (* find('*'), document order *)
  find_hash_links : list jsstring                  (* text() of each a[href="#"] *)
}.

(** An [<a>] element of the page. *)
Record Anchor := mkAnchor {
  href : option jsstring;                  (* attr('href') *)
  inside_portfolio : bool;                 (* below an element matching [class*="portfolio"] *)
  self_card : Card;                        (* the anchor itself, queried as a card *)
  closest : ParentSelector -> option Card  (* $el.closest(sel), None when empty *)
}.

(** The rendered document of one page. *)
Record Page := mkPage {
  anchors : list Anchor;          (* every <a>, document order *)
  portfolio_containers : nat      (* $('[class*="portfolio"]').length *)
}.

End Dom.

Import Dom.

(* ------------------------------------------------------------------ *)
(** ** fetcher.ts: the text classifiers and the record builder *)

Module Fetcher.

(** [this.extractText($el, selector)] *)
Definition extractText (el : Card) (selector : TextSelector) : jsstring :=
  match find_first el selector with
  | Some t => trim t
  | None => []
  end.

(** [this.extractAttribute($el, 'img', 'src')] *)
Definition extractAttribute_img_src (el : Card) : jsstring :=
  match find_img el with
  | Some img => match src img with Some v => v | None => [] end
  | None => []
  end.

Definition locations : list jsstring :=
  map js
    ["Australia"; "Brazil"; "Canada"; "Denmark"; "Finland"; "France"; "Germany";
     "India"; "Indonesia"; "Japan"; "Kenya"; "Korea"; "Malaysia"; "Netherlands";
     "Nigeria"; "Norway"; "Saudi Arabia"; "Singapore"; "Sweden"; "UK"; "US";
     "United Arab Emirates"; "Vietnam"; "Spain"; "Portugal"]%string.

Definition isLocationText (text : jsstring) : bool :=
  existsb (fun location => includes (toLowerCase text) (toLowerCase location))
          locations.

Definition sectors : list jsstring :=
  map js
    ["Energy and ClimateTech"; "Climate"; "B2B Software"; "ConsumerTech";
     "FinTech"; "Health and BioTech"; "Real Estate and PropTech";
     "Industrials"]%string.

(** The states of [/^[A-Z][a-z]+( [A-Z][a-z]+)*$/]: a capital is due, a first
    small letter is due, or a word is complete and may go on. *)
Inductive ProperCase := WantCapital | WantSmall | InWord.

Fixpoint matchProperCase (st : ProperCase) (s : jsstring) : bool :=
  match s with
  | [] => match st with InWord => true | _ => false end
  | c :: s' =>
      match st with
      | WantCapital => isUpperAZ c && matchProperCase WantSmall s'
      | WantSmall => isLowerAZ c && matchProperCase InWord s'
      | InWord =>
          (isLowerAZ c && matchProperCase InWord s')
          || (Ascii.eqb c " "%char && matchProperCase WantCapital s')
      end
  end.

Definition isSectorText (text : jsstring) : bool :=
  existsb (fun sector => includes (toLowerCase text) (toLowerCase sector)) sectors
  || includes (toLowerCase text) (js "tech")
  || includes (toLowerCase text) (js "software")
  || includes (toLowerCase text) (js "service")
  || includes (toLowerCase text) (js "platform")
  || matchProperCase WantCapital text.

(** The card container: the first of [parentSelectors] whose closest match has
    a longer trimmed text than the anchor itself. *)
Definition parentSelectors : list ParentSelector :=
  [ParCard; ParItem; ParCompany; ParDiv; ParLi].

Fixpoint resolveCard (el : Anchor) (sels : list ParentSelector) : Card :=
  match sels with
  | [] => self_card el
  | selector :: rest =>
      match closest el selector with
      | Some parent =>
          if length (trim (text (self_card el))) <? length (trim (text parent))
          then parent
          else resolveCard el rest
      | None => resolveCard el rest
      end
  end.

(** [website.replace(/^https?:\/\//, '')] *)
Definition stripScheme (website : jsstring) : jsstring :=
  if startsWith website (js "https://") then skipn 8 website
  else if startsWith website (js "http://") then skipn 7 website
  else website.

(** [name.charAt(0).toUpperCase() + name.slice(1)] *)
Definition capitalize (name : jsstring) : jsstring :=
  match name with
  | [] => []
  | c :: rest => upperChar c ++ rest
  end.

(** The name taken from the host of the website. *)
Definition nameFromUrl (website : jsstring) : jsstring :=
  let urlParts := split "."%char (hd [] (split "/"%char (stripScheme website))) in
  let name := if 1 <? length urlParts
              then nth 0 urlParts []
              else nth (length urlParts - 1) urlParts [] in
  capitalize name.

Definition extractName (card : Card) (website : jsstring) : jsstring :=
  let name := extractText card SelHeadings
              <|> extractText card SelNameHint
              <|> extractText card SelBold
              <|> match find_img card with
                  | Some img => match alt img with Some a => a | None => [] end
                  | None => []
                  end
              <|> [] in
  if isEmpty name then nameFromUrl website else name.

(** [text.match(/^\d{4}$/)] *)
Definition isFourDigits (t : jsstring) : bool :=
  match t with
  | [a; b; c; d] => isDigit a && isDigit b && isDigit c && isDigit d
  | _ => false
  end.

(** The filter of the "longer text blocks" scan. *)
Definition isTextBlock (el : Node) : bool :=
  let text := trim (node_text el) in
  (20 <? length text) && (length text <? 300)
  && negb (includes text (js "http"))
  && negb (isFourDigits text)
  && negb (node_is_inline el).

(** The description before the synthesized sentence is considered. *)
Definition extractDescription (card : Card) : jsstring :=
  let description := extractText card SelParagraph
                     <|> extractText card SelDescHint
                     <|> extractText card SelNestedPara
                     <|> [] in
  if isEmpty description || (length description <? 10)
  then match filter isTextBlock (find_all card) with
       | first :: _ => trim (node_text first)
       | [] => description
       end
  else description.

Definition synthesized (name : jsstring) : jsstring :=
  name ++ js " is a portfolio company of Antler.".

Definition describe (card : Card) (name : jsstring) : jsstring :=
  let description := extractDescription card in
  if isEmpty description || (length description <? 5)
  then synthesized name
  else description.

(** The two branches on the [href="#"] links of the card. *)
Definition classifyHashLinks (hashLinks : list jsstring) : jsstring * jsstring :=
  match hashLinks with
  | first :: second :: _ =>
      let firstLink := trim first in
      let secondLink := trim second in
      if isLocationText firstLink
      then (firstLink, if isSectorText secondLink then secondLink else [])
      else if isSectorText firstLink
           then (if isLocationText secondLink then secondLink else [], firstLink)
           else ([], [])
  | [only] =>
      let linkText := trim only in
      if isLocationText linkText then (linkText, [])
      else if isSectorText linkText then ([], linkText)
      else ([], [])
  | [] => ([], [])
  end.

(** [cardText.match(/\[([^\]]+)\]/g)]: [cur] holds, reversed, what has been
    read since the opening bracket of the match under way. *)
Fixpoint bracketMatches (cur : option jsstring) (s : jsstring) : list jsstring :=
  match s with
  | [] => []
  | c :: s' =>
      match cur with
      | None =>
          if Ascii.eqb c "["%char then bracketMatches (Some []) s'
          else bracketMatches None s'
      | Some acc =>
          if Ascii.eqb c "]"%char
          then match acc with
               | [] => bracketMatches None s'
               | _ :: _ => (("["%char :: rev acc) ++ ["]"%char]) :: bracketMatches None s'
               end
          else bracketMatches (Some (c :: acc)) s'
      end
  end.

(** [match.replace(/[\[\]]/g, '')] *)
Definition dropBrackets (m : jsstring) : jsstring :=
  filter (fun c => negb (Ascii.eqb c "["%char || Ascii.eqb c "]"%char)) m.

(** The body of the loop over the bracket matches. *)
Definition classifyBracket (acc : jsstring * jsstring) (m : jsstring)
  : jsstring * jsstring :=
  let '(location, sector) := acc in
  let text := trim (dropBrackets m) in
  if isEmpty location && isLocationText text then (text, sector)
  else if isEmpty sector && isSectorText text && negb (isLocationText text)
       then (location, text)
       else (location, sector).

Definition extractLocationAndSector (card : Card) : jsstring * jsstring :=
  let '(location, sector) := classifyHashLinks (find_hash_links card) in
  if isEmpty location && isEmpty sector
  then fold_left classifyBracket (bracketMatches None (text card)) (location, sector)
  else (location, sector).

Definition extractLogo (card : Card) : jsstring :=
  let logoUrl := extractAttribute_img_src card <|> [] in
  if negb (isEmpty logoUrl) && negb (startsWith logoUrl (js "http"))
  then if startsWith logoUrl (js "//") then js "https:" ++ logoUrl
       else if startsWith logoUrl (js "/") then js "https://www.antler.co" ++ logoUrl
       else js "https://" ++ logoUrl
  else logoUrl.

(** [\b(?:19[4-9]\d|20[0-2]\d)\b] at the head of [s]; [prevWord] says whether
    the character before [s] is a word character. *)
Definition yearTokenAt (prevWord : bool) (s : jsstring) : option jsstring :=
  match s with
  | a :: b :: c :: d :: rest =>
      if negb prevWord
         && ((Ascii.eqb a "1"%char && Ascii.eqb b "9"%char && inRange 52 57 c)
             || (Ascii.eqb a "2"%char && Ascii.eqb b "0"%char && inRange 48 50 c))
         && isDigit d
         && match rest with
            | [] => true
            | e :: _ => negb (isWordChar e)
            end
      then Some [a; b; c; d]
      else None
  | _ => None
  end.

(** [.*?] followed by the year group: the year is tried at each index before
    one more character, which may not be a line terminator, is taken. *)
Fixpoint lazyYear (prevWord : bool) (s : jsstring) : option jsstring :=
  match yearTokenAt prevWord s with
  | Some tok => Some tok
  | None =>
      match s with
      | [] => None
      | c :: s' => if isLineTerminator c then None else lazyYear (isWordChar c) s'
      end
  end.

(** [[^>]*>]: up to and including the first closing angle. *)
Fixpoint afterTagEnd (s : jsstring) : option jsstring :=
  match s with
  | [] => None
  | c :: s' => if Ascii.eqb c ">"%char then Some s' else afterTagEnd s'
  end.

Definition matchYearAt (s : jsstring) : option jsstring :=
  if startsWith s (js "<img")
  then match afterTagEnd (skipn 4 s) with
       | Some rest => lazyYear false rest
       | None => None
       end
  else None.

(** [cardHtml.match(/<img[^>]*>.*?(\b(?:19[4-9]\d|20[0-2]\d)\b)/)]: group 1 of
    the match at the leftmost index that has one. *)
Fixpoint structuralYearMatch (cardHtml : jsstring) : option jsstring :=
  match matchYearAt cardHtml with
  | Some tok => Some tok
  | None =>
      match cardHtml with
      | [] => None
      | _ :: s' => structuralYearMatch s'
      end
  end.

Definition extractFoundedYear (getFullYear : Z) (card : Card) : Z :=
  let cardHtml := match html card with Some h => h | None => [] end in
  match structuralYearMatch cardHtml with
  | Some group1 =>
      let year := parseDigits group1 in
      if (1940 <=? year)%Z && (year <=? getFullYear)%Z then year else 0%Z
  | None => 0%Z
  end.

(** [extractCompanyFromElement($, element, index)].  [getFullYear] is
    [new Date().getFullYear()]; [index] only reaches a log line.  No step of
    the body throws on these inputs, so the [catch] branch is not taken. *)
Definition extractCompanyFromElement (getFullYear : Z) (element : Anchor)
  : option AntlerCompany :=
  let website := match href element with Some h => h | None => [] end in
  if isEmpty website || (length website <? 5) then None
  else
    let card := resolveCard element parentSelectors in
    let name := extractName card website in
    if isEmpty name || (length name <? 2) then None
    else
      let description := describe card name in
      let '(location, sector) := extractLocationAndSector card in
      let logoUrl := extractLogo card in
      let foundedYear := extractFoundedYear getFullYear card in
      let slug := createSlug name in
      let normalizedLocation := normalizeLocation location in
      Some {| id := js "antler-" ++ slug;
              name := trim name;
              slug := slug;
              website := if startsWith website (js "http") then website
                         else js "https://" ++ website;
              description := trim description;
              founded_year := foundedYear;
              location := normalizedLocation <|> js "Unknown";
              sector := sector <|> js "Unknown";
              logo_url := logoUrl <|> [];
              url := js "https://www.antler.co/portfolio/" ++ slug;
              api := js "https://antler-api.github.io/companies/" ++ slug ++ js ".json" |}.

(* ------------------------------------------------------------------ *)
(** ** fetcher.ts: one page *)

(** The selector [a[href^="https://"]]. *)
Definition hasHttpsHref (a : Anchor) : bool :=
  match href a with
  | Some h => startsWith h (js "https://")
  | None => false
  end.

(** The substrings the link filter refuses. *)
Definition deniedSubstrings : list jsstring :=
  map js
    ["antler.co"; "linkedin.com"; "twitter.com"; "facebook.com"; "instagram.com";
     "youtube.com"; "tiktok.com"; "github.com"; "medium.com"; "apple.com";
     "google.com"; "mailto:"; "tel:"]%string.

(** The callback of [companyLinks.filter]. *)
Definition isCompanyLink (el : Anchor) : bool :=
  match href el with
  | Some href =>
      negb (isEmpty href)
      && forallb (fun d => negb (includes href d)) deniedSubstrings
      && (10 <? length href)
  | None => false
  end.

(** [companyLinks] as it stands before the loop. *)
Definition companyLinks (page : Page) : list Anchor :=
  let allLinks := filter hasHttpsHref (anchors page) in
  let portfolioLinks :=
    filter (fun a => inside_portfolio a && hasHttpsHref a) (anchors page) in
  let chosen :=
    if 0 <? portfolio_containers page
    then if 0 <? length portfolioLinks then portfolioLinks else allLinks
    else allLinks in
  filter isCompanyLink chosen.

Definition websiteOf (element : Anchor) : jsstring :=
  match href element with Some h => h | None => [] end.

(** [processedWebsites.has(website)] *)
Definition has (set : list jsstring) (x : jsstring) : bool :=
  existsb (str_eqb x) set.

(** The elements of the loop that are not skipped, that is, those handed to
    [extractCompanyFromElement]. *)
Fixpoint processedElements (links : list Anchor) (processedWebsites : list jsstring)
  : list Anchor :=
  match links with
  | [] => []
  | element :: rest =>
      let website := websiteOf element in
      if has processedWebsites website
      then processedElements rest processedWebsites
      else element :: processedElements rest (website :: processedWebsites)
  end.

Definition pushIfSome (company : option AntlerCompany) : list AntlerCompany :=
  match company with
  | Some c => [c]
  | None => []
  end.

Definition extractCompaniesFromCurrentPage (getFullYear : Z) (page : Page)
  : list AntlerCompany :=
  flat_map (fun element => pushIfSome (extractCompanyFromElement getFullYear element))
           (processedElements (companyLinks page) []).

(* ------------------------------------------------------------------ *)
(** ** fetcher.ts: the pagination loop *)

(** What [writeJsonFile] is given.  The statistics file is represented by the
    list [generateCompanyStats] is applied to. *)
Inductive Blob :=
| JsonCompanies (cs : list AntlerCompany)
| JsonCompany (c : AntlerCompany)
| JsonStats (cs : list AntlerCompany).

(** The browser and the clock, as far as a run observes them.  Page 1 is the
    base URL, page [n] the URL [baseUrl?8cea4155_page=n]. *)
Record World := mkWorld {
  goto : nat -> option jsstring;        (* page.goto: [Some e] when it rejects with [e] *)
  content : nat -> jsstring + Page;     (* page.content() while on that page *)
  getFullYear : Z
}.

(** The scraper object, with two logs of its effects: the calls of
    [writeJsonFile] (writing is taken not to fail) and the pages [page.goto]
    was called for, both oldest first. *)
Record Scraper := mkScraper {
  config : ScrapingConfig;
  companies : list AntlerCompany;
  progress : ScrapingProgress;
  written : list (jsstring * Blob);
  navigated : list nat
}.

Definition newScraper (config : ScrapingConfig) : Scraper :=
  {| config := config;
     companies := [];
     progress := {| totalCompanies := 0; processedCompanies := 0;
                    currentPage := 0; errors := [] |};
     written := [];
     navigated := [] |}.

Definition writeJsonFile (this : Scraper) (path : jsstring) (data : Blob) : Scraper :=
  {| config := config this; companies := companies this;
     progress := progress this;
     written := written this ++ [(path, data)];
     navigated := navigated this |}.

Definition navigate (this : Scraper) (page : nat) : Scraper :=
  {| config := config this; companies := companies this;
     progress := progress this;
     written := written this;
     navigated := navigated this ++ [page] |}.

Definition allJson (this : Scraper) : jsstring :=
  outputDir (config this) ++ js "/all.json".

Definition savePageCompanies (this : Scraper) : Scraper :=
  let this := writeJsonFile this (allJson this) (JsonCompanies (companies this)) in
  writeJsonFile this (js "./meta.json") (JsonStats (companies this)).

(** [pageCompanies.filter(c => !existingSlugs.has(c.slug))] *)
Definition newCompaniesOf (existing pageCompanies : list AntlerCompany)
  : list AntlerCompany :=
  let existingSlugs := map slug existing in
  filter (fun c => negb (has existingSlugs (slug c))) pageCompanies.

(** [this.companies.push(...newCompanies)] and the update of the counter. *)
Definition pushCompanies (this : Scraper) (newCompanies : list AntlerCompany)
  : Scraper :=
  {| config := config this;
     companies := companies this ++ newCompanies;
     progress := {| totalCompanies := totalCompanies (progress this);
                    processedCompanies :=
                      processedCompanies (progress this) + length newCompanies;
                    currentPage := currentPage (progress this);
                    errors := errors (progress this) |};
     written := written this;
     navigated := navigated this |}.

(** One turn of the [while] loop: the new object, page counter and flag.  The
    wait for the selector has a [try]/[catch] of its own and the two sleeps
    cannot fail, so neither shows here; the log lines are left out. *)
Definition loopBody (w : World) (this : Scraper) (currentPage : nat)
  : Scraper * nat * bool :=
  let nav := if 1 <? currentPage then goto w currentPage else None in
  let this := if 1 <? currentPage then navigate this currentPage else this in
  match nav with
  | Some error => (this, currentPage, false)                       (* catch *)
  | None =>
      match content w currentPage with
      | inl error => (this, currentPage, false)                    (* catch *)
      | inr page =>
          let pageCompanies := extractCompaniesFromCurrentPage (getFullYear w) page in
          if length pageCompanies =? 0 then (this, currentPage, false)
          else
            let newCompanies := newCompaniesOf (companies this) pageCompanies in
            if length newCompanies =? 0 then (this, currentPage, false)
            else
              let this := pushCompanies this newCompanies in
              let this := savePageCompanies this in
              (this, S currentPage, true)
      end
  end.

(** [while (hasMorePages && currentPage <= this.config.maxPages)] *)
Fixpoint whileLoop (fuel : nat) (w : World) (this : Scraper)
         (currentPage : nat) (hasMorePages : bool) : Scraper * nat * bool :=
  match fuel with
  | 0 => (this, currentPage, hasMorePages)
  | S fuel' =>
      if hasMorePages && (currentPage <=? maxPages (config this))
      then let '(this', currentPage', hasMorePages') := loopBody w this currentPage in
           whileLoop fuel' w this' currentPage' hasMorePages'
      else (this, currentPage, hasMorePages)
  end.

Definition setTotal (this : Scraper) : Scraper :=
  {| config := config this;
     companies := companies this;
     progress := {| totalCompanies := length (companies this);
                    processedCompanies := processedCompanies (progress this);
                    currentPage := currentPage (progress this);
                    errors := errors (progress this) |};
     written := written this;
     navigated := navigated this |}.

(** [extractCompanyData()]: the object afterwards and the final value of the
    local [currentPage].  The counter starts at 1 and grows by one in every
    turn that does not clear the flag, so [maxPages] turns are enough. *)
Definition extractCompanyData (w : World) (this : Scraper) : Scraper * nat :=
  let '(this', currentPage, _) :=
    whileLoop (maxPages (config this)) w this 1 true in
  (setTotal this', currentPage).

(** ** fetcher.ts: the output files and the run

    [sectorGroups] is a plain object used as a map.  Reading a key that was
    never set finds what [Object.prototype] has under that name, if
    anything.  [inherits] says whether [Object.prototype] has a property of
    the name, [typeError] is the text of the error that the call of a
    missing [push] raises. *)

(** [sectorGroups[sectorSlug].push(company)], after
    [sectorGroups[sectorSlug] = []] when the object has no array under the
    key: the own properties in the order they were created in. *)
Fixpoint addToGroup (groups : list (jsstring * list AntlerCompany))
         (key : jsstring) (c : AntlerCompany) : list (jsstring * list AntlerCompany) :=
  match groups with
  | [] => [(key, [c])]
  | (k, cs) :: rest =>
      if str_eqb k key then (k, cs ++ [c]) :: rest
      else (k, cs) :: addToGroup rest key c
  end.

(** How a call ends: normally, or by a throw, with the object as it is then. *)
Inductive Completion :=
| Normal (this : Scraper)
| Throws (error : jsstring) (this : Scraper).

(** A canonical array index: "0", or digits without a leading zero, of value
    at most 2^32 - 2.  [Object.entries] lists such keys first, by value. *)
Definition isArrayIndex (key : jsstring) : bool :=
  match key with
  | [] => false
  | c :: rest =>
      forallb isDigit key
      && (isEmpty rest || negb (Ascii.eqb c "0"%char))
      && (length key <=? 10)
      && (parseDigits key <=? 4294967294)%Z
  end.

(** Insertion into a list kept in ascending order of the index. *)
Fixpoint insertByIndex (g : jsstring * list AntlerCompany)
         (sorted : list (jsstring * list AntlerCompany))
  : list (jsstring * list AntlerCompany) :=
  match sorted with
  | [] => [g]
  | h :: rest =>
      if (parseDigits (fst g) <=? parseDigits (fst h))%Z then g :: sorted
      else h :: insertByIndex g rest
  end.

(** [Object.entries(sectorGroups)]: the array indices in ascending order,
    then the other keys in the order they were created in. *)
Definition entries (groups : list (jsstring * list AntlerCompany))
  : list (jsstring * list AntlerCompany) :=
  fold_right insertByIndex [] (filter (fun g => isArrayIndex (fst g)) groups)
  ++ filter (fun g => negb (isArrayIndex (fst g))) groups.

Definition pushError (this : Scraper) (message : jsstring) : Scraper :=
  {| config := config this;
     companies := companies this;
     progress := {| totalCompanies := totalCompanies (progress this);
                    processedCompanies := processedCompanies (progress this);
                    currentPage := currentPage (progress this);
                    errors := errors (progress this) ++ [message] |};
     written := written this;
     navigated := navigated this |}.

(** How [scrapePortfolio()] ends. *)
Inductive Outcome :=
| Resolved
| Rejected (error : jsstring).

Section Objects.

Variable inherits : jsstring -> bool.
Variable typeError : jsstring.

(** [sectorGroups[key]] is truthy and is one of the arrays made here. *)
Definition hasOwn (groups : list (jsstring * list AntlerCompany)) (key : jsstring)
  : bool :=
  existsb (fun g => str_eqb (fst g) key) groups.

(** The first [forEach] from the object [groups] on: [None] when a [push] is
    called on something inherited, which has none. *)
Fixpoint groupCompanies (groups : list (jsstring * list AntlerCompany))
         (companies : list AntlerCompany)
  : option (list (jsstring * list AntlerCompany)) :=
  match companies with
  | [] => Some groups
  | company :: rest =>
      let sectorSlug := createSlug (sector company) in
      if hasOwn groups sectorSlug || negb (inherits sectorSlug)
      then groupCompanies (addToGroup groups sectorSlug company) rest
      else None
  end.

(** [sectorGroups] after the first [forEach], when that does not throw. *)
Definition sectorGroups (companies : list AntlerCompany)
  : option (list (jsstring * list AntlerCompany)) :=
  groupCompanies [] companies.

Definition generateSectorFiles (this : Scraper) : Completion :=
  match sectorGroups (companies this) with
  | Some groups =>
      Normal
        (fold_left
           (fun this g => writeJsonFile this (js "./industries/" ++ fst g ++ js ".json")
                                        (JsonCompanies (snd g)))
           (entries groups) this)
  | None => Throws typeError this
  end.

(** [generateOutputFiles()]; a throw of its last step goes through. *)
Definition generateOutputFiles (this : Scraper) : Completion :=
  let this := writeJsonFile this (allJson this) (JsonCompanies (companies this)) in
  let this := writeJsonFile this (js "./meta.json") (JsonStats (companies this)) in
  let this :=
    fold_left
      (fun this company =>
         writeJsonFile this (outputDir (config this) ++ js "/" ++ slug company ++ js ".json")
                       (JsonCompany company))
      (companies this) this in
  generateSectorFiles this.

(** [scrapePortfolio()] on an initialised scraper: the object afterwards, the
    final value of the loop's [currentPage] (1 when the loop was not reached)
    and the way the promise settles.  A throw of the first navigation or of
    [generateOutputFiles] reaches the [catch]; the errors of the pages do
    not, they are caught inside the loop. *)
Definition scrapePortfolio (w : World) (this : Scraper) : Scraper * nat * Outcome :=
  let this := navigate this 1 in
  match goto w 1 with
  | Some error =>
      (pushError this (js "Scraping error: " ++ error), 1, Rejected error)
  | None =>
      let '(this, currentPage) := extractCompanyData w this in
      match generateOutputFiles this with
      | Normal this => (this, currentPage, Resolved)
      | Throws error this =>
          (pushError this (js "Scraping error: " ++ error), currentPage, Rejected error)
      end
  end.

End Objects.

End Fetcher.

Import Fetcher.

(* ------------------------------------------------------------------ *)
(** ** The runtime the scraper is written for: Node *)

Module Runtime.

(** The names of the properties of [Object.prototype] in ECMAScript. *)
Definition prototypeNames : list jsstring :=
  map js ["constructor"; "__defineGetter__"; "__defineSetter__"; "hasOwnProperty";
          "__lookupGetter__"; "__lookupSetter__"; "isPrototypeOf";
          "propertyIsEnumerable"; "toString"; "valueOf"; "__proto__";
          "toLocaleString"]%string.

Definition standardInherits (key : jsstring) : bool := has prototypeNames key.

(** The text V8 gives for a built-in function of that name. *)
Definition nativeText (name : jsstring) : jsstring :=
  js "function " ++ name ++ js "() { [native code] }".

(** [String(Object.prototype[key])] in Node: the constructor is the function
    [Object], the others are functions of their own name. *)
Definition standardInheritedText (key : jsstring) : option jsstring :=
  if str_eqb key (js "constructor") then Some (nativeText (js "Object"))
  else if str_eqb key (js "__proto__") then Some (js "[object Object]")
  else if has prototypeNames key then Some (nativeText key)
  else None.

(** The text of the error Node raises for the call of a missing [push]. *)
Definition pushTypeError : jsstring :=
  js "TypeError: sectorGroups[sectorSlug].push is not a function".

End Runtime.

Import Runtime.

(* ------------------------------------------------------------------ *)
(** ** The notions the statements below are phrased in *)

Module Reference.

(** The maximal runs of [[a-z0-9]] characters of a string, in order; [cur] is
    the run being read. *)
Fixpoint alnumRuns (cur : jsstring) (s : jsstring) : list jsstring :=
  match s with
  | [] => if isEmpty cur then [] else [cur]
  | c :: s' =>
      if isSlugChar c then alnumRuns (cur ++ [c]) s'
      else (if isEmpty cur then [] else [cur]) ++ alnumRuns [] s'
  end.

(** The words with one dash between neighbours. *)
Fixpoint joinWithDash (ws : list jsstring) : jsstring :=
  match ws with
  | [] => []
  | [w] => w
  | w :: ws' => w ++ dash :: joinWithDash ws'
  end.

(** The slug as the specification words it: the lower-cased name, its runs of
    other characters each collapsed to one separator, none at either end. *)
Definition collapsedSlug (name : jsstring) : jsstring :=
  joinWithDash (alnumRuns [] (toLowerCase name)).

(** A word of the slug: some characters, all of [[a-z0-9]]. *)
Definition isWord (w : jsstring) : Prop :=
  w <> [] /\ forallb isSlugChar w = true.

(** The shape of words joined by dashes: slug characters and dashes only, no
    dash first or last, no two dashes in a row.  [prevDash] says that the
    position before [s] is the start of the string or a dash. *)
Fixpoint wellFormedSlug (prevDash : bool) (s : jsstring) : bool :=
  match s with
  | [] => negb prevDash
  | c :: s' =>
      if Ascii.eqb c dash then negb prevDash && wellFormedSlug true s'
      else isSlugChar c && wellFormedSlug false s'
  end.

(** A year token, as the year group reads it: 19 and a digit from 4 on, or
    20 and a digit up to 2, and one more digit; the years 1940 to 2029. *)
Definition isYearToken (tok : jsstring) : Prop :=
  exists c d,
    isDigit d = true
    /\ ((tok = ["1"; "9"; c; d]%char /\ inRange 52 57 c = true)
        \/ (tok = ["2"; "0"; c; d]%char /\ inRange 48 50 c = true)).

(** The character before the end of [mid] is a word character; before an
    empty [mid] stands what [prev] says. *)
Definition wordBefore (prev : bool) (mid : jsstring) : bool :=
  match rev mid with
  | c :: _ => isWordChar c
  | [] => prev
  end.

(** The first character of [post] is a word character. *)
Definition wordAfter (post : jsstring) : bool :=
  match post with
  | c :: _ => isWordChar c
  | [] => false
  end.

(** What the pattern of [extractFoundedYear] finds in the markup: the
    characters "<img", characters other than a closing angle, a closing
    angle, then on the same line a year token of value [v] that has no word
    character next to it on either side. *)
Definition ImgBeforeYear (markup : jsstring) (v : Z) : Prop :=
  exists pre attrs mid tok post,
    markup = pre ++ js "<img" ++ attrs ++ ">"%char :: mid ++ tok ++ post
    /\ ~ In ">"%char attrs
    /\ forallb (fun c => negb (isLineTerminator c)) mid = true
    /\ wordBefore false mid = false
    /\ wordAfter post = false
    /\ isYearToken tok
    /\ parseDigits tok = v.

(** White space inside a tag of HTML: TAB, LF, FF, CR, SP. *)
Definition isTagSpace (c : ascii) : bool :=
  (code c =? 9) || (code c =? 10) || (code c =? 12) || (code c =? 13) || (code c =? 32).

(** An image tag of HTML starts at the head of [s]: the tag name [img], in
    any letter case, ended by white space, a slash or the closing angle. *)
Definition imgTagAt (s : jsstring) : bool :=
  startsWith (toLowerCase s) (js "<img")
  && match skipn 4 s with
     | c :: _ => isTagSpace c || Ascii.eqb c "/"%char || Ascii.eqb c ">"%char
     | [] => false
     end.

(** The markup has an image tag somewhere. *)
Fixpoint hasImgTag (s : jsstring) : bool :=
  imgTagAt s
  || match s with
     | [] => false
     | _ :: s' => hasImgTag s'
     end.

(** The markup [extractFoundedYear] reads. *)
Definition markupOf (card : Card) : jsstring :=
  match html card with Some h => h | None => [] end.

(** What separates a place from a trailing country token: white space, or a
    comma and white space. *)
Definition isSeparator (sep : jsstring) : Prop :=
  exists ws, forallb isWhiteSpace ws = true /\ (sep = ws \/ sep = ","%char :: ws).

(** The text ends in something that is neither white space nor a comma. *)
Definition endsInText (base : jsstring) : Prop :=
  base = [] \/
  exists b l, base = b ++ [l] /\ isWhiteSpace l = false /\ l <> ","%char.

(** The records a page yields: those of its document, none when the document
    cannot be had. *)
Definition pageRecords (w : World) (n : nat) : list AntlerCompany :=
  match content w n with
  | inr page => extractCompaniesFromCurrentPage (getFullYear w) page
  | inl _ => []
  end.

(** The accumulated set after the first [n] pages were merged in order. *)
Fixpoint accumulated (w : World) (n : nat) : list AntlerCompany :=
  match n with
  | 0 => []
  | S m => accumulated w m ++ newCompaniesOf (accumulated w m) (pageRecords w (S m))
  end.

(** Page [n] is fetched and read without an error. *)
Definition loads (w : World) (n : nat) : Prop :=
  (1 < n -> goto w n = None) /\ exists page, content w n = inr page.

(** Page [n] loads and brings at least one record whose slug is new. *)
Definition productive (w : World) (n : nat) : Prop :=
  loads w n /\ newCompaniesOf (accumulated w (n - 1)) (pageRecords w n) <> [].

(** Page [n] loads and yields no record, or only records whose slug is
    already in the accumulated set. *)
Definition barren (w : World) (n : nat) : Prop :=
  loads w n /\
  (pageRecords w n = [] \/
   Forall (fun c => In (slug c) (map slug (accumulated w (n - 1)))) (pageRecords w n)).

(** Fetching page [n] (beyond the first) or reading its document fails with [e]. *)
Definition failsWith (w : World) (n : nat) (e : jsstring) : Prop :=
  (1 < n /\ goto w n = Some e) \/
  ((1 < n -> goto w n = None) /\ content w n = inl e).

(** Page [n] ends the pagination: it is barren or fails. *)
Definition stops (w : World) (n : nat) : Prop :=
  barren w n \/ exists e, failsWith w n e.

(** The scraper when the loop is about to treat page [S j], pages 1 to [j]
    having been merged: the accumulated set, the pages navigated to, an empty
    error log, [progress.currentPage] still 0, the counter of processed
    companies. *)
Definition atPage (w : World) (cfg : ScrapingConfig) (j : nat) (this : Scraper) : Prop :=
  config this = cfg
  /\ companies this = accumulated w j
  /\ navigated this = seq 1 (Nat.max 1 j)
  /\ errors (progress this) = []
  /\ currentPage (progress this) = 0
  /\ processedCompanies (progress this) = length (accumulated w j).

(** The scraper when the loop has stopped on page [S j]. *)
Definition stoppedAt (w : World) (cfg : ScrapingConfig) (j : nat) (this : Scraper) : Prop :=
  config this = cfg
  /\ companies this = accumulated w j
  /\ navigated this = seq 1 (S j)
  /\ errors (progress this) = []
  /\ currentPage (progress this) = 0
  /\ processedCompanies (progress this) = length (accumulated w j).

(** The file of one company. *)
Definition companyFile (cfg : ScrapingConfig) (c : AntlerCompany) : jsstring * Blob :=
  (outputDir cfg ++ js "/" ++ slug c ++ js ".json", JsonCompany c).

(** The aggregate file holding the list [cs]. *)
Definition aggregateFile (cfg : ScrapingConfig) (cs : list AntlerCompany)
  : jsstring * Blob :=
  (outputDir cfg ++ js "/all.json", JsonCompanies cs).

(** The industries file of one group. *)
Definition sectorFile (g : jsstring * list AntlerCompany) : jsstring * Blob :=
  (js "./industries/" ++ fst g ++ js ".json", JsonCompanies (snd g)).

(** The companies sorted by the slug of their sector: one group per slug,
    the groups in the order of their first member.  This is the list the
    object [sectorGroups] of the code holds when no lookup finds something
    inherited. *)
Definition groupedBySector (cs : list AntlerCompany)
  : list (jsstring * list AntlerCompany) :=
  fold_left (fun groups c => addToGroup groups (createSlug (sector c)) c) cs [].

(** No company has a sector whose slug is "constructor", the one slug that
    names a property of [Object.prototype]. *)
Definition noConstructorSector (cs : list AntlerCompany) : Prop :=
  forall c, In c cs -> createSlug (sector c) <> js "constructor".

(** The scraper right after the loop of a fresh run. *)
Definition afterLoop (w : World) (cfg : ScrapingConfig) : Scraper :=
  fst (extractCompanyData w (navigate (newScraper cfg) 1)).

Definition pageAfterLoop (w : World) (cfg : ScrapingConfig) : nat :=
  snd (extractCompanyData w (navigate (newScraper cfg) 1)).

(** A run on a fresh scraper, in Node: the object and page counter it ends
    with and the way the promise settles. *)
Definition run (w : World) (config : ScrapingConfig) : Scraper * nat * Outcome :=
  scrapePortfolio standardInherits pushTypeError w (newScraper config).

Definition finalScraper (r : Scraper * nat * Outcome) : Scraper := fst (fst r).
Definition finalPage (r : Scraper * nat * Outcome) : nat := snd (fst r).
Definition outcome (r : Scraper * nat * Outcome) : Outcome := snd r.

(** What a run that stops on page [k] leaves behind: the loop's counter on
    [k], the pages 1 to [k] navigated to once each, the records of the
    earlier pages, the two counters on their number, [progress.currentPage]
    still 0, and those records in the files. *)
Definition stoppedRun (w : World) (cfg : ScrapingConfig) (k : nat)
           (r : Scraper * nat * Outcome) : Prop :=
  finalPage r = k
  /\ navigated (finalScraper r) = seq 1 k
  /\ companies (finalScraper r) = accumulated w (k - 1)
  /\ totalCompanies (progress (finalScraper r)) = length (accumulated w (k - 1))
  /\ processedCompanies (progress (finalScraper r)) = length (accumulated w (k - 1))
  /\ currentPage (progress (finalScraper r)) = 0
  /\ In (aggregateFile cfg (accumulated w (k - 1))) (written (finalScraper r))
  /\ (forall c, In c (accumulated w (k - 1)) ->
                In (companyFile cfg c) (written (finalScraper r))).

(** A run that came through the loop, wrote every file and resolved: the
    scraper after the loop with the aggregate file, the statistics file, the
    company files and one industries file per sector slug written. *)
Definition completedRun (w : World) (cfg : ScrapingConfig) : Scraper * nat * Outcome :=
  let loaded := afterLoop w cfg in
  ({| config := config loaded;
      companies := companies loaded;
      progress := progress loaded;
      written := written loaded
                 ++ aggregateFile cfg (companies loaded)
                 :: (js "./meta.json", JsonStats (companies loaded))
                 :: map (companyFile cfg) (companies loaded)
                 ++ map sectorFile (groupedBySector (companies loaded));
      navigated := navigated loaded |},
   pageAfterLoop w cfg, Resolved).

End Reference.

Import Reference.

(* ------------------------------------------------------------------ *)
(** ** Concrete pages and sites *)

Module Examples.

Definition bareCard : Card :=
  {| text := []; html := None; find_first := fun _ => None;
     find_img := None; find_all := []; find_hash_links := [] |}.

(** A card whose only content is a heading. *)
Definition headedCard (heading : string) : Card :=
  {| text := js heading; html := Some (js "<h3>" ++ js heading ++ js "</h3>");
     find_first := fun sel => match sel with
                              | SelHeadings => Some (js heading)
                              | _ => None
                              end;
     find_img := None; find_all := []; find_hash_links := [] |}.

(** A heading, an image, a year and placeholder links. *)
Definition fullCard (heading : string) (markup : string) (links : list string) : Card :=
  {| text := js heading; html := Some (js markup);
     find_first := fun sel => match sel with
                              | SelHeadings => Some (js heading)
                              | _ => None
                              end;
     find_img := Some {| alt := None; src := Some (js "/logo.png") |};
     find_all := []; find_hash_links := map js links |}.

(** A card with nothing but an image carrying the given [alt] text. *)
Definition altCard (a : string) : Card :=
  {| text := []; html := Some (js "<img>");
     find_first := fun _ => None;
     find_img := Some {| alt := Some (js a); src := None |};
     find_all := []; find_hash_links := [] |}.

(** An anchor to [h] directly inside the card [c]. *)
Definition linkIn (h : string) (c : Card) : Anchor :=
  {| href := Some (js h); inside_portfolio := true; self_card := bareCard;
     closest := fun sel => match sel with ParCard => Some c | _ => None end |}.

(** An anchor to [h] that is its own card: the card is what the anchor wraps. *)
Definition linkAround (h : string) (c : Card) : Anchor :=
  {| href := Some (js h); inside_portfolio := true; self_card := c;
     closest := fun _ => None |}.

Definition pageOf (links : list Anchor) : Page :=
  {| anchors := links; portfolio_containers := 1 |}.

Definition siteOf (pages : nat -> jsstring + Page) : World :=
  {| goto := fun _ => None; content := pages; getFullYear := 2025%Z |}.

Definition defaultConfig : ScrapingConfig :=
  {| baseUrl := js "https://www.antler.co/portfolio"; maxPages := 20;
     delay := 2000; retryAttempts := 3; outputDir := js "./companies" |}.

Definition shortConfig : ScrapingConfig :=
  {| baseUrl := js "https://www.antler.co/portfolio"; maxPages := 3;
     delay := 2000; retryAttempts := 3; outputDir := js "./companies" |}.

(** One page with two links to different sites whose headings differ only in
    punctuation, then an empty page. *)
Definition twinsSite : World :=
  siteOf (fun n =>
    match n with
    | 1 => inr (pageOf [linkIn "https://acme-corp.example" (headedCard "Acme Corp");
                        linkIn "https://acmecorp.example" (headedCard "Acme-Corp")])
    | _ => inr (pageOf [])
    end).

(** Three pages with one company each, then an empty fourth page. *)
Definition fourPageSite : World :=
  siteOf (fun n =>
    match n with
    | 1 => inr (pageOf [linkIn "https://alpha.example" (headedCard "Alpha")])
    | 2 => inr (pageOf [linkIn "https://bravo.example" (headedCard "Bravo")])
    | 3 => inr (pageOf [linkIn "https://charlie.example" (headedCard "Charlie")])
    | _ => inr (pageOf [])
    end).

(** Every page brings a company of its own: page [n] has [n] small letters a
    for a heading. *)
Definition endlessSite : World :=
  siteOf (fun n =>
    inr {| anchors :=
             [ {| href := Some (js "https://site.example/" ++ repeat "a"%char n);
                  inside_portfolio := true; self_card := bareCard;
                  closest := fun _ =>
                    Some {| text := repeat "a"%char (S n); html := None;
                            find_first := fun sel =>
                              match sel with
                              | SelHeadings => Some (repeat "a"%char (S n))
                              | _ => None
                              end;
                            find_img := None; find_all := [];
                            find_hash_links := [] |} |} ];
           portfolio_containers := 1 |}).

(** One good page, then a navigation that times out. *)
Definition brokenSite : World :=
  {| goto := fun n => match n with
                      | 2 => Some (js "TimeoutError: Navigation timeout")
                      | _ => None
                      end;
     content := fun n =>
       match n with
       | 1 => inr (pageOf [linkIn "https://alpha.example" (headedCard "Alpha")])
       | _ => inr (pageOf [])
       end;
     getFullYear := 2025%Z |}.

(** The base URL itself cannot be reached. *)
Definition unreachableSite : World :=
  {| goto := fun _ => Some (js "Error: net::ERR_NAME_NOT_RESOLVED");
     content := fun _ => inl (js "Error: no page");
     getFullYear := 2025%Z |}.

End Examples.

(* ------------------------------------------------------------------ *)
(** ** utils.ts: the remaining pure functions *)

Module UtilsRest.

(** [\b(19|20)\d{2}\b] at the head of [s]; [prevWord] says whether the
    character before [s] is a word character. *)
Definition centuryYearAt (prevWord : bool) (s : jsstring) : option jsstring :=
  match s with
  | a :: b :: c :: d :: rest =>
      if negb prevWord
         && ((Ascii.eqb a "1"%char && Ascii.eqb b "9"%char)
             || (Ascii.eqb a "2"%char && Ascii.eqb b "0"%char))
         && isDigit c && isDigit d
         && match rest with
            | [] => true
            | e :: _ => negb (isWordChar e)
            end
      then Some [a; b; c; d]
      else None
  | _ => None
  end.

(** [text.match(/\b(19|20)\d{2}\b/)]: the match at the leftmost index. *)
Fixpoint yearMatch (prevWord : bool) (text : jsstring) : option jsstring :=
  match centuryYearAt prevWord text with
  | Some m => Some m
  | None =>
      match text with
      | [] => None
      | c :: rest => yearMatch (isWordChar c) rest
      end
  end.

(** [extractYear(text)]; [getFullYear] is [new Date().getFullYear()]. *)
Definition extractYear (getFullYear : Z) (text : jsstring) : Z :=
  match yearMatch false text with
  | Some m => parseDigits m
  | None => getFullYear
  end.

(** The alternation [(UK|USA|US|United States|United Kingdom)], lower-cased. *)
Definition countryAlternatives : list jsstring :=
  map js ["uk"; "usa"; "us"; "united states"; "united kingdom"]%string.

(** Whether the whole of [t] matches the alternation under the [i] flag. *)
Definition isCountryName (t : jsstring) : bool :=
  existsb (str_eqb (toLowerCase t)) countryAlternatives.

(** [location.match(/(UK|USA|US|United States|United Kingdom)$/i)]: element 0
    of the match, which starts at the leftmost index whose whole remainder
    is one of the alternatives. *)
Fixpoint countryMatch (location : jsstring) : option jsstring :=
  if isCountryName location then Some location
  else match location with
       | [] => None
       | _ :: rest => countryMatch rest
       end.

(** The last lines of [extractCountry]: the text after the last comma. *)
Definition lastPart (location : jsstring) : jsstring :=
  let parts := split ","%char location in
  if 1 <? length parts then trim (nth (length parts - 1) parts []) else location.

Definition extractCountry (location : jsstring) : jsstring :=
  match countryMatch location with
  | Some m =>
      let match_ := toLowerCase m in
      if str_eqb match_ (js "uk") || str_eqb match_ (js "united kingdom")
      then js "United Kingdom"
      else if str_eqb match_ (js "usa") || str_eqb match_ (js "us")
              || str_eqb match_ (js "united states")
           then js "United States"
           else lastPart location
  | None => lastPart location
  end.

(** The class [[a-z0-9.-]] under the [i] flag. *)
Definition isFilenameChar (c : ascii) : bool :=
  isLowerAZ c || isUpperAZ c || isDigit c
  || Ascii.eqb c "."%char || Ascii.eqb c "-"%char.

(** [filename.replace(/[^a-z0-9.-]/gi, '_')] *)
Definition sanitizeFilename (filename : jsstring) : jsstring :=
  map (fun c => if isFilenameChar c then c else "_"%char) filename.

(** The strings [s] ends with, [s] itself first and the empty one last. *)
Fixpoint tails (s : jsstring) : list jsstring :=
  s :: match s with
       | [] => []
       | _ :: s' => tails s'
       end.

End UtilsRest.

Import UtilsRest.

(* ------------------------------------------------------------------ *)
(** ** utils.ts: generateCompanyStats

    The three distributions are plain objects used as maps.  Reading a key
    that was never set finds what [Object.prototype] has under that name, if
    anything; [inheritedText] gives the string form of that value and
    [numberKey] the property key a number turns into. *)

Module Stats.

(** What a distribution holds under a key: a count, or the text that adding 1
    to something that is not a number gives. *)
Inductive Tally :=
| Count (n : nat)
| Text (s : jsstring).

(** The own properties of one of the objects. *)
Definition Distribution := jsstring -> option Tally.

Record CompanyStats := mkStats {
  totalCompanies : nat;
  sectorDistribution : Distribution;
  locationDistribution : Distribution;
  yearDistribution : Distribution;
  lastUpdated : jsstring
}.

Section Objects.

Variable inheritedText : jsstring -> option jsstring.
Variable numberKey : Z -> jsstring.

Definition emptyObject : Distribution := fun _ => None.

(** [(obj[key] || 0) + 1] *)
Definition plusOne (obj : Distribution) (key : jsstring) : Tally :=
  match obj key with
  | Some (Count n) => Count (S n)
  | Some (Text s) => if isEmpty s then Count 1 else Text (s ++ js "1")
  | None =>
      match inheritedText key with
      | Some s => if isEmpty s then Count 1 else Text (s ++ js "1")
      | None => Count 1
      end
  end.

(** [obj[key] = (obj[key] || 0) + 1].  Under the name [__proto__] the read
    finds the prototype object and the write of a string is ignored. *)
Definition increment (obj : Distribution) (key : jsstring) : Distribution :=
  if str_eqb key (js "__proto__") then obj
  else fun k => if str_eqb k key then Some (plusOne obj key) else obj k.

(** One of the objects after the [forEach]. *)
Definition tally (key : AntlerCompany -> jsstring) (companies : list AntlerCompany)
  : Distribution :=
  fold_left (fun obj company => increment obj (key company)) companies emptyObject.

(** [generateCompanyStats(companies)]; [now] is [new Date().toISOString()].
    The loop fills the three objects side by side, each from its own key. *)
Definition generateCompanyStats (now : jsstring) (companies : list AntlerCompany)
  : CompanyStats :=
  {| totalCompanies := length companies;
     sectorDistribution := tally sector companies;
     locationDistribution := tally location companies;
     yearDistribution := tally (fun c => numberKey (founded_year c)) companies;
     lastUpdated := now |}.

End Objects.

(** How often [k] is the key of a company. *)
Definition occurrences (key : AntlerCompany -> jsstring) (k : jsstring)
           (companies : list AntlerCompany) : nat :=
  length (filter (fun c => str_eqb (key c) k) companies).

End Stats.

(* ------------------------------------------------------------------ *)
(** ** Further notions and inputs *)

Module Further.

(** A whole number below 10 as a property key. *)
Definition digitKey (n : nat) : jsstring := [ascii_of_nat (48 + n)].

(** The property key of a whole number from 0 to 9999: its decimal digits. *)
Definition smallNumberKey (z : Z) : jsstring :=
  let n := Z.to_nat z in
  if n <? 10 then digitKey n
  else if n <? 100 then digitKey (n / 10) ++ digitKey (n mod 10)
  else if n <? 1000
       then digitKey (n / 100) ++ digitKey (n / 10 mod 10) ++ digitKey (n mod 10)
       else digitKey (n / 1000 mod 10) ++ digitKey (n / 100 mod 10)
            ++ digitKey (n / 10 mod 10) ++ digitKey (n mod 10).

(** The two files [savePageCompanies] writes for the list [cs]. *)
Definition snapshot (cfg : ScrapingConfig) (cs : list AntlerCompany)
  : list (jsstring * Blob) :=
  [aggregateFile cfg cs; (js "./meta.json", JsonStats cs)].

(** Whatever stands as location passed [isLocationText], and as sector
    [isSectorText]. *)
Definition classified (acc : jsstring * jsstring) : Prop :=
  (fst acc = [] \/ isLocationText (fst acc) = true)
  /\ (snd acc = [] \/ isSectorText (snd acc) = true).

(** Neither a dot nor a slash. *)
Definition isLabelChar (c : ascii) : bool :=
  negb (Ascii.eqb c "."%char) && negb (Ascii.eqb c "/"%char).

(** A card with a heading and one placeholder link. *)
Definition taggedCard (heading tag : string) : Card :=
  {| text := js heading; html := None;
     find_first := fun sel => match sel with
                              | SelHeadings => Some (js heading)
                              | _ => None
                              end;
     find_img := None; find_all := []; find_hash_links := [js tag] |}.

(** A one-page site whose only company carries the sector tag
    "Constructor". *)
Definition constructorSite : World :=
  Examples.siteOf (fun n =>
    match n with
    | 1 => inr (Examples.pageOf
                  [Examples.linkIn "https://builder.example"
                                   (taggedCard "Builder" "Constructor")])
    | _ => inr (Examples.pageOf [])
    end).

(** A record with the given name, sector, location and year of foundation. *)
Definition sampleCompany (nm sec loc : string) (year : Z) : AntlerCompany :=
  {| id := js "antler-" ++ createSlug (js nm);
     name := js nm;
     slug := createSlug (js nm);
     website := js "https://" ++ createSlug (js nm) ++ js ".example";
     description := synthesized (js nm);
     founded_year := year;
     location := js loc;
     sector := js sec;
     logo_url := [];
     url := js "https://www.antler.co/portfolio/" ++ createSlug (js nm);
     api := js "https://antler-api.github.io/companies/" ++ createSlug (js nm)
            ++ js ".json" |}.

(** Companies of two sectors. *)
Definition plainCompanies : list AntlerCompany :=
  [sampleCompany "Alpha" "FinTech" "Singapore" 2021;
   sampleCompany "Echo" "Climate" "Berlin" 2020;
   sampleCompany "Charlie" "FinTech" "Berlin" 2021].

Definition sampleCompanies : list AntlerCompany :=
  [sampleCompany "Alpha" "FinTech" "Singapore" 2021;
   sampleCompany "Builder" "Constructor" "London" 2022;
   sampleCompany "Charlie" "FinTech" "Berlin" 2021;
   sampleCompany "Delta" "constructor" "__proto__" 2020].

(** A scraper that holds the given companies and has written nothing. *)
Definition holding (cs : list AntlerCompany) : Scraper :=
  {| config := Examples.defaultConfig;
     companies := cs;
     progress := {| totalCompanies := length cs; processedCompanies := length cs;
                    currentPage := 0; errors := [] |};
     written := [];
     navigated := [1] |}.

(** Three links, the third to the site of the first. *)
Definition repeatedLinks : list Anchor :=
  [Examples.linkIn "https://alpha.example" (Examples.headedCard "Alpha");
   Examples.linkIn "https://bravo.example" (Examples.headedCard "Bravo");
   Examples.linkIn "https://alpha.example" (Examples.headedCard "Alpha Again")].

(** A capital of A-Z followed by one or more letters of a-z. *)
Definition isProperWord (w : jsstring) : bool :=
  match w with
  | c :: rest => isUpperAZ c && negb (isEmpty rest) && forallb isLowerAZ rest
  | [] => false
  end.

(** The words after a first one, each behind one space. *)
Fixpoint spaced (ws : list jsstring) : jsstring :=
  match ws with
  | [] => []
  | w :: ws' => " "%char :: w ++ spaced ws'
  end.

(** The words with one space between neighbours. *)
Definition joinWithSpace (ws : list jsstring) : jsstring :=
  match ws with
  | [] => []
  | w :: ws' => w ++ spaced ws'
  end.

(** The texts [isSectorText] looks for inside the lower-cased text. *)
Definition sectorKeywords : list jsstring :=
  map toLowerCase sectors ++ map js ["tech"; "software"; "service"; "platform"]%string.

(** A card with a heading and the given markup, without an image. *)
Definition markupCard (heading markup : string) : Card :=
  {| text := js heading; html := Some (js markup);
     find_first := fun sel => match sel with
                              | SelHeadings => Some (js heading)
                              | _ => None
                              end;
     find_img := None; find_all := []; find_hash_links := [] |}.

(** A page that brings Alpha again, under another address, and Bravo. *)
Definition overlapPage : Page :=
  Examples.pageOf
    [Examples.linkIn "https://alpha.example/about" (Examples.headedCard "Alpha");
     Examples.linkIn "https://bravo.example" (Examples.headedCard "Bravo")].

(** Alpha on page 1, [overlapPage] as page 2, nothing after. *)
Definition overlapSite : World :=
  Examples.siteOf (fun n =>
    match n with
    | 1 => inr (Examples.pageOf
                  [Examples.linkIn "https://alpha.example" (Examples.headedCard "Alpha")])
    | 2 => inr overlapPage
    | _ => inr (Examples.pageOf [])
    end).

End Further.

Import Further.

(* ------------------------------------------------------------------ *)
(** * Facts *)

(** A fact about one character, settled on each of the 256. *)
Ltac every_char c :=
  destruct c as [[] [] [] [] [] [] [] []]; vm_compute; try congruence; auto.

(** ** Strings *)

Section StringFacts.

Lemma str_eqb_eq (a b : jsstring) : str_eqb a b = true <-> a = b.
Proof.
  revert b; induction a as [|x a IH]; intros [|y b]; simpl; split;
    try congruence; try reflexivity.
  - rewrite andb_true_iff, Ascii.eqb_eq, IH. intros [-> ->]; reflexivity.
  - intros E; injection E as -> ->.
    rewrite andb_true_iff, Ascii.eqb_eq, IH; split; reflexivity.
Qed.

Lemma str_eqb_refl (a : jsstring) : str_eqb a a = true.
Proof. apply str_eqb_eq; reflexivity. Qed.

Lemma has_In (set : list jsstring) (x : jsstring) : has set x = true <-> In x set.
Proof.
  unfold has. rewrite existsb_exists. split.
  - intros [y [Hin Heq]]. apply str_eqb_eq in Heq. subst; assumption.
  - intros Hin. exists x. split; [assumption | apply str_eqb_refl].
Qed.

Lemma has_false_not_In (set : list jsstring) (x : jsstring) :
  has set x = false <-> ~ In x set.
Proof.
  rewrite <- has_In. destruct (has set x); split; congruence.
Qed.

Lemma startsWith_split (s p : jsstring) :
  startsWith s p = true -> s = p ++ skipn (length p) s.
Proof.
  revert s; induction p as [|x p IH]; intros s H; simpl in *.
  - reflexivity.
  - destruct s as [|y s]; [discriminate|].
    apply andb_true_iff in H as [Hc Hs]. apply Ascii.eqb_eq in Hc. subst y.
    simpl. f_equal. apply IH; assumption.
Qed.

Lemma dropWhile_all (p : ascii -> bool) (ws s : jsstring) :
  forallb p ws = true -> dropWhile p (ws ++ s) = dropWhile p s.
Proof.
  induction ws as [|c ws IH]; simpl; intros H; [reflexivity|].
  apply andb_true_iff in H as [Hc Hws]. rewrite Hc. apply IH; assumption.
Qed.

Lemma dropWhile_stop (p : ascii -> bool) (c : ascii) (s : jsstring) :
  p c = false -> dropWhile p (c :: s) = c :: s.
Proof. intros H; simpl; rewrite H; reflexivity. Qed.

(** Dropping a prefix never reaches past a character the test refuses. *)
Lemma dropWhile_keeps (p : ascii -> bool) (a : jsstring) (l : ascii) (b : jsstring) :
  p l = false -> exists y, dropWhile p (a ++ l :: b) = y ++ l :: b.
Proof.
  intros Hl. induction a as [|c a IH]; simpl.
  - rewrite Hl. exists []; reflexivity.
  - destruct (p c).
    + exact IH.
    + exists (c :: a); reflexivity.
Qed.

Lemma orElse_nil_r (a : jsstring) : a <|> [] = a.
Proof. destruct a; reflexivity. Qed.

Lemma isEmpty_false (s : jsstring) : isEmpty s = false <-> s <> [].
Proof. destruct s; simpl; split; congruence. Qed.

End StringFacts.

(** ** createSlug *)

Section SlugFacts.

Lemma dash_not_slug : isSlugChar dash = false.
Proof. reflexivity. Qed.

Lemma slug_char_not_dash (c : ascii) : isSlugChar c = true -> Ascii.eqb c dash = false.
Proof.
  intros H. destruct (Ascii.eqb c dash) eqn:E; [|reflexivity].
  apply Ascii.eqb_eq in E. subst c. rewrite dash_not_slug in H. discriminate.
Qed.

Lemma isWord_snoc (w : jsstring) (c : ascii) :
  forallb isSlugChar w = true -> isSlugChar c = true -> isWord (w ++ [c]).
Proof.
  intros Hw Hc. split.
  - destruct w; discriminate.
  - rewrite forallb_app, Hw. simpl. rewrite Hc. reflexivity.
Qed.

Lemma dropFinalDash_word (w : jsstring) :
  forallb isSlugChar w = true -> dropFinalDash w = w.
Proof.
  induction w as [|c w IH]; intros H; [reflexivity|].
  simpl in H. apply andb_true_iff in H as [Hc Hw].
  destruct w as [|d w].
  - simpl. rewrite (slug_char_not_dash _ Hc). reflexivity.
  - change (dropFinalDash (c :: d :: w)) with (c :: dropFinalDash (d :: w)).
    rewrite IH by assumption. reflexivity.
Qed.

Lemma dropFinalDash_app (a b : jsstring) :
  b <> [] -> dropFinalDash (a ++ b) = a ++ dropFinalDash b.
Proof.
  intros Hb. induction a as [|c a IH]; [reflexivity|].
  simpl app. destruct (a ++ b) as [|d r] eqn:E.
  - destruct a; [simpl in E; congruence | discriminate].
  - change (dropFinalDash (c :: d :: r)) with (c :: dropFinalDash (d :: r)).
    rewrite IH. reflexivity.
Qed.

Lemma alnumRuns_nonempty (cur s : jsstring) : cur <> [] -> alnumRuns cur s <> [].
Proof.
  revert cur; induction s as [|c s IH]; intros cur Hc; simpl.
  - destruct cur; [congruence | discriminate].
  - destruct (isSlugChar c).
    + apply IH. destruct cur; discriminate.
    + destruct cur; [congruence | discriminate].
Qed.

Lemma joinWithDash_cons (w : jsstring) (ws : list jsstring) :
  ws <> [] -> joinWithDash (w :: ws) = w ++ dash :: joinWithDash ws.
Proof. destruct ws; [congruence | reflexivity]. Qed.

(** The two replacements, read from inside a word and from inside a run. *)
Lemma replaceRuns_words (s : jsstring) :
  (forall cur, isWord cur ->
     dropFinalDash (cur ++ replaceRuns false s) = joinWithDash (alnumRuns cur s))
  /\ (forall cur, isWord cur ->
     dropFinalDash (cur ++ dash :: replaceRuns true s)
     = joinWithDash (cur :: alnumRuns [] s)).
Proof.
  induction s as [|c s [IH1 IH2]]; split; intros cur [Hne Hall].
  - simpl. rewrite app_nil_r. destruct cur; [congruence|].
    simpl isEmpty. cbv iota. apply dropFinalDash_word; assumption.
  - simpl alnumRuns. simpl replaceRuns. rewrite dropFinalDash_app by discriminate.
    simpl. rewrite app_nil_r. reflexivity.
  - simpl. destruct (isSlugChar c) eqn:Ec.
    + replace (cur ++ c :: replaceRuns false s)
        with ((cur ++ [c]) ++ replaceRuns false s)
        by (rewrite <- app_assoc; reflexivity).
      apply IH1. apply isWord_snoc; assumption.
    + destruct cur; [congruence|]. simpl isEmpty. cbv iota.
      rewrite IH2 by (split; [discriminate | assumption]). reflexivity.
  - simpl replaceRuns. simpl alnumRuns. destruct (isSlugChar c) eqn:Ec.
    + rewrite joinWithDash_cons by (apply alnumRuns_nonempty; discriminate).
      replace (cur ++ dash :: c :: replaceRuns false s)
        with ((cur ++ [dash]) ++ [c] ++ replaceRuns false s)
        by (rewrite <- app_assoc; reflexivity).
      rewrite dropFinalDash_app by discriminate.
      rewrite (IH1 [c]) by (split; [discriminate | simpl; rewrite Ec; reflexivity]).
      rewrite <- app_assoc. reflexivity.
    + simpl. apply IH2. split; assumption.
Qed.

Lemma replaceRuns_in_run (s : jsstring) :
  dropFinalDash (replaceRuns true s) = joinWithDash (alnumRuns [] s).
Proof.
  induction s as [|c s IH]; [reflexivity|].
  simpl replaceRuns. simpl alnumRuns. destruct (isSlugChar c) eqn:Ec.
  - apply (proj1 (replaceRuns_words s) [c]).
    split; [discriminate | simpl; rewrite Ec; reflexivity].
  - exact IH.
Qed.

Lemma slug_of_lowered (s : jsstring) :
  stripEdgeDashes (replaceRuns false s) = joinWithDash (alnumRuns [] s).
Proof.
  destruct s as [|c s]; [reflexivity|].
  simpl replaceRuns. simpl alnumRuns. destruct (isSlugChar c) eqn:Ec.
  - unfold stripEdgeDashes. rewrite (slug_char_not_dash _ Ec).
    apply (proj1 (replaceRuns_words s) [c]).
    split; [discriminate | simpl; rewrite Ec; reflexivity].
  - unfold stripEdgeDashes. simpl app.
    change (Ascii.eqb dash dash) with true. cbv iota.
    apply replaceRuns_in_run.
Qed.

(** Every run is a word. *)
Lemma alnumRuns_words (s cur : jsstring) :
  forallb isSlugChar cur = true -> Forall isWord (alnumRuns cur s).
Proof.
  revert cur; induction s as [|c s IH]; intros cur Hcur; simpl.
  - destruct cur as [|x cur]; simpl; constructor; [|constructor].
    split; [discriminate | assumption].
  - destruct (isSlugChar c) eqn:Ec.
    + apply IH. rewrite forallb_app, Hcur. simpl. rewrite Ec. reflexivity.
    + apply Forall_app. split; [|apply IH; reflexivity].
      destruct cur as [|x cur]; simpl; constructor; [|constructor].
      split; [discriminate | assumption].
Qed.

Lemma wellFormed_word (w rest : jsstring) (prev : bool) :
  forallb isSlugChar w = true -> w <> [] ->
  wellFormedSlug false rest = true ->
  wellFormedSlug prev (w ++ rest) = true.
Proof.
  revert prev; induction w as [|c w IH]; intros prev Hall Hne Hrest; [congruence|].
  simpl in Hall. apply andb_true_iff in Hall as [Hc Hw].
  simpl. rewrite (slug_char_not_dash _ Hc), Hc. simpl.
  destruct w as [|d w]; [exact Hrest|].
  apply IH; [assumption | discriminate | assumption].
Qed.

Lemma wellFormed_join (ws : list jsstring) :
  Forall isWord ws -> ws <> [] -> wellFormedSlug true (joinWithDash ws) = true.
Proof.
  induction ws as [|w ws IH]; intros Hall Hne; [congruence|].
  inversion Hall as [|? ? [Hw1 Hw2] Hrest]; subst.
  destruct ws as [|w' ws].
  - simpl. rewrite <- (app_nil_r w). apply wellFormed_word; auto.
  - rewrite joinWithDash_cons by discriminate.
    apply wellFormed_word; auto.
    simpl. change (Ascii.eqb dash dash) with true. cbv iota. simpl.
    apply IH; [assumption | discriminate].
Qed.

End SlugFacts.

(** C3.  [createSlug] is a function of the name alone; its result is the
    lower-cased name with every maximal run of characters outside [a-z0-9]
    collapsed to one dash and no dash at either end, that is, the
    alphanumeric runs of the lower-cased name joined by single dashes; the
    result is empty or starts and ends with an alphanumeric character and
    has no two dashes in a row; and [createSlug "Acme Corp!"] is
    ["acme-corp"]. *)
Theorem createSlug_collapses_runs :
  (forall name1 name2, name1 = name2 -> createSlug name1 = createSlug name2)
  /\ (forall name, createSlug name = collapsedSlug name)
  /\ (forall name, Forall isWord (alnumRuns [] (toLowerCase name)))
  /\ (forall name, createSlug name = []
                   \/ wellFormedSlug true (createSlug name) = true)
  /\ createSlug (js "Acme Corp!") = js "acme-corp".
Proof.
  assert (Hspec : forall name, createSlug name = collapsedSlug name)
    by (intros name; apply slug_of_lowered).
  repeat split.
  - intros name1 name2 ->; reflexivity.
  - exact Hspec.
  - intros name. apply alnumRuns_words. reflexivity.
  - intros name. rewrite Hspec. unfold collapsedSlug.
    destruct (alnumRuns [] (toLowerCase name)) as [|w ws] eqn:E.
    + left; reflexivity.
    + right. apply wellFormed_join; [|discriminate].
      rewrite <- E. apply alnumRuns_words. reflexivity.
Qed.

(** ** The record builder *)

Section RecordFacts.

Variable getFullYear : Z.

(** What a built record is made of. *)
Lemma extract_fields (element : Anchor) (c : AntlerCompany) :
  extractCompanyFromElement getFullYear element = Some c ->
  let website := websiteOf element in
  let card := resolveCard element parentSelectors in
  let nm := extractName card website in
  (nm <> [] /\ 2 <= length nm)
  /\ id c = js "antler-" ++ createSlug nm
  /\ name c = trim nm
  /\ slug c = createSlug nm
  /\ Types.website c = (if startsWith website (js "http") then website
                        else js "https://" ++ website)
  /\ description c = trim (describe card nm)
  /\ founded_year c = extractFoundedYear getFullYear card
  /\ location c = normalizeLocation (fst (extractLocationAndSector card)) <|> js "Unknown"
  /\ sector c = snd (extractLocationAndSector card) <|> js "Unknown"
  /\ logo_url c = extractLogo card <|> [].
Proof.
  unfold extractCompanyFromElement, websiteOf.
  set (website := match href element with Some h => h | None => [] end).
  set (card := resolveCard element parentSelectors).
  set (nm := extractName card website).
  destruct (isEmpty website || (length website <? 5)); [discriminate|].
  destruct (isEmpty nm || (length nm <? 2)) eqn:En; [discriminate|].
  apply orb_false_iff in En as [En1 En2].
  apply isEmpty_false in En1. apply Nat.ltb_ge in En2.
  destruct (extractLocationAndSector card) as [loc sec] eqn:Els.
  intros H; injection H as <-. simpl.
  repeat split; auto.
Qed.

Lemma afterTagEnd_split (s rest : jsstring) :
  afterTagEnd s = Some rest ->
  exists attrs, s = attrs ++ ">"%char :: rest /\ ~ In ">"%char attrs.
Proof.
  revert rest; induction s as [|c s IH]; intros rest H; simpl in H; [discriminate|].
  destruct (Ascii.eqb c ">"%char) eqn:E.
  - apply Ascii.eqb_eq in E. injection H as <-. subst c.
    exists []. split; [reflexivity | intros []].
  - destruct (IH _ H) as [attrs [-> Hno]].
    exists (c :: attrs). split; [reflexivity|].
    intros [Hc | Hin]; [|exact (Hno Hin)].
    subst c. rewrite Ascii.eqb_refl in E. discriminate.
Qed.

Lemma inRange_digit (lo hi : nat) (c : ascii) :
  inRange lo hi c = true -> 48 <= lo /\ hi <= 57 -> isDigit c = true.
Proof.
  unfold isDigit, inRange. intros H [Hlo Hhi].
  apply andb_true_iff in H as [H1 H2]. apply Nat.leb_le in H1, H2.
  apply andb_true_iff; split; apply Nat.leb_le; lia.
Qed.

Lemma yearTokenAt_split (prev : bool) (s tok : jsstring) :
  yearTokenAt prev s = Some tok ->
  prev = false
  /\ exists post, s = tok ++ post /\ wordAfter post = false /\ isYearToken tok.
Proof.
  unfold yearTokenAt.
  destruct s as [|a [|b [|c [|d rest]]]]; try discriminate.
  match goal with |- (if ?g then _ else _) = _ -> _ => destruct g eqn:G end;
    [|discriminate].
  intros H; injection H as <-.
  apply andb_true_iff in G as [G Hpost].
  apply andb_true_iff in G as [G Hd].
  apply andb_true_iff in G as [Hprev G].
  split; [destruct prev; [discriminate | reflexivity]|].
  exists rest. split; [reflexivity|]. split.
  - destruct rest as [|e rest]; [reflexivity|].
    simpl. destruct (isWordChar e); [discriminate | reflexivity].
  - exists c, d. split; [exact Hd|].
    apply orb_true_iff in G as [G | G];
      apply andb_true_iff in G as [G Hc];
      apply andb_true_iff in G as [Ha Hb];
      apply Ascii.eqb_eq in Ha, Hb; subst a b; [left | right]; split;
        [reflexivity | exact Hc | reflexivity | exact Hc].
Qed.

Lemma wordBefore_cons (prev : bool) (c : ascii) (mid : jsstring) :
  wordBefore prev (c :: mid) = wordBefore (isWordChar c) mid.
Proof.
  unfold wordBefore. simpl. destruct (rev mid) as [|x l]; reflexivity.
Qed.

Lemma lazyYear_split (s : jsstring) :
  forall prev tok, lazyYear prev s = Some tok ->
  exists mid post,
    s = mid ++ tok ++ post
    /\ forallb (fun c => negb (isLineTerminator c)) mid = true
    /\ wordBefore prev mid = false
    /\ wordAfter post = false
    /\ isYearToken tok.
Proof.
  induction s as [|c s IH]; intros prev tok H.
  - simpl in H. discriminate.
  - cbn [lazyYear] in H.
    destruct (yearTokenAt prev (c :: s)) as [t|] eqn:E.
    + injection H as <-.
      destruct (yearTokenAt_split _ _ _ E) as [Hprev [post [Hs [Hpost Ht]]]].
      exists [], post. repeat split; assumption.
    + destruct (isLineTerminator c) eqn:L; [discriminate|].
      destruct (IH _ _ H) as [mid [post [-> [Hmid [Hb [Hpost Ht]]]]]].
      exists (c :: mid), post. split; [reflexivity|]. split.
      * simpl. rewrite L, Hmid. reflexivity.
      * rewrite wordBefore_cons. repeat split; assumption.
Qed.

Lemma matchYearAt_split (s tok : jsstring) :
  matchYearAt s = Some tok -> ImgBeforeYear s (parseDigits tok).
Proof.
  unfold matchYearAt. destruct (startsWith s (js "<img")) eqn:Himg; [|discriminate].
  apply startsWith_split in Himg.
  destruct (afterTagEnd (skipn 4 s)) as [rest|] eqn:Htag; [|discriminate].
  intros Hy.
  destruct (afterTagEnd_split _ _ Htag) as [attrs [Hattrs Hno]].
  destruct (lazyYear_split _ _ _ Hy) as [mid [post [-> [Hmid [Hb [Hpost Htok]]]]]].
  exists [], attrs, mid, tok, post. repeat split; try assumption.
  simpl app at 1. rewrite Himg at 1. change (length (js "<img")) with 4.
  rewrite Hattrs. reflexivity.
Qed.

Lemma structuralYearMatch_split (s tok : jsstring) :
  structuralYearMatch s = Some tok -> ImgBeforeYear s (parseDigits tok).
Proof.
  induction s as [|c s IH]; intros H.
  - simpl in H. discriminate.
  - cbn [structuralYearMatch] in H.
    destruct (matchYearAt (c :: s)) as [t|] eqn:E.
    + injection H as <-. apply matchYearAt_split; assumption.
    + destruct (IH H) as [pre [attrs [mid [tk [post [-> Hrest]]]]]].
      exists (c :: pre), attrs, mid, tk, post. split; [reflexivity | exact Hrest].
Qed.

Lemma extractFoundedYear_cases (card : Card) :
  extractFoundedYear getFullYear card = 0%Z
  \/ ((1940 <= extractFoundedYear getFullYear card <= getFullYear)%Z
      /\ ImgBeforeYear (markupOf card) (extractFoundedYear getFullYear card)).
Proof.
  unfold extractFoundedYear. fold (markupOf card).
  destruct (structuralYearMatch (markupOf card)) as [tok|] eqn:E; [|left; reflexivity].
  destruct ((1940 <=? parseDigits tok)%Z && (parseDigits tok <=? getFullYear)%Z) eqn:R;
    [|left; reflexivity].
  right. apply andb_true_iff in R as [R1 R2].
  apply Z.leb_le in R1, R2. split; [lia|].
  apply structuralYearMatch_split; assumption.
Qed.

End RecordFacts.

(** For every built record, [founded_year] is other than 0 only when the
    pattern of the code is found in the raw markup of the card: the
    characters "<img", a closing angle after them and, on the same line, a
    year token standing alone whose value, in [1940, current year], is the
    [founded_year]; when the markup has no such pair the field is 0; so the
    field is always 0 or a year in [1940, current year]. *)
Lemma founded_year_structural (getFullYear : Z) (element : Anchor) (c : AntlerCompany) :
  extractCompanyFromElement getFullYear element = Some c ->
  let markup := markupOf (resolveCard element parentSelectors) in
  (founded_year c <> 0%Z ->
     ImgBeforeYear markup (founded_year c)
     /\ (1940 <= founded_year c <= getFullYear)%Z)
  /\ (~ (exists v, ImgBeforeYear markup v /\ (1940 <= v <= getFullYear)%Z) ->
      founded_year c = 0%Z)
  /\ (founded_year c = 0%Z \/ (1940 <= founded_year c <= getFullYear)%Z).
Proof.
  intros H markup.
  destruct (extract_fields _ _ _ H) as (_ & _ & _ & _ & _ & _ & Hy & _).
  subst markup. rewrite Hy.
  destruct (extractFoundedYear_cases getFullYear (resolveCard element parentSelectors))
    as [Hz | [Hr Hi]].
  - split; [intros Hne; congruence | split; [intros _; exact Hz | left; exact Hz]].
  - split; [intros _; split; assumption | split; [|right; exact Hr]].
    intros Hno. exfalso. apply Hno. eexists; split; eassumption.
Qed.

(** ** normalizeLocation *)

Section LocationFacts.

Lemma lower_u_is_text (c : ascii) :
  lowerChar c = "u"%char -> isWhiteSpace c = false /\ c <> ","%char.
Proof. every_char c; split; congruence. Qed.

Lemma countryToken_cases (tok : jsstring) :
  isCountryToken tok = true ->
  toLowerCase tok = js "uk" \/ toLowerCase tok = js "usa" \/ toLowerCase tok = js "us".
Proof.
  unfold isCountryToken. cbv zeta. rewrite !orb_true_iff, !str_eqb_eq. tauto.
Qed.

(** A token starts with a letter u and has two or three letters. *)
Lemma countryToken_shape (tok : jsstring) :
  isCountryToken tok = true ->
  exists c rest, tok = c :: rest /\ lowerChar c = "u"%char
                 /\ (length rest = 1 \/ length rest = 2).
Proof.
  intros H. apply countryToken_cases in H.
  destruct tok as [|c rest].
  - destruct H as [H | [H | H]]; discriminate.
  - exists c, rest. split; [reflexivity|].
    unfold toLowerCase in H. simpl map in H.
    destruct H as [H | [H | H]]; injection H as Hc Hr;
      (split; [exact Hc|]);
      apply (f_equal (@length ascii)) in Hr; rewrite length_map in Hr;
      simpl in Hr; auto.
Qed.

(** No token is another token with one more letter in front. *)
Lemma countryToken_not_extended (l : ascii) (tok : jsstring) :
  isCountryToken tok = true -> isCountryToken (l :: tok) = false.
Proof.
  intros H. destruct (isCountryToken (l :: tok)) eqn:E; [|reflexivity].
  apply countryToken_cases in H, E.
  unfold toLowerCase in *. simpl map in E.
  destruct tok as [|a [|b [|c tok]]];
    simpl in H, E;
    destruct H as [H | [H | H]]; try discriminate;
    destruct E as [E | [E | E]]; try discriminate;
    injection H as Ha _; injection E as _ Ea _; congruence.
Qed.

(** Behind text that is neither white space nor a comma, nothing that still
    holds that text matches the country pattern. *)
Lemma no_token_across_text (a : jsstring) (l : ascii) (sep tok : jsstring) :
  isWhiteSpace l = false ->
  isCountryToken tok = true ->
  isCountryToken (dropWhile isWhiteSpace (a ++ l :: sep ++ tok)) = false.
Proof.
  intros Hl Htok.
  destruct (dropWhile_keeps isWhiteSpace a l (sep ++ tok) Hl) as [y Hy].
  rewrite Hy.
  destruct (isCountryToken (y ++ l :: sep ++ tok)) eqn:E; [|reflexivity].
  exfalso.
  destruct (countryToken_shape _ E) as (c & rest & Hs & _ & Hlen).
  destruct (countryToken_shape _ Htok) as (c' & rest' & -> & _ & Hlen').
  assert (Hlength : length (y ++ l :: sep ++ c' :: rest') = S (length rest))
    by (rewrite Hs; reflexivity).
  rewrite length_app in Hlength. simpl in Hlength.
  rewrite length_app in Hlength. simpl in Hlength.
  assert (y = []) by (destruct y; [reflexivity | simpl in Hlength; lia]).
  assert (sep = []) by (destruct sep; [reflexivity | simpl in Hlength; lia]).
  subst y sep. simpl app in E.
  rewrite (countryToken_not_extended l _ Htok) in E. discriminate.
Qed.

Lemma stripCountrySuffix_unfold (s : jsstring) :
  stripCountrySuffix s =
  if matchesCountrySuffix s then []
  else match s with
       | [] => []
       | c :: s' => c :: stripCountrySuffix s'
       end.
Proof. destruct s; reflexivity. Qed.

Lemma separator_token_matches (sep tok : jsstring) :
  isSeparator sep -> isCountryToken tok = true ->
  matchesCountrySuffix (sep ++ tok) = true.
Proof.
  intros [ws [Hws Hsep]] Htok.
  destruct (countryToken_shape _ Htok) as (c & rest & Ht & Hc & _).
  destruct (lower_u_is_text _ Hc) as [Hcw Hcc].
  assert (Hdrop : dropWhile isWhiteSpace (ws ++ tok) = tok).
  { rewrite dropWhile_all by assumption. rewrite Ht. apply dropWhile_stop; assumption. }
  unfold matchesCountrySuffix. destruct Hsep as [-> | ->].
  - destruct ws as [|x ws'].
    + simpl app. rewrite Ht.
      destruct (Ascii.eqb c ","%char) eqn:E;
        [apply Ascii.eqb_eq in E; congruence|].
      rewrite <- Ht. simpl app in Hdrop. rewrite Hdrop. assumption.
    + simpl app.
      destruct (Ascii.eqb x ","%char) eqn:E.
      * apply Ascii.eqb_eq in E. subst x. simpl in Hws. discriminate.
      * rewrite E. change (x :: ws' ++ tok) with ((x :: ws') ++ tok).
        rewrite Hdrop. assumption.
  - simpl app. cbv iota. rewrite Ascii.eqb_refl. rewrite Hdrop. assumption.
Qed.

Lemma matchesCountrySuffix_cons (c : ascii) (s : jsstring) :
  matchesCountrySuffix (c :: s) =
  isCountryToken (dropWhile isWhiteSpace (if Ascii.eqb c ","%char then s else c :: s)).
Proof. reflexivity. Qed.

Lemma text_before_token_kept (b : jsstring) (l : ascii) (sep tok : jsstring) :
  isWhiteSpace l = false -> l <> ","%char ->
  isSeparator sep -> isCountryToken tok = true ->
  stripCountrySuffix ((b ++ [l]) ++ sep ++ tok) = b ++ [l].
Proof.
  intros Hl Hc Hsep Htok.
  assert (Hend : stripCountrySuffix (sep ++ tok) = []).
  { rewrite stripCountrySuffix_unfold, separator_token_matches by assumption.
    reflexivity. }
  induction b as [|c b IH].
  - simpl app. rewrite stripCountrySuffix_unfold, matchesCountrySuffix_cons.
    destruct (Ascii.eqb l ","%char) eqn:E;
      [apply Ascii.eqb_eq in E; congruence|].
    pose proof (no_token_across_text [] l sep tok Hl Htok) as N.
    simpl app in N. rewrite N, Hend. reflexivity.
  - rewrite <- app_assoc in IH |- *. simpl app in IH |- *.
    rewrite stripCountrySuffix_unfold, matchesCountrySuffix_cons.
    destruct (Ascii.eqb c ","%char).
    + rewrite (no_token_across_text b l sep tok Hl Htok), IH. reflexivity.
    + pose proof (no_token_across_text (c :: b) l sep tok Hl Htok) as N.
      simpl app in N. rewrite N, IH. reflexivity.
Qed.

Lemma normalizeLocation_removes_token (base sep tok : jsstring) :
  endsInText base -> isSeparator sep -> isCountryToken tok = true ->
  normalizeLocation (base ++ sep ++ tok) = trim base.
Proof.
  intros Hbase Hsep Htok. unfold normalizeLocation.
  destruct Hbase as [-> | (b & l & -> & Hl & Hc)].
  - simpl app. rewrite stripCountrySuffix_unfold, separator_token_matches by assumption.
    reflexivity.
  - rewrite text_before_token_kept by assumption. reflexivity.
Qed.

Lemma isLocationText_nonempty (t : jsstring) : isLocationText t = true -> t <> [].
Proof. intros H ->. vm_compute in H. discriminate. Qed.

End LocationFacts.

(** C10.  [normalizeLocation] removes one trailing UK, USA or US token, in
    any letter case and with the comma and white space that may precede it,
    and trims what is left; so a card whose classified location text is
    exactly "US", "UK" or "USA", a text [isLocationText] accepts, has the
    empty string for normalized location and the literal "Unknown" in the
    [location] field of its record. *)
Theorem normalizeLocation_country_only :
  (forall base sep tok,
      endsInText base -> isSeparator sep -> isCountryToken tok = true ->
      normalizeLocation (base ++ sep ++ tok) = trim base)
  /\ (forall t, In t [js "US"; js "UK"; js "USA"] ->
        isCountryToken t = true
        /\ isLocationText t = true
        /\ normalizeLocation t = [])
  /\ (forall getFullYear element c t,
        extractCompanyFromElement getFullYear element = Some c ->
        In t [js "US"; js "UK"; js "USA"] ->
        fst (extractLocationAndSector (resolveCard element parentSelectors)) = t ->
        location c = js "Unknown").
Proof.
  split; [exact normalizeLocation_removes_token|].
  assert (Hthree : forall t, In t [js "US"; js "UK"; js "USA"] ->
                     isCountryToken t = true /\ isLocationText t = true
                     /\ normalizeLocation t = []).
  { intros t [<- | [<- | [<- | []]]]; repeat split; reflexivity. }
  split; [exact Hthree|].
  intros y element c t H Hin Hloc.
  destruct (extract_fields _ _ _ H) as (_ & _ & _ & _ & _ & _ & _ & Hl & _).
  rewrite Hl, Hloc. destruct (Hthree t Hin) as (_ & _ & ->). reflexivity.
Qed.

(** ** Location and sector of a card *)

Section ClassifierFacts.

Lemma sole_link_is_location (t : jsstring) :
  isLocationText (trim t) = true ->
  classifyHashLinks [t] = (trim t, []).
Proof. intros H. unfold classifyHashLinks. rewrite H. reflexivity. Qed.

(** Once a placeholder link gave a location, the bracket scan is not run. *)
Lemma location_found_no_brackets (card : Card) (loc sec : jsstring) :
  classifyHashLinks (find_hash_links card) = (loc, sec) ->
  loc <> [] ->
  extractLocationAndSector card = (loc, sec).
Proof.
  intros H Hne. unfold extractLocationAndSector. rewrite H.
  destruct loc; [congruence | reflexivity].
Qed.

End ClassifierFacts.

(** C5.  A card with exactly one placeholder link whose text matches both a
    location keyword and a sector pattern has that text classified as its
    location, and the sector is left unset, so the record's sector is
    "Unknown"; a card with the two placeholder links "Singapore" and
    "FinTech", in this order, gets a record with location "Singapore" and
    sector "FinTech". *)
Theorem location_first_priority :
  (forall getFullYear element c t,
      extractCompanyFromElement getFullYear element = Some c ->
      find_hash_links (resolveCard element parentSelectors) = [t] ->
      isLocationText (trim t) = true ->
      isSectorText (trim t) = true ->
      classifyHashLinks [t] = (trim t, [])
      /\ extractLocationAndSector (resolveCard element parentSelectors) = (trim t, [])
      /\ location c = normalizeLocation (trim t) <|> js "Unknown"
      /\ sector c = js "Unknown")
  /\ (forall getFullYear element c,
      extractCompanyFromElement getFullYear element = Some c ->
      find_hash_links (resolveCard element parentSelectors)
        = [js "Singapore"; js "FinTech"] ->
      location c = js "Singapore" /\ sector c = js "FinTech").
Proof.
  split.
  - intros y element c t H Hlinks Hloc _.
    pose proof (sole_link_is_location t Hloc) as Hcl.
    assert (Hls : extractLocationAndSector (resolveCard element parentSelectors)
                  = (trim t, [])).
    { apply location_found_no_brackets.
      - rewrite Hlinks. exact Hcl.
      - apply isLocationText_nonempty. exact Hloc. }
    destruct (extract_fields _ _ _ H) as (_ & _ & _ & _ & _ & _ & _ & Hl & Hs & _).
    rewrite Hls in Hl, Hs. simpl in Hl, Hs.
    repeat split; assumption.
  - intros y element c H Hlinks.
    assert (Hls : extractLocationAndSector (resolveCard element parentSelectors)
                  = (js "Singapore", js "FinTech")).
    { apply location_found_no_brackets; [rewrite Hlinks; reflexivity | discriminate]. }
    destruct (extract_fields _ _ _ H) as (_ & _ & _ & _ & _ & _ & _ & Hl & Hs & _).
    rewrite Hls in Hl, Hs. split; assumption.
Qed.

(** ** The shape of a built record *)

Section ShapeFacts.

Lemma dropWhile_idem (p : ascii -> bool) (s : jsstring) :
  dropWhile p (dropWhile p s) = dropWhile p s.
Proof.
  induction s as [|c s IH]; [reflexivity|].
  simpl. destruct (p c) eqn:E; [exact IH|]. simpl. rewrite E. reflexivity.
Qed.

Lemma dropWhile_length (p : ascii -> bool) (s : jsstring) :
  length (dropWhile p s) <= length s.
Proof.
  induction s as [|c s IH]; simpl; [lia|]. destruct (p c); simpl; lia.
Qed.

(** A string that [trimStart] leaves alone is empty or starts with text. *)
Lemma trimStart_fixed (s : jsstring) :
  trimStart s = s ->
  s = [] \/ exists c s', s = c :: s' /\ isWhiteSpace c = false.
Proof.
  destruct s as [|c s']; [left; reflexivity|]. intros H. right.
  exists c, s'. split; [reflexivity|].
  unfold trimStart in H. simpl in H.
  destruct (isWhiteSpace c); [|reflexivity].
  pose proof (dropWhile_length isWhiteSpace s') as L.
  rewrite H in L. simpl in L. lia.
Qed.

Lemma trimEnd_keeps_head (c : ascii) (s : jsstring) :
  isWhiteSpace c = false -> exists s', trimEnd (c :: s) = c :: s'.
Proof.
  intros Hc. unfold trimEnd. simpl rev.
  destruct (dropWhile_keeps isWhiteSpace (rev s) c [] Hc) as [y Hy].
  rewrite Hy, rev_app_distr. simpl. exists (rev y). reflexivity.
Qed.

Lemma trimStart_trimEnd (s : jsstring) :
  trimStart s = s -> trimStart (trimEnd s) = trimEnd s.
Proof.
  intros H. destruct (trimStart_fixed s H) as [-> | (c & s' & -> & Hc)].
  - reflexivity.
  - destruct (trimEnd_keeps_head c s' Hc) as [t ->].
    unfold trimStart. apply dropWhile_stop. assumption.
Qed.

Lemma trimEnd_idem (s : jsstring) : trimEnd (trimEnd s) = trimEnd s.
Proof.
  unfold trimEnd. rewrite rev_involutive, dropWhile_idem. reflexivity.
Qed.

Lemma trim_idem (s : jsstring) : trim (trim s) = trim s.
Proof.
  unfold trim.
  rewrite (trimStart_trimEnd (trimStart s)) by apply dropWhile_idem.
  apply trimEnd_idem.
Qed.

(** A non-empty string that [trim] leaves alone starts with text. *)
Lemma trim_fixed_head (s : jsstring) :
  trim s = s -> s <> [] ->
  exists c s', s = c :: s' /\ isWhiteSpace c = false.
Proof.
  intros H Hne.
  assert (Hs : trimStart s = s).
  { rewrite <- H at 1. unfold trim.
    rewrite (trimStart_trimEnd (trimStart s)) by apply dropWhile_idem.
    exact H. }
  destruct (trimStart_fixed s Hs) as [-> | Hex]; [congruence | exact Hex].
Qed.

(** What [trim] takes away is white space on either side. *)
Lemma dropWhile_prefix (p : ascii -> bool) (s : jsstring) :
  exists pre, s = pre ++ dropWhile p s /\ forallb p pre = true.
Proof.
  induction s as [|c s [pre [Hs Hp]]].
  - exists []. split; reflexivity.
  - simpl. destruct (p c) eqn:E.
    + exists (c :: pre). simpl. rewrite E, Hp. split; [f_equal; exact Hs | reflexivity].
    + exists []. split; reflexivity.
Qed.

Lemma trim_inside (s : jsstring) :
  exists pre post,
    s = pre ++ trim s ++ post
    /\ forallb isWhiteSpace pre = true /\ forallb isWhiteSpace post = true.
Proof.
  destruct (dropWhile_prefix isWhiteSpace s) as [pre [Hs Hpre]].
  destruct (dropWhile_prefix isWhiteSpace (rev (trimStart s))) as [tsop [Hr Htsop]].
  exists pre, (rev tsop). split; [|split; [assumption|]].
  - unfold trim, trimEnd. rewrite <- rev_app_distr, <- Hr, rev_involutive.
    exact Hs.
  - rewrite forallb_forall in *. intros x Hx. apply Htsop. apply in_rev. assumption.
Qed.

Lemma lower_space_not_slug (c : ascii) :
  isWhiteSpace c = true -> isSlugChar (lowerChar c) = false.
Proof. every_char c. Qed.

Lemma alnumRuns_skip (gap s : jsstring) :
  forallb (fun c => negb (isSlugChar c)) gap = true ->
  alnumRuns [] (gap ++ s) = alnumRuns [] s.
Proof.
  induction gap as [|c gap IH]; intros H; [reflexivity|].
  simpl in H. apply andb_true_iff in H as [Hc Hg]. apply negb_true_iff in Hc.
  simpl. rewrite Hc. apply IH. assumption.
Qed.

Lemma alnumRuns_trailing (gap s : jsstring) :
  forallb (fun c => negb (isSlugChar c)) gap = true ->
  forall cur, alnumRuns cur (s ++ gap) = alnumRuns cur s.
Proof.
  intros Hgap. induction s as [|c s IH]; intros cur.
  - simpl app. induction gap as [|g gap IHg] in cur, Hgap |- *.
    + reflexivity.
    + simpl in Hgap. apply andb_true_iff in Hgap as [Hg Hrest].
      apply negb_true_iff in Hg. simpl. rewrite Hg.
      rewrite (IHg Hrest []). simpl. rewrite app_nil_r. reflexivity.
  - simpl. destruct (isSlugChar c); [apply IH|]. rewrite IH. reflexivity.
Qed.

Lemma lowered_space_is_gap (ws : jsstring) :
  forallb isWhiteSpace ws = true ->
  forallb (fun c => negb (isSlugChar c)) (toLowerCase ws) = true.
Proof.
  induction ws as [|c ws IH]; intros H; [reflexivity|].
  simpl in H. apply andb_true_iff in H as [Hc Hws].
  simpl. rewrite (lower_space_not_slug c Hc). simpl. apply IH. assumption.
Qed.

(** The slug does not see the white space [trim] removes. *)
Lemma createSlug_trim (s : jsstring) : createSlug (trim s) = createSlug s.
Proof.
  destruct (trim_inside s) as (pre & post & Hs & Hpre & Hpost).
  unfold createSlug. rewrite !slug_of_lowered. rewrite Hs at 2.
  unfold toLowerCase. rewrite !map_app.
  rewrite alnumRuns_skip by (apply lowered_space_is_gap; assumption).
  rewrite alnumRuns_trailing by (apply lowered_space_is_gap; assumption).
  reflexivity.
Qed.

Lemma trim_text (x : ascii) (mid : jsstring) (y : ascii) :
  isWhiteSpace x = false -> isWhiteSpace y = false ->
  trim (x :: mid ++ [y]) = x :: mid ++ [y].
Proof.
  intros Hx Hy. unfold trim, trimStart. rewrite dropWhile_stop by assumption.
  unfold trimEnd. change (x :: mid ++ [y]) with ((x :: mid) ++ [y]).
  rewrite rev_app_distr. change (rev [y] ++ rev (x :: mid)) with (y :: rev (x :: mid)).
  rewrite dropWhile_stop by assumption.
  change (rev (y :: rev (x :: mid))) with (rev (rev (x :: mid)) ++ [y]).
  rewrite rev_involutive. reflexivity.
Qed.

Lemma extractLogo_absolute (card : Card) :
  extractLogo card = [] \/ startsWith (extractLogo card) (js "http") = true.
Proof.
  unfold extractLogo.
  destruct (extractAttribute_img_src card <|> []) as [|x l]; [left; reflexivity|].
  right. destruct (startsWith (x :: l) (js "http")) eqn:E1;
    cbn [isEmpty negb andb]; [exact E1|].
  destruct (startsWith (x :: l) (js "//")); [reflexivity|].
  destruct (startsWith (x :: l) (js "/")); reflexivity.
Qed.

Variable getFullYear : Z.

(** What holds of every record the builder returns. *)
Lemma built_record_shape (element : Anchor) (c : AntlerCompany) :
  extractCompanyFromElement getFullYear element = Some c ->
  let card := resolveCard element parentSelectors in
  trim (name c) = name c
  /\ slug c = createSlug (name c)
  /\ id c = js "antler-" ++ slug c
  /\ startsWith (Types.website c) (js "http") = true
  /\ (logo_url c = [] \/ startsWith (logo_url c) (js "http") = true)
  /\ (fst (extractLocationAndSector card) = [] -> location c = js "Unknown")
  /\ (snd (extractLocationAndSector card) = [] -> sector c = js "Unknown")
  /\ url c = js "https://www.antler.co/portfolio/" ++ slug c.
Proof.
  intros H card.
  pose proof (extract_fields getFullYear element c H) as F. cbv zeta in F.
  destruct F as (_ & Hid & Hname & Hslug & Hweb & _ & _ & Hloc & Hsec & Hlogo).
  fold card in Hloc, Hsec, Hlogo.
  split; [rewrite Hname; apply trim_idem|].
  split; [rewrite Hname, createSlug_trim; exact Hslug|].
  split; [rewrite Hslug; exact Hid|].
  split.
  { rewrite Hweb. destruct (startsWith (websiteOf element) (js "http")) eqn:E;
      [exact E | reflexivity]. }
  split.
  { rewrite Hlogo, orElse_nil_r. apply extractLogo_absolute. }
  split; [intros E; rewrite Hloc, E; reflexivity|].
  split; [intros E; rewrite Hsec, E; reflexivity|].
  unfold extractCompanyFromElement in H.
  destruct (isEmpty _ || _) in H; [discriminate|].
  destruct (isEmpty _ || _) in H; [discriminate|].
  destruct (extractLocationAndSector _) in H.
  injection H as <-. reflexivity.
Qed.

(** The description when the card offers none of five characters: the
    sentence made from the name as extracted, trimmed as a whole; it is the
    sentence made from the record's name when the extracted name has no
    white space around it. *)
Lemma description_synthesized (element : Anchor) (c : AntlerCompany) :
  extractCompanyFromElement getFullYear element = Some c ->
  let card := resolveCard element parentSelectors in
  let nm := extractName card (websiteOf element) in
  length (extractDescription card) < 5 ->
  description c = trim (synthesized nm)
  /\ (trim nm = nm -> description c = synthesized (name c)).
Proof.
  intros H card nm Hlen.
  pose proof (extract_fields getFullYear element c H) as F. cbv zeta in F.
  destruct F as ((Hne & _) & _ & Hname & _ & _ & Hdesc & _).
  fold card in Hdesc, Hname, Hne. fold nm in Hdesc, Hname, Hne.
  assert (Hd : describe card nm = synthesized nm).
  { unfold describe. apply Nat.ltb_lt in Hlen. rewrite Hlen, orb_true_r.
    reflexivity. }
  rewrite Hd in Hdesc. split; [exact Hdesc|].
  intros Hfix. rewrite Hdesc, Hname, Hfix.
  destruct (trim_fixed_head nm Hfix Hne) as (x & rest & Hnm & Hx).
  rewrite Hnm.
  replace (synthesized (x :: rest))
    with (x :: (rest ++ js " is a portfolio company of Antler") ++ ["."%char])
    by (unfold synthesized; simpl; rewrite <- app_assoc; reflexivity).
  apply trim_text; [assumption | reflexivity].
Qed.

End ShapeFacts.

(** ** The links of a page *)

Section LinkFacts.

Lemma isCompanyLink_href (el : Anchor) :
  isCompanyLink el = true ->
  exists h, href el = Some h
            /\ 10 < length h
            /\ (forall d, In d deniedSubstrings -> includes h d = false).
Proof.
  unfold isCompanyLink. destruct (href el) as [h|]; [|discriminate].
  intros H. apply andb_true_iff in H as [H Hlen].
  apply andb_true_iff in H as [_ Hden].
  exists h. split; [reflexivity|]. split; [apply Nat.ltb_lt; assumption|].
  intros d Hd. rewrite forallb_forall in Hden.
  apply negb_true_iff. apply Hden. assumption.
Qed.

Lemma companyLinks_sound (page : Page) (el : Anchor) :
  In el (companyLinks page) ->
  In el (anchors page) /\ hasHttpsHref el = true /\ isCompanyLink el = true.
Proof.
  unfold companyLinks. cbv zeta. rewrite filter_In. intros [Hin Hc].
  split; [|split; [|assumption]].
  - destruct (0 <? portfolio_containers page);
      [destruct (0 <? length _)|]; apply filter_In in Hin; tauto.
  - destruct (0 <? portfolio_containers page);
      [destruct (0 <? length _)|]; apply filter_In in Hin as [_ Hin];
      try assumption.
    apply andb_true_iff in Hin. tauto.
Qed.

Lemma companyLinks_in_portfolio (page : Page) :
  0 < portfolio_containers page ->
  (exists a, In a (anchors page) /\ inside_portfolio a = true /\ hasHttpsHref a = true) ->
  forall el, In el (companyLinks page) -> inside_portfolio el = true.
Proof.
  intros Hc [a (Ha & Hp & Hh)] el. unfold companyLinks. cbv zeta.
  apply Nat.ltb_lt in Hc. rewrite Hc.
  set (portfolioLinks := filter (fun a => inside_portfolio a && hasHttpsHref a)
                                (anchors page)).
  assert (Hin : In a portfolioLinks).
  { apply filter_In. split; [assumption|]. rewrite Hp, Hh. reflexivity. }
  destruct portfolioLinks as [|x rest] eqn:E; [destruct Hin|].
  simpl length. change (0 <? S (length rest)) with true. cbv iota.
  rewrite filter_In. intros [Hel _]. rewrite <- E in Hel.
  apply filter_In in Hel as [_ Hel]. apply andb_true_iff in Hel. tauto.
Qed.

Lemma processedElements_sub (links : list Anchor) :
  forall seen el, In el (processedElements links seen) -> In el links.
Proof.
  induction links as [|x links IH]; intros seen el H; simpl in *; [assumption|].
  destruct (has seen (websiteOf x)).
  - right. eapply IH; eassumption.
  - destruct H as [-> | H]; [left; reflexivity | right; eapply IH; eassumption].
Qed.

Lemma processedElements_fresh (links : list Anchor) :
  forall seen,
    NoDup (map websiteOf (processedElements links seen))
    /\ (forall el, In el (processedElements links seen) -> ~ In (websiteOf el) seen).
Proof.
  induction links as [|x links IH]; intros seen; simpl.
  - split; [constructor | intros el []].
  - destruct (has seen (websiteOf x)) eqn:E.
    + apply IH.
    + destruct (IH (websiteOf x :: seen)) as [Hnd Hfresh].
      apply has_false_not_In in E. split.
      * simpl. constructor; [|assumption].
        intros Hin. apply in_map_iff in Hin as [el [Heq Hel]].
        apply (Hfresh el Hel). left. symmetry. assumption.
      * intros el [<- | Hel]; [assumption|].
        intros Hin. apply (Hfresh el Hel). right. assumption.
Qed.

End LinkFacts.

(** C8.  The candidates of a page are anchors whose [href] begins with
    "https://"; when an element whose class contains "portfolio" exists and
    holds such an anchor, all candidates lie inside such an element; every
    candidate handed to the record builder has an [href] longer than 10
    characters that contains none of the denied hosts (antler.co,
    linkedin.com, twitter.com, facebook.com, instagram.com, youtube.com,
    tiktok.com, github.com, medium.com, apple.com, google.com) nor "mailto:"
    nor "tel:"; and no two of them have the same [href] string. *)
Theorem candidate_links_filtered (page : Page) :
  let processed := processedElements (companyLinks page) [] in
  (forall el, In el processed ->
     In el (anchors page)
     /\ exists h, href el = Some h
                  /\ startsWith h (js "https://") = true
                  /\ 10 < length h
                  /\ (forall d, In d deniedSubstrings -> includes h d = false))
  /\ (0 < portfolio_containers page ->
      (exists a, In a (anchors page) /\ inside_portfolio a = true
                 /\ hasHttpsHref a = true) ->
      forall el, In el processed -> inside_portfolio el = true)
  /\ NoDup (map websiteOf processed)
  /\ deniedSubstrings
     = map js ["antler.co"; "linkedin.com"; "twitter.com"; "facebook.com";
               "instagram.com"; "youtube.com"; "tiktok.com"; "github.com";
               "medium.com"; "apple.com"; "google.com"; "mailto:"; "tel:"]%string.
Proof.
  intros processed. subst processed. repeat split.
  - apply processedElements_sub in H. apply companyLinks_sound in H. tauto.
  - apply processedElements_sub in H. apply companyLinks_sound in H.
    destruct H as (_ & Hs & Hc).
    destruct (isCompanyLink_href _ Hc) as [h (Hh & Hlen & Hden)].
    exists h. unfold hasHttpsHref in Hs. rewrite Hh in Hs. tauto.
  - intros Hc Hex el Hel. apply processedElements_sub in Hel.
    eapply companyLinks_in_portfolio; eassumption.
  - apply processedElements_fresh.
Qed.

(** ** The pagination loop *)

Section LoopFacts.

Variable w : World.
Variable cfg : ScrapingConfig.

Lemma newCompaniesOf_known (existing pageCompanies : list AntlerCompany) :
  Forall (fun c => In (slug c) (map slug existing)) pageCompanies ->
  newCompaniesOf existing pageCompanies = [].
Proof.
  unfold newCompaniesOf. cbv zeta. induction 1 as [|c l Hc _ IH]; [reflexivity|].
  simpl. apply has_In in Hc. rewrite Hc. exact IH.
Qed.

Lemma newCompaniesOf_unknown (existing pageCompanies : list AntlerCompany) (c : AntlerCompany) :
  In c (newCompaniesOf existing pageCompanies) <->
  In c pageCompanies /\ ~ In (slug c) (map slug existing).
Proof.
  unfold newCompaniesOf. cbv zeta. rewrite filter_In, negb_true_iff, has_false_not_In.
  reflexivity.
Qed.

Lemma seq_grow (j : nat) : 1 <= j -> seq 1 (Nat.max 1 j) ++ [S j] = seq 1 (S j).
Proof.
  intros H. rewrite Nat.max_r by assumption. rewrite (seq_S j 1). reflexivity.
Qed.

(** The pages navigated to once page [S j] has been entered. *)
Lemma navigated_entering (j : nat) (this : Scraper) :
  navigated this = seq 1 (Nat.max 1 j) ->
  navigated (if 1 <? S j then navigate this (S j) else this) = seq 1 (S j).
Proof.
  intros H. destruct j as [|j].
  - exact H.
  - change (1 <? S (S j)) with true. cbv iota. simpl navigated.
    rewrite H. apply seq_grow. lia.
Qed.

Lemma goto_entering (j : nat) :
  (1 < S j -> goto w (S j) = None) ->
  (if 1 <? S j then goto w (S j) else None) = None.
Proof.
  intros H. destruct (1 <? S j) eqn:E; [|reflexivity].
  apply H. apply Nat.ltb_lt. assumption.
Qed.

(** A productive page is merged and the counter moves on. *)
Lemma loopBody_productive (j : nat) (this : Scraper) :
  atPage w cfg j this -> productive w (S j) ->
  exists this', loopBody w this (S j) = (this', S (S j), true)
                /\ atPage w cfg (S j) this'.
Proof.
  intros (Hcfg & Hcs & Hnav & Herr & Hcur & Hproc) [[Hgoto [page Hpage]] Hnew].
  replace (S j - 1) with j in Hnew by lia.
  unfold pageRecords in Hnew. rewrite Hpage in Hnew.
  unfold loopBody. rewrite (goto_entering j Hgoto), Hpage.
  set (entered := if 1 <? S j then navigate this (S j) else this).
  assert (Hecs : companies entered = companies this)
    by (subst entered; destruct (1 <? S j); reflexivity).
  assert (Hepr : progress entered = progress this)
    by (subst entered; destruct (1 <? S j); reflexivity).
  assert (Hecf : config entered = config this)
    by (subst entered; destruct (1 <? S j); reflexivity).
  assert (Henav : navigated entered = seq 1 (S j))
    by (apply navigated_entering; assumption).
  rewrite Hecs, Hcs.
  set (pageCompanies := extractCompaniesFromCurrentPage (getFullYear w) page) in *.
  destruct (newCompaniesOf (accumulated w j) pageCompanies) as [|n ns] eqn:En;
    [congruence|].
  destruct pageCompanies as [|p ps] eqn:Ep; [discriminate|].
  change (length (p :: ps) =? 0) with false.
  change (length (n :: ns) =? 0) with false. cbv iota.
  eexists. split; [reflexivity|].
  unfold atPage. simpl. rewrite Hecf, Hecs, Hepr, Hcs, Herr, Hcur, Hproc, Henav.
  unfold pageRecords. rewrite Hpage. fold pageCompanies. rewrite Ep, En.
  rewrite length_app. repeat split; try assumption.
Qed.

(** A barren or failing page clears the flag and leaves the counter. *)
Lemma loopBody_stops (j : nat) (this : Scraper) :
  atPage w cfg j this -> stops w (S j) ->
  exists this', loopBody w this (S j) = (this', S j, false)
                /\ stoppedAt w cfg j this'.
Proof.
  intros (Hcfg & Hcs & Hnav & Herr & Hcur & Hproc) Hstop.
  set (entered := if 1 <? S j then navigate this (S j) else this).
  assert (Hecs : companies entered = companies this)
    by (subst entered; destruct (1 <? S j); reflexivity).
  assert (Hepr : progress entered = progress this)
    by (subst entered; destruct (1 <? S j); reflexivity).
  assert (Hecf : config entered = config this)
    by (subst entered; destruct (1 <? S j); reflexivity).
  assert (Henav : navigated entered = seq 1 (S j))
    by (apply navigated_entering; assumption).
  assert (Hst : stoppedAt w cfg j entered).
  { unfold stoppedAt. rewrite Hecf, Hecs, Hepr. repeat split; assumption. }
  exists entered. split; [|exact Hst].
  unfold loopBody. fold entered.
  destruct Hstop as [[[Hgoto [page Hpage]] Hbarren] | [e [[Hlt Hgoto] | [Hgoto Hcontent]]]].
  - rewrite (goto_entering j Hgoto), Hpage.
    replace (S j - 1) with j in Hbarren by lia.
    unfold pageRecords in Hbarren. rewrite Hpage in Hbarren.
    destruct Hbarren as [Hnone | Hknown].
    + rewrite Hnone. reflexivity.
    + rewrite Hecs, Hcs, (newCompaniesOf_known _ _ Hknown).
      destruct (length _ =? 0); reflexivity.
  - apply Nat.ltb_lt in Hlt. rewrite Hlt, Hgoto. reflexivity.
  - rewrite (goto_entering j Hgoto), Hcontent. reflexivity.
Qed.

Lemma whileLoop_flag_clear (fuel : nat) (this : Scraper) (page : nat) :
  whileLoop fuel w this page false = (this, page, false).
Proof. destruct fuel; reflexivity. Qed.

(** With pages productive up to the one that stops, the loop ends on it. *)
Lemma whileLoop_reaches_stop (d : nat) :
  forall j this fuel,
    atPage w cfg j this ->
    (forall i, j < i < S j + d -> productive w i) ->
    stops w (S j + d) ->
    S j + d <= maxPages cfg ->
    d < fuel ->
    exists final, whileLoop fuel w this (S j) true = (final, S j + d, false)
                  /\ stoppedAt w cfg (j + d) final.
Proof.
  induction d as [|d IH]; intros j this fuel Hat Hprod Hstop Hmax Hfuel;
    (destruct fuel as [|fuel]; [lia|]);
    cbn [whileLoop];
    (replace (S j <=? maxPages (config this)) with true
      by (symmetry; apply Nat.leb_le; destruct Hat as [-> _]; lia));
    cbn [andb].
  - replace (S j + 0) with (S j) in * by lia. replace (j + 0) with j by lia.
    destruct (loopBody_stops j this Hat Hstop) as [this' [-> Hst]].
    exists this'. split; [apply whileLoop_flag_clear | exact Hst].
  - destruct (loopBody_productive j this Hat) as [this' [-> Hat']];
      [apply Hprod; lia|].
    destruct (IH (S j) this' fuel Hat') as [final [Hrun Hst]].
    + intros i Hi. apply Hprod. lia.
    + replace (S (S j) + d) with (S j + S d) by lia. exact Hstop.
    + lia.
    + lia.
    + exists final. replace (S j + S d) with (S (S j) + d) by lia.
      replace (j + S d) with (S j + d) by lia. split; assumption.
Qed.

(** With every page productive, the loop ends past the last allowed page. *)
Lemma whileLoop_to_ceiling (d : nat) :
  forall j this fuel,
    atPage w cfg j this ->
    (forall i, j < i <= j + d -> productive w i) ->
    j + d = maxPages cfg ->
    d <= fuel ->
    exists final, whileLoop fuel w this (S j) true = (final, S (j + d), true)
                  /\ atPage w cfg (j + d) final.
Proof.
  induction d as [|d IH]; intros j this fuel Hat Hprod Hmax Hfuel.
  - replace (j + 0) with j in * by lia. exists this. split; [|exact Hat].
    destruct fuel as [|fuel]; [reflexivity|]. cbn [whileLoop].
    replace (S j <=? maxPages (config this)) with false; [reflexivity|].
    symmetry. apply Nat.leb_gt. destruct Hat as [-> _]. lia.
  - destruct fuel as [|fuel]; [lia|]. cbn [whileLoop].
    replace (S j <=? maxPages (config this)) with true
      by (symmetry; apply Nat.leb_le; destruct Hat as [-> _]; lia).
    cbn [andb].
    destruct (loopBody_productive j this Hat) as [this' [-> Hat']];
      [apply Hprod; lia|].
    destruct (IH (S j) this' fuel Hat') as [final [Hrun Hfin]].
    + intros i Hi. apply Hprod. lia.
    + lia.
    + lia.
    + exists final. replace (j + S d) with (S j + d) by lia. split; assumption.
Qed.

(** Whatever the page does, a turn of the loop leaves the configuration,
    [progress.currentPage] and [progress.errors] alone, and either clears the
    flag on the same page or keeps it and moves to the next page. *)
Lemma loopBody_frame (this : Scraper) (page : nat) :
  let r := loopBody w this page in
  config (fst (fst r)) = config this
  /\ currentPage (progress (fst (fst r))) = currentPage (progress this)
  /\ errors (progress (fst (fst r))) = errors (progress this)
  /\ ((snd r = false /\ snd (fst r) = page)
      \/ (snd r = true /\ snd (fst r) = S page)).
Proof.
  cbv zeta. unfold loopBody.
  destruct (1 <? page);
    [destruct (goto w page); [simpl; tauto|]|];
    (destruct (content w page) as [e | doc]; [simpl; tauto|]);
    (destruct (length (extractCompaniesFromCurrentPage (getFullYear w) doc) =? 0);
       [simpl; tauto|]);
    (destruct (length (newCompaniesOf _ _) =? 0); simpl; tauto).
Qed.

Lemma whileLoop_frame (fuel : nat) :
  forall this page flag,
    let r := whileLoop fuel w this page flag in
    config (fst (fst r)) = config this
    /\ currentPage (progress (fst (fst r))) = currentPage (progress this)
    /\ errors (progress (fst (fst r))) = errors (progress this).
Proof.
  induction fuel as [|fuel IH]; intros this page flag; cbv zeta.
  - simpl. tauto.
  - cbn [whileLoop].
    destruct (flag && (page <=? maxPages (config this))); [|simpl; tauto].
    pose proof (loopBody_frame this page) as F. cbv zeta in F.
    destruct (loopBody w this page) as [[this' page'] flag'].
    simpl in F. destruct F as (F1 & F2 & F3 & _).
    destruct (IH this' page' flag') as (I1 & I2 & I3).
    rewrite I1, I2, I3, F1, F2, F3. tauto.
Qed.

(** The fuel [extractCompanyData] gives the loop is never used up: the loop
    ends because its condition fails. *)
Lemma whileLoop_exits (fuel : nat) :
  forall this page flag,
    maxPages (config this) < page + fuel ->
    let r := whileLoop fuel w this page flag in
    snd r = false \/ maxPages (config this) < snd (fst r).
Proof.
  induction fuel as [|fuel IH]; intros this page flag Hfuel; cbv zeta.
  - simpl. right. lia.
  - cbn [whileLoop].
    destruct flag; cbn [andb]; [|left; reflexivity].
    destruct (page <=? maxPages (config this)) eqn:E;
      [|right; apply Nat.leb_gt in E; exact E].
    pose proof (loopBody_frame this page) as F. cbv zeta in F.
    destruct (loopBody w this page) as [[this' page'] flag'].
    simpl in F. destruct F as (F1 & _ & _ & [[-> ->] | [-> ->]]).
    + rewrite whileLoop_flag_clear. left. reflexivity.
    + rewrite <- F1. apply IH. rewrite F1. lia.
Qed.

End LoopFacts.

(** ** A whole run *)

Section RunFacts.

Variable w : World.
Variable cfg : ScrapingConfig.

(** A loop of [writeJsonFile] calls only appends to the log of writes. *)
Lemma fold_writes (X : Type) (path : ScrapingConfig -> X -> jsstring)
      (blob : X -> Blob) (l : list X) :
  forall this,
    let r := fold_left (fun this x => writeJsonFile this (path (config this) x) (blob x))
                       l this in
    config r = config this
    /\ companies r = companies this
    /\ progress r = progress this
    /\ navigated r = navigated this
    /\ written r = written this ++ map (fun x => (path (config this) x, blob x)) l.
Proof.
  induction l as [|x l IH]; intros this; cbv zeta.
  - simpl. rewrite app_nil_r. repeat split.
  - cbn [fold_left map].
    destruct (IH (writeJsonFile this (path (config this) x) (blob x)))
      as (H1 & H2 & H3 & H4 & H5).
    rewrite H1, H2, H3, H4, H5. simpl. rewrite <- app_assoc. repeat split.
Qed.

Lemma scraper_ext (a b : Scraper) :
  config a = config b -> companies a = companies b -> progress a = progress b ->
  written a = written b -> navigated a = navigated b -> a = b.
Proof.
  destruct a, b. simpl. intros -> -> -> -> ->. reflexivity.
Qed.

Lemma fresh_at_first_page : atPage w cfg 0 (navigate (newScraper cfg) 1).
Proof. repeat split. Qed.

Lemma afterLoop_unfold :
  afterLoop w cfg
  = setTotal (fst (fst (whileLoop (maxPages cfg) w (navigate (newScraper cfg) 1) 1 true)))
  /\ pageAfterLoop w cfg
     = snd (fst (whileLoop (maxPages cfg) w (navigate (newScraper cfg) 1) 1 true)).
Proof.
  unfold afterLoop, pageAfterLoop, extractCompanyData.
  change (maxPages (config (navigate (newScraper cfg) 1))) with (maxPages cfg).
  destruct (whileLoop (maxPages cfg) w (navigate (newScraper cfg) 1) 1 true)
    as [[final page] flag].
  split; reflexivity.
Qed.

(** The loop of a run that meets its first stopping page at [k]. *)
Lemma loop_stops (k : nat) :
  1 <= k <= maxPages cfg ->
  (forall i, 1 <= i < k -> productive w i) ->
  stops w k ->
  pageAfterLoop w cfg = k
  /\ stoppedAt w cfg (k - 1) (afterLoop w cfg)
  /\ totalCompanies (progress (afterLoop w cfg)) = length (accumulated w (k - 1)).
Proof.
  intros Hk Hprod Hstop.
  destruct (whileLoop_reaches_stop w cfg (k - 1) 0 (navigate (newScraper cfg) 1)
              (maxPages cfg) fresh_at_first_page) as [final [Hrun Hst]].
  - intros i Hi. apply Hprod. lia.
  - replace (1 + (k - 1)) with k by lia. exact Hstop.
  - lia.
  - lia.
  - replace (1 + (k - 1)) with k in Hrun by lia.
    replace (0 + (k - 1)) with (k - 1) in Hst by lia.
    destruct afterLoop_unfold as [-> ->]. rewrite Hrun. cbn [fst snd].
    destruct Hst as (Hcfg & Hcs & Hnav & Herr & Hcur & Hproc).
    split; [reflexivity|]. split.
    + repeat split; assumption.
    + simpl. rewrite Hcs. reflexivity.
Qed.

(** The loop of a run that is never stopped. *)
Lemma loop_to_ceiling :
  (forall i, 1 <= i <= maxPages cfg -> productive w i) ->
  pageAfterLoop w cfg = S (maxPages cfg)
  /\ atPage w cfg (maxPages cfg) (afterLoop w cfg).
Proof.
  intros Hprod.
  destruct (whileLoop_to_ceiling w cfg (maxPages cfg) 0 (navigate (newScraper cfg) 1)
              (maxPages cfg) fresh_at_first_page) as [final [Hrun Hat]].
  - intros i Hi. apply Hprod. lia.
  - lia.
  - lia.
  - simpl in Hrun, Hat.
    destruct afterLoop_unfold as [-> ->]. rewrite Hrun. cbn [fst snd].
    destruct Hat as (Hcfg & Hcs & Hnav & Herr & Hcur & Hproc).
    split; [reflexivity|]. repeat split; assumption.
Qed.

(** The loop never appends to [progress.errors] nor assigns
    [progress.currentPage]. *)
Lemma afterLoop_frame :
  config (afterLoop w cfg) = cfg
  /\ currentPage (progress (afterLoop w cfg)) = 0
  /\ errors (progress (afterLoop w cfg)) = [].
Proof.
  rewrite (proj1 afterLoop_unfold).
  pose proof (whileLoop_frame w (maxPages cfg) (navigate (newScraper cfg) 1) 1 true) as F.
  cbv zeta in F. exact F.
Qed.

Section Objects.

Variable inherits : jsstring -> bool.
Variable typeError : jsstring.

(** The three kinds of writes before the sector step. *)
Lemma generateOutputFiles_prefix (this : Scraper) :
  exists before,
    generateOutputFiles inherits typeError this
    = generateSectorFiles inherits typeError before
    /\ config before = config this
    /\ companies before = companies this
    /\ progress before = progress this
    /\ navigated before = navigated this
    /\ written before
       = written this
         ++ aggregateFile (config this) (companies this)
         :: (js "./meta.json", JsonStats (companies this))
         :: map (companyFile (config this)) (companies this).
Proof.
  unfold generateOutputFiles, allJson.
  set (this1 := writeJsonFile this _ _).
  set (this2 := writeJsonFile this1 _ _).
  pose proof (fold_writes AntlerCompany
                (fun c company => outputDir c ++ js "/" ++ slug company ++ js ".json")
                JsonCompany (companies this2) this2) as A.
  cbv beta zeta in A.
  set (this3 := fold_left _ (companies this2) this2) in *.
  destruct A as (A1 & A2 & A3 & A4 & A5).
  exists this3. split; [reflexivity|].
  split; [exact A1|]. split; [exact A2|]. split; [exact A3|]. split; [exact A4|].
  rewrite A5. subst this2 this1. simpl.
  rewrite <- !app_assoc. simpl. reflexivity.
Qed.

(** The sector step ends normally or throws [typeError]; either way it only
    appends to the log of writes. *)
Lemma generateSectorFiles_effect (this : Scraper) :
  exists after sectorFiles,
    (generateSectorFiles inherits typeError this = Normal after
     \/ generateSectorFiles inherits typeError this = Throws typeError after)
    /\ config after = config this
    /\ companies after = companies this
    /\ progress after = progress this
    /\ navigated after = navigated this
    /\ written after = written this ++ sectorFiles.
Proof.
  unfold generateSectorFiles.
  destruct (sectorGroups inherits (companies this)) as [groups|].
  - pose proof (fold_writes (list ascii * list AntlerCompany)
                  (fun _ g => js "./industries/" ++ fst g ++ js ".json")
                  (fun g => JsonCompanies (snd g)) (entries groups) this) as B.
    cbv beta zeta in B. destruct B as (B1 & B2 & B3 & B4 & B5).
    eexists. eexists. split; [left; reflexivity|].
    split; [exact B1|]. split; [exact B2|]. split; [exact B3|]. split; [exact B4|].
    exact B5.
  - exists this, []. split; [right; reflexivity|].
    rewrite app_nil_r. repeat split.
Qed.

(** What a run whose first page loads leaves behind, whichever way it ends:
    the scraper of the loop with files written, and either a resolved
    promise and the error log of the loop, or a rejected one and the error
    appended. *)
Lemma scrapePortfolio_effect :
  goto w 1 = None ->
  let loaded := afterLoop w cfg in
  let r := scrapePortfolio inherits typeError w (newScraper cfg) in
  finalPage r = pageAfterLoop w cfg
  /\ config (finalScraper r) = config loaded
  /\ companies (finalScraper r) = companies loaded
  /\ navigated (finalScraper r) = navigated loaded
  /\ totalCompanies (progress (finalScraper r)) = totalCompanies (progress loaded)
  /\ processedCompanies (progress (finalScraper r)) = processedCompanies (progress loaded)
  /\ currentPage (progress (finalScraper r)) = currentPage (progress loaded)
  /\ (exists sectorFiles,
        written (finalScraper r)
        = written loaded
          ++ aggregateFile (config loaded) (companies loaded)
          :: (js "./meta.json", JsonStats (companies loaded))
          :: map (companyFile (config loaded)) (companies loaded)
          ++ sectorFiles)
  /\ ((outcome r = Resolved
       /\ errors (progress (finalScraper r)) = errors (progress loaded))
      \/ (outcome r = Rejected typeError
          /\ errors (progress (finalScraper r))
             = errors (progress loaded) ++ [js "Scraping error: " ++ typeError])).
Proof.
  intros Hgoto. cbv zeta. unfold scrapePortfolio, afterLoop, pageAfterLoop.
  rewrite Hgoto.
  destruct (extractCompanyData w (navigate (newScraper cfg) 1)) as [loaded page].
  cbn [fst snd].
  destruct (generateOutputFiles_prefix loaded) as (before & E & B1 & B2 & B3 & B4 & B5).
  rewrite E.
  destruct (generateSectorFiles_effect before)
    as (after & sectorFiles & Hend & S1 & S2 & S3 & S4 & S5).
  assert (W : written after
              = written loaded
                ++ aggregateFile (config loaded) (companies loaded)
                :: (js "./meta.json", JsonStats (companies loaded))
                :: map (companyFile (config loaded)) (companies loaded)
                ++ sectorFiles).
  { rewrite S5, B5, <- app_assoc. reflexivity. }
  destruct Hend as [-> | ->]; unfold finalPage, finalScraper, outcome; cbn [fst snd].
  - rewrite S1, S2, S3, S4, B1, B2, B3, B4.
    repeat split; try reflexivity; [exists sectorFiles; exact W | left; split; reflexivity].
  - simpl. rewrite S1, S2, S3, S4, B1, B2, B3, B4.
    repeat split; try reflexivity; [exists sectorFiles; exact W | right; split; reflexivity].
Qed.

End Objects.

Lemma run_stops (k : nat) :
  goto w 1 = None ->
  1 <= k <= maxPages cfg ->
  (forall i, 1 <= i < k -> productive w i) ->
  stops w k ->
  stoppedRun w cfg k (run w cfg).
Proof.
  intros Hgoto Hk Hprod Hstop.
  destruct (loop_stops k Hk Hprod Hstop) as (Hpage & Hst & Htot).
  destruct Hst as (Hcfg & Hcs & Hnav & Herr & Hcur & Hproc).
  pose proof (scrapePortfolio_effect standardInherits pushTypeError Hgoto) as E.
  cbv zeta in E. fold (run w cfg) in E.
  destruct E as (E1 & E2 & E3 & E4 & E5 & E6 & E7 & [sectorFiles E8] & _).
  unfold stoppedRun.
  rewrite E1, E3, E4, E5, E6, E7, E8, Hpage, Hcfg, Hcs, Hnav, Hcur, Hproc, Htot.
  replace (S (k - 1)) with k by lia.
  split; [reflexivity|]. split; [reflexivity|]. split; [reflexivity|].
  split; [reflexivity|]. split; [reflexivity|]. split; [reflexivity|]. split.
  - apply in_or_app. right. left. reflexivity.
  - intros c Hc. apply in_or_app. right. right. right.
    apply in_or_app. left. apply in_map. assumption.
Qed.

(** What a run that is never stopped leaves behind. *)
Lemma run_to_ceiling :
  goto w 1 = None ->
  (forall i, 1 <= i <= maxPages cfg -> productive w i) ->
  finalPage (run w cfg) = S (maxPages cfg)
  /\ navigated (finalScraper (run w cfg)) = seq 1 (Nat.max 1 (maxPages cfg))
  /\ companies (finalScraper (run w cfg)) = accumulated w (maxPages cfg).
Proof.
  intros Hgoto Hprod.
  destruct (loop_to_ceiling Hprod) as (Hpage & Hat).
  destruct Hat as (Hcfg & Hcs & Hnav & Herr & Hcur & Hproc).
  pose proof (scrapePortfolio_effect standardInherits pushTypeError Hgoto) as E.
  cbv zeta in E. fold (run w cfg) in E.
  destruct E as (E1 & _ & E3 & E4 & _).
  rewrite E1, E3, E4, Hpage, Hcs, Hnav. repeat split.
Qed.

Lemma run_unreachable (e : jsstring) :
  goto w 1 = Some e ->
  run w cfg
  = ({| config := cfg; companies := [];
        progress := {| totalCompanies := 0; processedCompanies := 0;
                       currentPage := 0;
                       errors := [js "Scraping error: " ++ e] |};
        written := []; navigated := [1] |}, 1, Rejected e).
Proof. intros H. unfold run, scrapePortfolio. rewrite H. reflexivity. Qed.

(** No run assigns [progress.currentPage]; a run whose first navigation
    succeeds resolves with an empty [progress.errors], whatever its pages
    do, unless the sector step throws. *)
Lemma run_frame :
  goto w 1 = None ->
  currentPage (progress (finalScraper (run w cfg))) = 0
  /\ ((outcome (run w cfg) = Resolved
       /\ errors (progress (finalScraper (run w cfg))) = [])
      \/ (outcome (run w cfg) = Rejected pushTypeError
          /\ errors (progress (finalScraper (run w cfg)))
             = [js "Scraping error: " ++ pushTypeError])).
Proof.
  intros Hgoto.
  pose proof (scrapePortfolio_effect standardInherits pushTypeError Hgoto) as E.
  cbv zeta in E. fold (run w cfg) in E.
  destruct E as (_ & _ & _ & _ & _ & _ & E7 & _ & E9).
  destruct afterLoop_frame as (_ & F2 & F3).
  rewrite F3 in E9. rewrite E7, F2. split; [reflexivity | exact E9].
Qed.

Lemma extractCompanyData_fuel_suffices (this : Scraper) :
  let r := whileLoop (maxPages (config this)) w this 1 true in
  snd r = false \/ maxPages (config this) < snd (fst r).
Proof. apply whileLoop_exits. lia. Qed.

End RunFacts.

(** ** Merging a page *)

Section MergeFacts.

(** The records kept from a page are those whose slug the accumulated set
    does not have, in page order, and the counter grows by their number. *)
Lemma merge_appends_new (this : Scraper) (pageCompanies : list AntlerCompany) :
  let newCompanies := newCompaniesOf (companies this) pageCompanies in
  companies (pushCompanies this newCompanies) = companies this ++ newCompanies
  /\ processedCompanies (progress (pushCompanies this newCompanies))
     = processedCompanies (progress this) + length newCompanies
  /\ newCompanies
     = filter (fun c => negb (has (map slug (companies this)) (slug c))) pageCompanies
  /\ (forall c, In c pageCompanies ->
        In (slug c) (map slug (companies this)) -> ~ In c newCompanies)
  /\ length newCompanies
     + length (filter (fun c => has (map slug (companies this)) (slug c)) pageCompanies)
     = length pageCompanies.
Proof.
  cbv zeta. repeat split.
  - intros c _ Hknown Hnew. apply newCompaniesOf_unknown in Hnew. tauto.
  - unfold newCompaniesOf. cbv zeta. rewrite Nat.add_comm. apply filter_length.
Qed.

(** Slugs stay distinct when those of the page itself are. *)
Lemma merge_keeps_slugs_distinct (existing pageCompanies : list AntlerCompany) :
  NoDup (map slug existing) ->
  NoDup (map slug pageCompanies) ->
  NoDup (map slug (existing ++ newCompaniesOf existing pageCompanies)).
Proof.
  intros Hex Hpage. rewrite map_app.
  assert (Hnew : NoDup (map slug (newCompaniesOf existing pageCompanies))).
  { unfold newCompaniesOf. cbv zeta.
    induction pageCompanies as [|c l IH]; simpl; [constructor|].
    inversion Hpage as [|? ? Hnotin Hrest]; subst.
    destruct (negb (has (map slug existing) (slug c))); [|apply IH; assumption].
    simpl. constructor; [|apply IH; assumption].
    intros Hin. apply Hnotin. apply in_map_iff in Hin as [d [Hd Hin]].
    apply filter_In in Hin as [Hin _]. apply in_map_iff. exists d; tauto. }
  revert Hnew. generalize (newCompaniesOf_unknown existing pageCompanies).
  generalize (newCompaniesOf existing pageCompanies) as new. intros new Hspec Hnew.
  induction existing as [|e ex IH]; [exact Hnew|].
  simpl. inversion Hex as [|? ? Hnotin Hrest]; subst. constructor.
  - intros Hin. apply in_app_or in Hin as [Hin | Hin]; [exact (Hnotin Hin)|].
    apply in_map_iff in Hin as [d [Hd Hin]]. apply Hspec in Hin as [_ Hin].
    apply Hin. left. symmetry. assumption.
  - clear IH. induction ex as [|x ex IHex].
    + exact Hnew.
    + apply NoDup_app.
      * assumption.
      * assumption.
      * intros s Hs Hn. apply in_map_iff in Hn as [d [Hd Hin]].
        apply Hspec in Hin as [_ Hin]. apply Hin. right. rewrite Hd. assumption.
Qed.

End MergeFacts.

(** ** The code at particular inputs *)

Import Examples.

(** C1, at a page with two links to different sites whose names give one
    slug: both records are appended, and the accumulated set holds the slug
    twice. *)
Theorem same_page_slug_twins :
  let final := finalScraper (run twinsSite defaultConfig) in
  map Types.website (companies final)
    = [js "https://acme-corp.example"; js "https://acmecorp.example"]
  /\ map name (companies final) = [js "Acme Corp"; js "Acme-Corp"]
  /\ map slug (companies final) = [js "acme-corp"; js "acme-corp"]
  /\ ~ NoDup (map slug (companies final))
  /\ processedCompanies (progress final) = 2.
Proof.
  cbv zeta.
  assert (E : map slug (companies (finalScraper (run twinsSite defaultConfig)))
              = [js "acme-corp"; js "acme-corp"]) by (vm_compute; reflexivity).
  repeat split; try (vm_compute; reflexivity).
  rewrite E. intros Hnd. inversion Hnd as [|? ? Hnotin _]; subst.
  apply Hnotin. left. reflexivity.
Qed.

(** C4, at a link around an image whose [alt] is two spaces: a record is
    built and its name is the empty string. *)
Theorem blank_alt_gives_empty_name :
  exists c,
    extractCompanyFromElement 2025 (linkAround "https://nimbus.example" (altCard "  "))
      = Some c
    /\ name c = []
    /\ length (name c) < 2
    /\ id c = js "antler-".
Proof.
  eexists. split; [vm_compute; reflexivity|]. repeat split. simpl. lia.
Qed.

(** C9, at a link around an image whose [alt] is "Nimbus" and a space: the
    record is named "Nimbus" and its description has two spaces after the
    name, so it is not the sentence made from the record's name. *)
Theorem padded_alt_description :
  exists c,
    extractCompanyFromElement 2025 (linkAround "https://nimbus.example" (altCard "Nimbus "))
      = Some c
    /\ extractDescription (altCard "Nimbus ") = []
    /\ name c = js "Nimbus"
    /\ description c = js "Nimbus  is a portfolio company of Antler."
    /\ description c <> synthesized (name c).
Proof.
  eexists. split; [vm_compute; reflexivity|]. repeat split. discriminate.
Qed.

(** Example 2 of the specification: a card that offers a heading and no
    description. *)
Lemma nimbus_description :
  option_map description
    (extractCompanyFromElement 2025
       (linkIn "https://nimbus.example" (headedCard "Nimbus")))
  = Some (js "Nimbus is a portfolio company of Antler.").
Proof. vm_compute. reflexivity. Qed.

(** ** The theorems at concrete inputs *)

Lemma createSlug_witness :
  js "Acme Corp!" = js "Acme Corp!"
  /\ createSlug (js "Acme Corp!") = createSlug (js "Acme Corp!").
Proof.
  split; [reflexivity|].
  apply (proj1 createSlug_collapses_runs). reflexivity.
Defined.

(** A card whose single placeholder link reads "Australia", a country of the
    gazetteer and a capitalised word. *)
Lemma location_first_witness :
  isLocationText (js "Australia") = true
  /\ isSectorText (js "Australia") = true
  /\ exists c,
       extractCompanyFromElement 2025
         (linkIn "https://nimbus.example"
                 (fullCard "Nimbus" "<img src=x>2021" ["Australia"]%string)) = Some c
       /\ location c = js "Australia"
       /\ sector c = js "Unknown".
Proof.
  split; [reflexivity|]. split; [reflexivity|].
  eexists. split; [vm_compute; reflexivity|].
  destruct (proj1 location_first_priority 2025%Z
              (linkIn "https://nimbus.example"
                      (fullCard "Nimbus" "<img src=x>2021" ["Australia"]%string))
              _ (js "Australia") eq_refl eq_refl eq_refl eq_refl)
    as (_ & _ & Hl & Hs).
  split; [exact Hl | exact Hs].
Defined.

Lemma founded_year_witness :
  exists c,
    extractCompanyFromElement 2025
      (linkIn "https://nimbus.example"
              (fullCard "Nimbus" "<img src=x>2021" ["Singapore"; "FinTech"]%string))
      = Some c
    /\ founded_year c = 2021%Z
    /\ ImgBeforeYear (js "<img src=x>2021") 2021.
Proof.
  eexists. split; [vm_compute; reflexivity|]. split; [reflexivity|].
  apply (proj1 (founded_year_structural 2025%Z
                  (linkIn "https://nimbus.example"
                          (fullCard "Nimbus" "<img src=x>2021"
                                    ["Singapore"; "FinTech"]%string))
                  _ eq_refl)).
  discriminate.
Defined.

Lemma candidate_links_witness :
  let page := pageOf [linkIn "https://alpha.example" (headedCard "Alpha");
                      linkIn "https://alpha.example" (headedCard "Alpha again");
                      linkIn "https://www.linkedin.com/company/alpha" bareCard] in
  map websiteOf (processedElements (companyLinks page) []) = [js "https://alpha.example"]
  /\ forall el, In el (processedElements (companyLinks page) []) ->
                inside_portfolio el = true.
Proof.
  cbv zeta. split; [reflexivity|].
  apply (proj1 (proj2 (candidate_links_filtered _))).
  - simpl. lia.
  - eexists. split; [left; reflexivity|]. split; reflexivity.
Defined.

Lemma normalizeLocation_witness :
  endsInText (js "London") /\ isSeparator (js ", ") /\ isCountryToken (js "UK") = true
  /\ normalizeLocation (js "London, UK") = js "London".
Proof.
  assert (Hb : endsInText (js "London")).
  { right. exists (js "Londo"), "n"%char. repeat split. discriminate. }
  assert (Hs : isSeparator (js ", ")).
  { exists (js " "). split; [reflexivity | right; reflexivity]. }
  split; [exact Hb|]. split; [exact Hs|]. split; [reflexivity|].
  exact (proj1 normalizeLocation_country_only (js "London") (js ", ") (js "UK")
               Hb Hs eq_refl).
Defined.

(* ------------------------------------------------------------------ *)
(** * Further facts on utils.ts *)

Section SlugFurther.

Lemma lower_slug_fixed (c : ascii) : isSlugChar c = true -> lowerChar c = c.
Proof. every_char c. Qed.

Lemma lowerChar_idem (c : ascii) : lowerChar (lowerChar c) = lowerChar c.
Proof. every_char c. Qed.

Lemma toLowerCase_idem (s : jsstring) : toLowerCase (toLowerCase s) = toLowerCase s.
Proof.
  unfold toLowerCase. rewrite map_map. apply map_ext. apply lowerChar_idem.
Qed.

Lemma wellFormed_lower (s : jsstring) :
  forall p, wellFormedSlug p s = true -> toLowerCase s = s.
Proof.
  induction s as [|c s IH]; intros p H; [reflexivity|].
  simpl in H. simpl. destruct (Ascii.eqb c dash) eqn:E.
  - apply Ascii.eqb_eq in E. subst c.
    apply andb_true_iff in H as [_ H]. rewrite (IH _ H). reflexivity.
  - apply andb_true_iff in H as [Hc H].
    rewrite (IH _ H), (lower_slug_fixed c Hc). reflexivity.
Qed.

Lemma wellFormed_replaceRuns (s : jsstring) :
  forall p, wellFormedSlug p s = true -> replaceRuns p s = s.
Proof.
  induction s as [|c s IH]; intros p H; [reflexivity|].
  simpl in H. simpl. destruct (Ascii.eqb c dash) eqn:E.
  - apply Ascii.eqb_eq in E. subst c. rewrite dash_not_slug.
    apply andb_true_iff in H as [Hp H]. apply negb_true_iff in Hp. subst p.
    rewrite (IH _ H). reflexivity.
  - apply andb_true_iff in H as [Hc H]. rewrite Hc, (IH _ H). reflexivity.
Qed.

Lemma wellFormed_head (s : jsstring) :
  wellFormedSlug true s = true ->
  exists c s', s = c :: s' /\ isSlugChar c = true /\ wellFormedSlug false s' = true.
Proof.
  destruct s as [|c s']; [discriminate|]. simpl.
  destruct (Ascii.eqb c dash); [discriminate|].
  intros H. apply andb_true_iff in H as [Hc H]. exists c, s'. auto.
Qed.

Lemma wellFormed_no_final_dash (s : jsstring) :
  forall p, wellFormedSlug p s = true -> dropFinalDash s = s.
Proof.
  induction s as [|c s IH]; intros p H; [reflexivity|].
  destruct s as [|d s].
  - simpl in H. simpl. destruct (Ascii.eqb c dash); [|reflexivity].
    rewrite andb_false_r in H. discriminate.
  - change (dropFinalDash (c :: d :: s)) with (c :: dropFinalDash (d :: s)).
    f_equal.
    change (wellFormedSlug p (c :: d :: s))
      with (if Ascii.eqb c dash then negb p && wellFormedSlug true (d :: s)
            else isSlugChar c && wellFormedSlug false (d :: s)) in H.
    destruct (Ascii.eqb c dash);
      apply andb_true_iff in H as [_ H]; eapply IH; exact H.
Qed.

(** A well-formed slug is its own slug. *)
Lemma createSlug_fixed (s : jsstring) :
  wellFormedSlug true s = true -> createSlug s = s.
Proof.
  intros H. unfold createSlug. rewrite (wellFormed_lower s true H).
  destruct (wellFormed_head s H) as (c & s' & -> & Hc & Hs').
  simpl replaceRuns. rewrite Hc.
  rewrite (wellFormed_replaceRuns s' false Hs').
  unfold stripEdgeDashes. rewrite (slug_char_not_dash c Hc).
  apply (wellFormed_no_final_dash (c :: s') true). exact H.
Qed.

Lemma createSlug_shape (name : jsstring) :
  createSlug name = [] \/ wellFormedSlug true (createSlug name) = true.
Proof.
  unfold createSlug. rewrite slug_of_lowered.
  destruct (alnumRuns [] (toLowerCase name)) as [|w ws] eqn:E.
  - left; reflexivity.
  - right. apply wellFormed_join; [|discriminate].
    rewrite <- E. apply alnumRuns_words. reflexivity.
Qed.

Lemma alnumRuns_none (s cur : jsstring) :
  alnumRuns cur s = [] <->
  cur = [] /\ forallb (fun c => negb (isSlugChar c)) s = true.
Proof.
  revert cur; induction s as [|c s IH]; intros cur; simpl.
  - destruct cur; simpl; split; try tauto; try discriminate.
    intros [H _]. discriminate.
  - destruct (isSlugChar c) eqn:E; simpl.
    + rewrite IH. split.
      * intros [H _]. destruct cur; discriminate.
      * intros [_ H]. discriminate.
    + destruct cur as [|x cur]; simpl.
      * rewrite IH. tauto.
      * split; [discriminate | intros [H _]; discriminate].
Qed.

Lemma joinWithDash_none (ws : list jsstring) :
  Forall isWord ws -> joinWithDash ws = [] -> ws = [].
Proof.
  destruct ws as [|w ws]; [reflexivity|].
  intros H E. inversion H as [|? ? [Hne _] _]; subst.
  destruct w as [|x w]; [congruence|].
  destruct ws; simpl in E; discriminate.
Qed.

End SlugFurther.

(** X1.  [createSlug] is idempotent: the slug of a slug is that slug. *)
Theorem createSlug_idempotent (name : jsstring) :
  createSlug (createSlug name) = createSlug name.
Proof.
  destruct (createSlug_shape name) as [E | H].
  - rewrite E. reflexivity.
  - apply createSlug_fixed. exact H.
Qed.

(** X2.  The slug does not depend on white space around the name nor on the
    case of its letters. *)
Theorem createSlug_ignores_space_and_case (name : jsstring) :
  createSlug (trim name) = createSlug name
  /\ createSlug (toLowerCase name) = createSlug name.
Proof.
  split; [apply createSlug_trim|].
  unfold createSlug. rewrite toLowerCase_idem. reflexivity.
Qed.

(** X3.  The slug is the empty string exactly when the lower-cased name has
    no character of [a-z0-9]. *)
Theorem createSlug_empty_iff (name : jsstring) :
  createSlug name = [] <->
  forallb (fun c => negb (isSlugChar c)) (toLowerCase name) = true.
Proof.
  unfold createSlug. rewrite slug_of_lowered. split.
  - intros E. apply joinWithDash_none in E.
    + apply alnumRuns_none in E. tauto.
    + apply alnumRuns_words. reflexivity.
  - intros H.
    assert (E : alnumRuns [] (toLowerCase name) = [])
      by (apply alnumRuns_none; split; [reflexivity | exact H]).
    rewrite E. reflexivity.
Qed.

Section LocationFurther.

Lemma tails_self (s : jsstring) : In s (tails s).
Proof. destruct s; left; reflexivity. Qed.

Lemma tails_cons (c : ascii) (s t : jsstring) : In t (tails s) -> In t (tails (c :: s)).
Proof. intros H. right. exact H. Qed.

Lemma tails_dropWhile (p : ascii -> bool) (s : jsstring) :
  In (dropWhile p s) (tails s).
Proof.
  induction s as [|c s IH]; [left; reflexivity|].
  simpl dropWhile. destruct (p c).
  - apply tails_cons. exact IH.
  - apply tails_self.
Qed.

Lemma tails_trans (a b c : jsstring) :
  In a (tails b) -> In b (tails c) -> In a (tails c).
Proof.
  revert a b. induction c as [|x c IH]; intros a b Hab Hbc.
  - destruct Hbc as [<- | []]. exact Hab.
  - destruct Hbc as [<- | Hbc]; [exact Hab|].
    apply tails_cons. eapply IH; eassumption.
Qed.

Lemma tails_split (s t : jsstring) : In t (tails s) -> exists pre, s = pre ++ t.
Proof.
  induction s as [|c s IH]; intros H.
  - destruct H as [<- | []]. exists []. reflexivity.
  - destruct H as [<- | H]; [exists []; reflexivity|].
    destruct (IH H) as [pre ->]. exists (c :: pre). reflexivity.
Qed.

(** A match of the country pattern ends in one of its tokens. *)
Lemma match_has_token (t : jsstring) :
  matchesCountrySuffix t = true ->
  exists tok, In tok (tails t) /\ isCountryToken tok = true.
Proof.
  unfold matchesCountrySuffix. intros H.
  eexists. split; [|exact H].
  destruct t as [|c r]; [apply tails_dropWhile|].
  destruct (Ascii.eqb c ","%char).
  - apply tails_cons. apply tails_dropWhile.
  - apply tails_dropWhile.
Qed.

Lemma no_token_no_strip (s : jsstring) :
  (forall tok, In tok (tails s) -> isCountryToken tok = false) ->
  stripCountrySuffix s = s.
Proof.
  induction s as [|c s IH]; intros H.
  - reflexivity.
  - rewrite stripCountrySuffix_unfold.
    destruct (matchesCountrySuffix (c :: s)) eqn:E.
    + destruct (match_has_token _ E) as [tok [Hin Htok]].
      rewrite (H tok Hin) in Htok. discriminate.
    + f_equal. apply IH. intros tok Hin. apply H. apply tails_cons. exact Hin.
Qed.

End LocationFurther.

(** X4.  The result of [normalizeLocation] has no white space at either end;
    and a location none of whose endings is UK, USA or US in any letter case
    is returned trimmed and otherwise unchanged. *)
Theorem normalizeLocation_without_token (location : jsstring) :
  trim (normalizeLocation location) = normalizeLocation location
  /\ (forallb (fun t => negb (isCountryToken t)) (tails location) = true ->
      normalizeLocation location = trim location).
Proof.
  split; [apply trim_idem|].
  intros H. unfold normalizeLocation. rewrite no_token_no_strip; [reflexivity|].
  intros tok Hin. rewrite forallb_forall in H.
  apply negb_true_iff. apply H. exact Hin.
Qed.

Section YearFurther.

Lemma digit_value_range (c : ascii) :
  isDigit c = true -> (0 <= digitValue c <= 9)%Z.
Proof.
  unfold isDigit, inRange, digitValue. intros H.
  apply andb_true_iff in H as [H1 H2]. apply Nat.leb_le in H1, H2. lia.
Qed.

Lemma centuryYearAt_range (prev : bool) (s m : jsstring) :
  centuryYearAt prev s = Some m -> (1900 <= parseDigits m <= 2099)%Z.
Proof.
  unfold centuryYearAt.
  destruct s as [|a [|b [|c [|d rest]]]]; try discriminate.
  match goal with |- (if ?g then _ else _) = _ -> _ => destruct g eqn:G end;
    [|discriminate].
  intros H; injection H as <-.
  apply andb_true_iff in G as [G _].
  apply andb_true_iff in G as [G Hd].
  apply andb_true_iff in G as [G Hc].
  apply andb_true_iff in G as [_ G].
  pose proof (digit_value_range c Hc) as Rc.
  pose proof (digit_value_range d Hd) as Rd.
  unfold parseDigits. cbn [fold_left].
  apply orb_true_iff in G as [G | G];
    apply andb_true_iff in G as [Ha Hb];
    apply Ascii.eqb_eq in Ha, Hb; subst a b.
  - change (digitValue "1") with 1%Z. change (digitValue "9") with 9%Z. lia.
  - change (digitValue "2") with 2%Z. change (digitValue "0") with 0%Z. lia.
Qed.

Lemma yearMatch_range (text : jsstring) :
  forall prev m, yearMatch prev text = Some m -> (1900 <= parseDigits m <= 2099)%Z.
Proof.
  induction text as [|c text IH]; intros prev m H.
  - simpl in H. discriminate.
  - cbn [yearMatch] in H.
    destruct (centuryYearAt prev (c :: text)) as [t|] eqn:E.
    + injection H as <-. eapply centuryYearAt_range. exact E.
    + eapply IH. exact H.
Qed.

Lemma centuryYearAt_needs_digit (prev : bool) (s : jsstring) :
  forallb (fun c => negb (isDigit c)) s = true -> centuryYearAt prev s = None.
Proof.
  unfold centuryYearAt.
  destruct s as [|a [|b [|c [|d rest]]]]; try reflexivity.
  intros H. cbn [forallb] in H.
  apply andb_true_iff in H as [_ H]. apply andb_true_iff in H as [_ H].
  apply andb_true_iff in H as [Hc _]. apply negb_true_iff in Hc.
  rewrite Hc. rewrite !andb_false_r. reflexivity.
Qed.

Lemma yearMatch_needs_digit (text : jsstring) :
  forall prev, forallb (fun c => negb (isDigit c)) text = true ->
               yearMatch prev text = None.
Proof.
  induction text as [|c text IH]; intros prev H; [reflexivity|].
  cbn [yearMatch]. rewrite (centuryYearAt_needs_digit prev _ H).
  simpl in H. apply andb_true_iff in H as [_ H]. apply IH. exact H.
Qed.

End YearFurther.

(** X5.  [extractYear] returns a year from 1900 to 2099 or else the current
    year; a text without any digit gives the current year. *)
Theorem extractYear_range (getFullYear : Z) (text : jsstring) :
  ((1900 <= extractYear getFullYear text <= 2099)%Z
   \/ extractYear getFullYear text = getFullYear)
  /\ (forallb (fun c => negb (isDigit c)) text = true ->
      extractYear getFullYear text = getFullYear).
Proof.
  unfold extractYear. split.
  - destruct (yearMatch false text) as [m|] eqn:E; [left | right; reflexivity].
    eapply yearMatch_range. exact E.
  - intros H. rewrite (yearMatch_needs_digit text false H). reflexivity.
Qed.

Section CountryFurther.

Lemma countryMatch_unfold (s : jsstring) :
  countryMatch s =
  if isCountryName s then Some s
  else match s with
       | [] => None
       | _ :: rest => countryMatch rest
       end.
Proof. destruct s; reflexivity. Qed.

(** The match reaches at least as far left as any country name the location
    ends in. *)
Lemma countryMatch_covers (pre tok : jsstring) :
  isCountryName tok = true ->
  exists x, countryMatch (pre ++ tok) = Some (x ++ tok)
            /\ isCountryName (x ++ tok) = true.
Proof.
  intros Htok. induction pre as [|c pre [x [IH1 IH2]]].
  - exists []. simpl app. rewrite countryMatch_unfold, Htok. auto.
  - rewrite countryMatch_unfold.
    destruct (isCountryName ((c :: pre) ++ tok)) eqn:E.
    + exists (c :: pre). auto.
    + exists x. simpl app. auto.
Qed.

Lemma isCountryName_cases (t : jsstring) :
  isCountryName t = true ->
  toLowerCase t = js "uk" \/ toLowerCase t = js "usa" \/ toLowerCase t = js "us"
  \/ toLowerCase t = js "united states" \/ toLowerCase t = js "united kingdom".
Proof.
  unfold isCountryName, countryAlternatives. cbn [map existsb].
  rewrite orb_false_r, !orb_true_iff, !str_eqb_eq. tauto.
Qed.

Ltac ends_differently H :=
  apply (f_equal (@rev ascii)) in H; rewrite rev_app_distr in H;
  cbn in H; discriminate.

(** A country name that ends in a name of the United Kingdom is one. *)
Lemma longer_name_uk (x tok : jsstring) :
  isCountryName (x ++ tok) = true ->
  toLowerCase tok = js "uk" \/ toLowerCase tok = js "united kingdom" ->
  toLowerCase (x ++ tok) = js "uk" \/ toLowerCase (x ++ tok) = js "united kingdom".
Proof.
  intros Hm Htok. apply isCountryName_cases in Hm.
  unfold toLowerCase in *. rewrite map_app in *.
  destruct Htok as [E | E]; rewrite E in *;
    destruct Hm as [Hm | [Hm | [Hm | [Hm | Hm]]]];
    try (left; exact Hm); try (right; exact Hm);
    exfalso; ends_differently Hm.
Qed.

(** A country name that ends in a name of the United States is one. *)
Lemma longer_name_us (x tok : jsstring) :
  isCountryName (x ++ tok) = true ->
  toLowerCase tok = js "usa" \/ toLowerCase tok = js "us"
  \/ toLowerCase tok = js "united states" ->
  toLowerCase (x ++ tok) = js "usa" \/ toLowerCase (x ++ tok) = js "us"
  \/ toLowerCase (x ++ tok) = js "united states".
Proof.
  intros Hm Htok. apply isCountryName_cases in Hm.
  unfold toLowerCase in *. rewrite map_app in *.
  destruct Htok as [E | [E | E]]; rewrite E in *;
    destruct Hm as [Hm | [Hm | [Hm | [Hm | Hm]]]];
    try (left; exact Hm); try (right; left; exact Hm);
    try (right; right; exact Hm);
    exfalso; ends_differently Hm.
Qed.

Lemma countryMatch_none (s : jsstring) :
  forallb (fun t => negb (isCountryName t)) (tails s) = true ->
  countryMatch s = None.
Proof.
  induction s as [|c s IH]; intros H.
  - reflexivity.
  - cbn [tails forallb] in H. apply andb_true_iff in H as [Hc H].
    apply negb_true_iff in Hc. rewrite countryMatch_unfold, Hc. apply IH. exact H.
Qed.

Lemma split_nonempty (sep : ascii) (s : jsstring) : split sep s <> [].
Proof.
  induction s as [|c s IH]; simpl; [discriminate|].
  destruct (Ascii.eqb c sep); [discriminate|].
  destruct (split sep s); [congruence | discriminate].
Qed.

Lemma split_app_sep (sep : ascii) (a b : jsstring) :
  split sep (a ++ sep :: b) = split sep a ++ split sep b.
Proof.
  induction a as [|c a IH]; simpl.
  - rewrite Ascii.eqb_refl. reflexivity.
  - destruct (Ascii.eqb c sep); [rewrite IH; reflexivity|].
    rewrite IH. destruct (split sep a) as [|w ws] eqn:E.
    + exfalso. exact (split_nonempty sep a E).
    + reflexivity.
Qed.

Lemma split_no_sep (sep : ascii) (s : jsstring) :
  forallb (fun c => negb (Ascii.eqb c sep)) s = true -> split sep s = [s].
Proof.
  induction s as [|c s IH]; intros H; [reflexivity|].
  simpl in H. apply andb_true_iff in H as [Hc H]. apply negb_true_iff in Hc.
  simpl. rewrite Hc, (IH H). reflexivity.
Qed.

Lemma lastPart_after_comma (a b : jsstring) :
  forallb (fun c => negb (Ascii.eqb c ","%char)) b = true ->
  lastPart (a ++ ","%char :: b) = trim b.
Proof.
  intros Hb. unfold lastPart. cbv zeta.
  rewrite split_app_sep, (split_no_sep _ b Hb), length_app.
  destruct (split ","%char a) as [|w ws] eqn:E;
    [exfalso; exact (split_nonempty _ a E)|].
  replace (1 <? length (w :: ws) + length [b]) with true
    by (symmetry; apply Nat.ltb_lt; simpl; lia).
  replace (length (w :: ws) + length [b] - 1) with (length (w :: ws))
    by (simpl; lia).
  rewrite nth_middle. reflexivity.
Qed.

End CountryFurther.

(** X6.  [extractCountry] answers by the ending of the location, in any
    letter case: "United Kingdom" for a location ending in "uk" or "united
    kingdom", "United States" for one ending in "usa", "us" or "united
    states", whatever stands before, even inside a word.  A location with no
    such ending gives the trimmed text after its last comma. *)
Theorem extractCountry_by_ending :
  (forall pre tok,
      toLowerCase tok = js "uk" \/ toLowerCase tok = js "united kingdom" ->
      extractCountry (pre ++ tok) = js "United Kingdom")
  /\ (forall pre tok,
      toLowerCase tok = js "usa" \/ toLowerCase tok = js "us"
      \/ toLowerCase tok = js "united states" ->
      extractCountry (pre ++ tok) = js "United States")
  /\ (forall a b,
      forallb (fun t => negb (isCountryName t)) (tails (a ++ ","%char :: b)) = true ->
      forallb (fun c => negb (Ascii.eqb c ","%char)) b = true ->
      extractCountry (a ++ ","%char :: b) = trim b).
Proof.
  split; [|split].
  - intros pre tok Htok.
    assert (Hname : isCountryName tok = true).
    { unfold isCountryName, countryAlternatives. cbn [map existsb].
      rewrite orb_false_r, !orb_true_iff, !str_eqb_eq. tauto. }
    destruct (countryMatch_covers pre tok Hname) as [x [Hm Hx]].
    unfold extractCountry. rewrite Hm. cbv zeta.
    destruct (longer_name_uk x tok Hx Htok) as [-> | ->]; reflexivity.
  - intros pre tok Htok.
    assert (Hname : isCountryName tok = true).
    { unfold isCountryName, countryAlternatives. cbn [map existsb].
      rewrite orb_false_r, !orb_true_iff, !str_eqb_eq. tauto. }
    destruct (countryMatch_covers pre tok Hname) as [x [Hm Hx]].
    unfold extractCountry. rewrite Hm. cbv zeta.
    destruct (longer_name_us x tok Hx Htok) as [-> | [-> | ->]]; reflexivity.
  - intros a b Hnone Hb. unfold extractCountry.
    rewrite (countryMatch_none _ Hnone). apply lastPart_after_comma. exact Hb.
Qed.

Section FilenameFurther.

Lemma underscore_not_filename_char : isFilenameChar "_"%char = false.
Proof. reflexivity. Qed.

Lemma sanitized_char (c : ascii) :
  let c' := if isFilenameChar c then c else "_"%char in
  (isFilenameChar c' = true \/ c' = "_"%char)
  /\ (if isFilenameChar c' then c' else "_"%char) = c'.
Proof.
  cbv zeta. destruct (isFilenameChar c) eqn:E.
  - rewrite E. auto.
  - rewrite underscore_not_filename_char. auto.
Qed.

End FilenameFurther.

(** X7.  [sanitizeFilename] keeps the length, leaves only letters, digits,
    dots, dashes and underscores, keeps every such character where it is,
    and is idempotent. *)
Theorem sanitizeFilename_safe (filename : jsstring) :
  length (sanitizeFilename filename) = length filename
  /\ Forall (fun c => isFilenameChar c = true \/ c = "_"%char)
            (sanitizeFilename filename)
  /\ (forall i c, nth_error filename i = Some c ->
                  isFilenameChar c = true \/ c = "_"%char ->
                  nth_error (sanitizeFilename filename) i = Some c)
  /\ sanitizeFilename (sanitizeFilename filename) = sanitizeFilename filename.
Proof.
  unfold sanitizeFilename. split; [apply length_map|]. split; [|split].
  - apply Forall_forall. intros c Hc. apply in_map_iff in Hc as [x [<- _]].
    apply (sanitized_char x).
  - intros i c Hi Hc. rewrite nth_error_map, Hi. simpl. f_equal.
    destruct Hc as [-> | ->]; [reflexivity|].
    rewrite underscore_not_filename_char. reflexivity.
  - rewrite map_map. apply map_ext. intros c. apply (sanitized_char c).
Qed.

(** ** generateCompanyStats *)

Section StatsFacts.

Variable inheritedText : jsstring -> option jsstring.
Variable key : AntlerCompany -> jsstring.

Lemma str_eqb_sym (a b : jsstring) : str_eqb a b = str_eqb b a.
Proof.
  destruct (str_eqb a b) eqn:E1, (str_eqb b a) eqn:E2; try reflexivity.
  - apply str_eqb_eq in E1. subst. rewrite str_eqb_refl in E2. discriminate.
  - apply str_eqb_eq in E2. subst. rewrite str_eqb_refl in E1. discriminate.
Qed.

Lemma str_eqb_neq (a b : jsstring) : a <> b -> str_eqb a b = false.
Proof.
  intros H. destruct (str_eqb a b) eqn:E; [|reflexivity].
  apply str_eqb_eq in E. contradiction.
Qed.

Lemma tally_snoc (cs : list AntlerCompany) (c : AntlerCompany) :
  Stats.tally inheritedText key (cs ++ [c])
  = Stats.increment inheritedText (Stats.tally inheritedText key cs) (key c).
Proof. unfold Stats.tally. rewrite fold_left_app. reflexivity. Qed.

Lemma occurrences_snoc (k : jsstring) (cs : list AntlerCompany) (c : AntlerCompany) :
  Stats.occurrences key k (cs ++ [c])
  = Stats.occurrences key k cs + (if str_eqb (key c) k then 1 else 0).
Proof.
  unfold Stats.occurrences. rewrite filter_app, length_app. simpl.
  destruct (str_eqb (key c) k); reflexivity.
Qed.

(** Under a key other than the one incremented nothing changes. *)
Lemma increment_other (obj : Stats.Distribution) (k k' : jsstring) :
  str_eqb k' k = false -> Stats.increment inheritedText obj k' k = obj k.
Proof.
  intros H. unfold Stats.increment.
  destruct (str_eqb k' (js "__proto__")); [reflexivity|].
  rewrite str_eqb_sym, H. reflexivity.
Qed.

Lemma increment_same (obj : Stats.Distribution) (k : jsstring) :
  k <> js "__proto__" ->
  Stats.increment inheritedText obj k k = Some (Stats.plusOne inheritedText obj k).
Proof.
  intros H. unfold Stats.increment. rewrite (str_eqb_neq _ _ H), str_eqb_refl.
  reflexivity.
Qed.

Lemma tally_ordinary (k : jsstring) (cs : list AntlerCompany) :
  inheritedText k = None -> k <> js "__proto__" ->
  Stats.tally inheritedText key cs k
  = match Stats.occurrences key k cs with
    | 0 => None
    | S n => Some (Stats.Count (S n))
    end.
Proof.
  intros Hk Hp. induction cs as [|c cs IH] using rev_ind; [reflexivity|].
  rewrite tally_snoc, occurrences_snoc.
  destruct (str_eqb (key c) k) eqn:E.
  - apply str_eqb_eq in E. rewrite E, increment_same by assumption.
    unfold Stats.plusOne. rewrite IH, Hk.
    destruct (Stats.occurrences key k cs) as [|n]; simpl.
    + reflexivity.
    + rewrite Nat.add_1_r. reflexivity.
  - rewrite increment_other by assumption. rewrite IH, Nat.add_0_r. reflexivity.
Qed.

Lemma tally_inherited (k s : jsstring) (cs : list AntlerCompany) :
  inheritedText k = Some s -> s <> [] -> k <> js "__proto__" ->
  Stats.tally inheritedText key cs k
  = match Stats.occurrences key k cs with
    | 0 => None
    | S n => Some (Stats.Text (s ++ repeat "1"%char (S n)))
    end.
Proof.
  intros Hk Hs Hp. induction cs as [|c cs IH] using rev_ind; [reflexivity|].
  rewrite tally_snoc, occurrences_snoc.
  destruct (str_eqb (key c) k) eqn:E.
  - apply str_eqb_eq in E. rewrite E, increment_same by assumption.
    unfold Stats.plusOne. rewrite IH, Hk.
    destruct (Stats.occurrences key k cs) as [|n]; cbn [Nat.add].
    + destruct s; [congruence | reflexivity].
    + destruct s as [|x s]; [congruence|]. cbn [app isEmpty].
      rewrite Nat.add_1_r.
      change (js "1") with (repeat "1"%char 1).
      rewrite <- app_assoc, <- repeat_app, Nat.add_1_r. reflexivity.
  - rewrite increment_other by assumption. rewrite IH, Nat.add_0_r. reflexivity.
Qed.

Lemma tally_proto (cs : list AntlerCompany) :
  Stats.tally inheritedText key cs (js "__proto__") = None.
Proof.
  induction cs as [|c cs IH] using rev_ind; [reflexivity|].
  rewrite tally_snoc. unfold Stats.increment.
  destruct (str_eqb (key c) (js "__proto__")) eqn:E; [exact IH|].
  rewrite str_eqb_sym, E. exact IH.
Qed.

End StatsFacts.

(** X8.  [generateCompanyStats] sets [totalCompanies] to the number of
    companies, and under every key that [Object.prototype] does not have it
    holds the number of companies with that sector, location or year; a key
    no company has is absent. *)
Theorem stats_count_ordinary_keys
        (inheritedText : jsstring -> option jsstring) (numberKey : Z -> jsstring)
        (now : jsstring) (companies : list AntlerCompany) (k : jsstring) :
  inheritedText k = None -> k <> js "__proto__" ->
  let stats := Stats.generateCompanyStats inheritedText numberKey now companies in
  let counted key := match Stats.occurrences key k companies with
                     | 0 => None
                     | S n => Some (Stats.Count (S n))
                     end in
  Stats.totalCompanies stats = length companies
  /\ Stats.sectorDistribution stats k = counted sector
  /\ Stats.locationDistribution stats k = counted location
  /\ Stats.yearDistribution stats k = counted (fun c => numberKey (founded_year c)).
Proof.
  intros Hk Hp. cbv zeta. simpl.
  repeat split; apply tally_ordinary; assumption.
Qed.

(** X9.  Under a key that [Object.prototype] has, the distributions of
    [generateCompanyStats] hold no count: from the first company with that
    key on they hold the text of the inherited value followed by one "1" per
    company; and the key [__proto__] is never set. *)
Theorem stats_inherited_keys
        (inheritedText : jsstring -> option jsstring) (numberKey : Z -> jsstring)
        (now : jsstring) (companies : list AntlerCompany) (k s : jsstring) :
  inheritedText k = Some s -> s <> [] -> k <> js "__proto__" ->
  let stats := Stats.generateCompanyStats inheritedText numberKey now companies in
  Stats.sectorDistribution stats k
  = match Stats.occurrences sector k companies with
    | 0 => None
    | S n => Some (Stats.Text (s ++ repeat "1"%char (S n)))
    end
  /\ Stats.locationDistribution stats k
     = match Stats.occurrences location k companies with
       | 0 => None
       | S n => Some (Stats.Text (s ++ repeat "1"%char (S n)))
       end
  /\ Stats.sectorDistribution stats (js "__proto__") = None
  /\ Stats.locationDistribution stats (js "__proto__") = None.
Proof.
  intros Hk Hs Hp. cbv zeta. simpl.
  split; [apply tally_inherited; assumption|].
  split; [apply tally_inherited; assumption|].
  split; apply tally_proto.
Qed.

(* ------------------------------------------------------------------ *)
(** * Further facts on fetcher.ts: the record builder *)

Section TextFurther.

Lemma startsWith_prefix (p s : jsstring) : startsWith (p ++ s) p = true.
Proof.
  induction p as [|x p IH]; simpl; [reflexivity|].
  rewrite IH, andb_true_r. apply Ascii.eqb_refl.
Qed.

Lemma includes_split (s k : jsstring) :
  includes s k = true <-> exists a b, s = a ++ k ++ b.
Proof.
  split.
  - induction s as [|c s IH]; simpl; intros H.
    + rewrite orb_false_r in H. apply startsWith_split in H.
      exists [], (skipn (length k) []). exact H.
    + apply orb_true_iff in H as [H | H].
      * apply startsWith_split in H. exists [], (skipn (length k) (c :: s)). exact H.
      * destruct (IH H) as (a & b & ->). exists (c :: a), b. reflexivity.
  - intros (a & b & ->). induction a as [|c a IH].
    + simpl app. destruct (k ++ b) eqn:E.
      * simpl. rewrite orb_false_r. rewrite <- E. apply startsWith_prefix.
      * simpl. apply orb_true_iff. left. rewrite <- E. apply startsWith_prefix.
    + simpl. apply orb_true_iff. right. exact IH.
Qed.

Lemma includes_in_context (pre s post k : jsstring) :
  includes s k = true -> includes (pre ++ s ++ post) k = true.
Proof.
  intros H. apply includes_split in H as (a & b & ->).
  apply includes_split. exists (pre ++ a), (b ++ post).
  rewrite <- !app_assoc. reflexivity.
Qed.

Lemma toLowerCase_app (a b : jsstring) :
  toLowerCase (a ++ b) = toLowerCase a ++ toLowerCase b.
Proof. apply map_app. Qed.

End TextFurther.

(** X10.  [isLocationText] looks for its place names anywhere in the text:
    a text it accepts is accepted with anything before and after it, even
    when the name then lies inside a word. *)
Theorem isLocationText_in_context (pre text post : jsstring) :
  isLocationText text = true -> isLocationText (pre ++ text ++ post) = true.
Proof.
  unfold isLocationText. rewrite !existsb_exists.
  intros [location [Hin H]]. exists location. split; [exact Hin|].
  rewrite !toLowerCase_app. apply includes_in_context. exact H.
Qed.

(** X11.  The card [extractCompanyFromElement] works on is the anchor itself
    or the closest match of one of the parent selectors, and in the second
    case its trimmed text is strictly longer than the anchor's; its trimmed
    text is never shorter. *)
Theorem resolveCard_widens (element : Anchor) :
  let card := resolveCard element parentSelectors in
  length (trim (text (self_card element))) <= length (trim (text card))
  /\ (card = self_card element
      \/ exists selector,
           In selector parentSelectors
           /\ closest element selector = Some card
           /\ length (trim (text (self_card element))) < length (trim (text card))).
Proof.
  cbv zeta. generalize parentSelectors as sels.
  induction sels as [|selector sels [IH1 IH2]]; simpl.
  - split; [lia | left; reflexivity].
  - destruct (closest element selector) as [parent|] eqn:E.
    + destruct (length (trim (text (self_card element))) <? length (trim (text parent)))
        eqn:L.
      * apply Nat.ltb_lt in L. split; [lia|]. right. exists selector. auto.
      * split; [exact IH1|]. destruct IH2 as [-> | (s & Hs & Hc & Hl)];
          [left; reflexivity | right; exists s; auto].
    + split; [exact IH1|]. destruct IH2 as [-> | (s & Hs & Hc & Hl)];
        [left; reflexivity | right; exists s; auto].
Qed.

Section UrlFurther.

Lemma split_head_app (sep : ascii) (a b : jsstring) :
  forallb (fun c => negb (Ascii.eqb c sep)) a = true ->
  hd [] (split sep (a ++ b)) = a ++ hd [] (split sep b).
Proof.
  induction a as [|c a IH]; intros H; [reflexivity|].
  simpl in H. apply andb_true_iff in H as [Hc H]. apply negb_true_iff in Hc.
  simpl. rewrite Hc. specialize (IH H).
  destruct (split sep (a ++ b)) as [|w ws] eqn:E;
    [exfalso; exact (split_nonempty sep _ E)|].
  simpl in *. rewrite IH. reflexivity.
Qed.

Lemma label_chars (label : jsstring) :
  forallb isLabelChar label = true ->
  forallb (fun c => negb (Ascii.eqb c "."%char)) label = true
  /\ forallb (fun c => negb (Ascii.eqb c "/"%char)) label = true.
Proof.
  induction label as [|c label IH]; intros H; [split; reflexivity|].
  simpl in H. apply andb_true_iff in H as [Hc H].
  unfold isLabelChar in Hc. apply andb_true_iff in Hc as [H1 H2].
  destruct (IH H) as [I1 I2]. simpl. rewrite H1, H2, I1, I2. split; reflexivity.
Qed.

(** The host is what stands before the first slash. *)
Lemma host_of_label (label rest : jsstring) :
  forallb isLabelChar label = true ->
  exists h, hd [] (split "/"%char (label ++ "."%char :: rest)) = label ++ "."%char :: h.
Proof.
  intros H. destruct (label_chars label H) as [_ Hs].
  rewrite (split_head_app "/"%char label _ Hs).
  exists (hd [] (split "/"%char rest)). f_equal.
  simpl. destruct (split "/"%char rest) as [|w ws] eqn:E;
    [exfalso; exact (split_nonempty _ _ E) | reflexivity].
Qed.

Lemma nameFromUrl_stripped (label rest website : jsstring) :
  forallb isLabelChar label = true ->
  stripScheme website = label ++ "."%char :: rest ->
  nameFromUrl website = capitalize label.
Proof.
  intros H Hs. unfold nameFromUrl. rewrite Hs.
  destruct (host_of_label label rest H) as [h ->].
  destruct (label_chars label H) as [Hd _].
  rewrite split_app_sep, (split_no_sep _ label Hd).
  destruct (split "."%char h) as [|w ws] eqn:E;
    [exfalso; exact (split_nonempty _ _ E) | reflexivity].
Qed.

End UrlFurther.

(** X12.  The name taken from a website is the first label of its host with
    the first letter capitalised: for a website made of "https://" or
    "http://", a label without dot or slash, a dot and anything, it is that
    label capitalised.  The label does not start with the micro sign or
    with U+00FF, whose capitals are no units of the strings modelled. *)
Theorem nameFromUrl_first_label (label rest : jsstring) :
  forallb isLabelChar label = true ->
  existsb capitalOutside (firstn 1 label) = false ->
  nameFromUrl (js "https://" ++ label ++ "."%char :: rest) = capitalize label
  /\ nameFromUrl (js "http://" ++ label ++ "."%char :: rest) = capitalize label.
Proof.
  intros H _. split; apply (nameFromUrl_stripped label rest); try assumption.
  - unfold stripScheme. rewrite startsWith_prefix. reflexivity.
  - unfold stripScheme.
    replace (startsWith (js "http://" ++ label ++ "."%char :: rest) (js "https://"))
      with false.
    + rewrite startsWith_prefix. reflexivity.
    + symmetry. simpl.
      destruct label as [|c label]; simpl; [reflexivity|].
      destruct (Ascii.eqb "s" c) eqn:Ec; [|reflexivity].
      destruct label as [|d label]; simpl; [reflexivity|].
      destruct (Ascii.eqb ":" d) eqn:Ed; [|reflexivity].
      destruct label as [|e label]; simpl; [reflexivity|].
      destruct (Ascii.eqb "/" e) eqn:Ee; [|reflexivity].
      apply Ascii.eqb_eq in Ee. subst e.
      simpl in H. rewrite !andb_false_r in H. discriminate.
Qed.

Section ClassifyFurther.

Lemma classifyHashLinks_classified (hashLinks : list jsstring) :
  classified (classifyHashLinks hashLinks).
Proof.
  unfold classified, classifyHashLinks.
  destruct hashLinks as [|first [|second rest]].
  - simpl. auto.
  - destruct (isLocationText (trim first)) eqn:L; [simpl; auto|].
    destruct (isSectorText (trim first)) eqn:S; simpl; auto.
  - destruct (isLocationText (trim first)) eqn:L1.
    + destruct (isSectorText (trim second)) eqn:S2; simpl; auto.
    + destruct (isSectorText (trim first)) eqn:S1; [|simpl; auto].
      destruct (isLocationText (trim second)) eqn:L2; simpl; auto.
Qed.

Lemma classifyBracket_classified (acc : jsstring * jsstring) (m : jsstring) :
  classified acc -> classified (classifyBracket acc m).
Proof.
  destruct acc as [loc sec]. unfold classified, classifyBracket. simpl.
  intros [Hl Hs].
  destruct (isEmpty loc && isLocationText (trim (dropBrackets m))) eqn:E1.
  - apply andb_true_iff in E1 as [_ E1]. simpl. auto.
  - destruct (isEmpty sec && isSectorText (trim (dropBrackets m))
              && negb (isLocationText (trim (dropBrackets m)))) eqn:E2.
    + apply andb_true_iff in E2 as [E2 _]. apply andb_true_iff in E2 as [_ E2].
      simpl. auto.
    + simpl. auto.
Qed.

Lemma fold_classifyBracket_classified (ms : list jsstring) :
  forall acc, classified acc -> classified (fold_left classifyBracket ms acc).
Proof.
  induction ms as [|m ms IH]; intros acc H; [exact H|].
  simpl. apply IH. apply classifyBracket_classified. exact H.
Qed.

Lemma extractLocationAndSector_classified (card : Card) :
  classified (extractLocationAndSector card).
Proof.
  unfold extractLocationAndSector.
  pose proof (classifyHashLinks_classified (find_hash_links card)) as H.
  destruct (classifyHashLinks (find_hash_links card)) as [loc sec].
  destruct (isEmpty loc && isEmpty sec); [|exact H].
  apply fold_classifyBracket_classified. exact H.
Qed.

End ClassifyFurther.

(** X13.  Whatever [extractCompanyFromElement] takes for the location of a
    card, from the placeholder links or from the bracketed texts, is empty
    or passed [isLocationText], and whatever it takes for the sector is
    empty or passed [isSectorText]. *)
Theorem location_and_sector_classified (card : Card) :
  let location := fst (extractLocationAndSector card) in
  let sector := snd (extractLocationAndSector card) in
  (location = [] \/ isLocationText location = true)
  /\ (sector = [] \/ isSectorText sector = true).
Proof. exact (extractLocationAndSector_classified card). Qed.

Section RecordFurther.

Variable getFullYear : Z.

Lemma extract_website (element : Anchor) (c : AntlerCompany) :
  extractCompanyFromElement getFullYear element = Some c ->
  5 <= length (websiteOf element)
  /\ api c = js "https://antler-api.github.io/companies/" ++ slug c ++ js ".json".
Proof.
  unfold extractCompanyFromElement, websiteOf.
  set (website := match href element with Some h => h | None => [] end).
  destruct (isEmpty website || (length website <? 5)) eqn:E; [discriminate|].
  apply orb_false_iff in E as [_ E]. apply Nat.ltb_ge in E.
  destruct (isEmpty _ || _); [discriminate|].
  destruct (extractLocationAndSector _).
  intros H; injection H as <-. split; [exact E | reflexivity].
Qed.

(** The description found on the card is the result of a [trim]. *)
Lemma extractDescription_trimmed (card : Card) :
  trim (extractDescription card) = extractDescription card.
Proof.
  unfold extractDescription, extractText.
  assert (T : forall o : option jsstring,
             trim (match o with Some t => trim t | None => [] end)
             = match o with Some t => trim t | None => [] end)
    by (intros [t|]; [apply trim_idem | reflexivity]).
  set (e1 := match find_first card SelParagraph with Some t => trim t | None => [] end).
  set (e2 := match find_first card SelDescHint with Some t => trim t | None => [] end).
  set (e3 := match find_first card SelNestedPara with Some t => trim t | None => [] end).
  assert (Hd : trim (e1 <|> e2 <|> e3 <|> []) = e1 <|> e2 <|> e3 <|> []).
  { subst e1 e2 e3.
    destruct (find_first card SelParagraph) as [t1|]; simpl;
      [destruct (trim t1) eqn:E1; simpl; [|rewrite <- E1; apply trim_idem]|];
      (destruct (find_first card SelDescHint) as [t2|]; simpl;
       [destruct (trim t2) eqn:E2; simpl; [|rewrite <- E2; apply trim_idem]|]);
      (destruct (find_first card SelNestedPara) as [t3|]; simpl;
       [destruct (trim t3) eqn:E3; simpl; [|rewrite <- E3; apply trim_idem]|]);
      reflexivity. }
  destruct (isEmpty _ || _); [|exact Hd].
  destruct (filter isTextBlock (find_all card)); [exact Hd | apply trim_idem].
Qed.

Lemma trimEnd_text (z : jsstring) (y : ascii) :
  isWhiteSpace y = false -> trimEnd (z ++ [y]) = z ++ [y].
Proof.
  intros Hy. unfold trimEnd. rewrite rev_app_distr.
  change (rev [y] ++ rev z) with (y :: rev z).
  rewrite dropWhile_stop by assumption.
  change (rev (y :: rev z)) with (rev (rev z) ++ [y]).
  rewrite rev_involutive. reflexivity.
Qed.

(** The sentence made from a name keeps its words when trimmed. *)
Lemma synthesized_length (name : jsstring) : 32 <= length (trim (synthesized name)).
Proof.
  unfold synthesized, trim, trimStart.
  change (js " is a portfolio company of Antler.")
    with (" "%char :: "i"%char :: js "s a portfolio company of Antler" ++ ["."%char]).
  replace (name ++ " "%char :: "i"%char :: js "s a portfolio company of Antler" ++ ["."%char])
    with ((name ++ [" "%char]) ++ "i"%char
          :: js "s a portfolio company of Antler" ++ ["."%char])
    by (rewrite <- app_assoc; reflexivity).
  destruct (dropWhile_keeps isWhiteSpace (name ++ [" "%char]) "i"%char
              (js "s a portfolio company of Antler" ++ ["."%char]) eq_refl) as [y ->].
  replace (y ++ "i"%char :: js "s a portfolio company of Antler" ++ ["."%char])
    with ((y ++ "i"%char :: js "s a portfolio company of Antler") ++ ["."%char])
    by (rewrite <- app_assoc; reflexivity).
  rewrite trimEnd_text by reflexivity.
  rewrite !length_app. simpl. lia.
Qed.

End RecordFurther.

(** X14.  Every record [extractCompanyFromElement] returns has a trimmed
    name, the slug of that name, and an id, a portfolio URL and an API URL
    made from the slug; its website starts with "http" and its logo URL is
    empty or starts with "http". *)
Theorem built_record_is_consistent
        (getFullYear : Z) (element : Anchor) (c : AntlerCompany) :
  extractCompanyFromElement getFullYear element = Some c ->
  trim (name c) = name c
  /\ slug c = createSlug (name c)
  /\ id c = js "antler-" ++ slug c
  /\ url c = js "https://www.antler.co/portfolio/" ++ slug c
  /\ api c = js "https://antler-api.github.io/companies/" ++ slug c ++ js ".json"
  /\ startsWith (Types.website c) (js "http") = true
  /\ (logo_url c = [] \/ startsWith (logo_url c) (js "http") = true).
Proof.
  intros H.
  pose proof (built_record_shape getFullYear element c H) as S. cbv zeta in S.
  destruct S as (S1 & S2 & S3 & S4 & S5 & _ & _ & S8).
  destruct (extract_website getFullYear element c H) as [_ A].
  repeat split; assumption.
Qed.

(** X15.  Every record [extractCompanyFromElement] returns has a
    description of at least 5 characters without white space around it, a
    location and a sector that are not empty, and a website of at least 5
    characters. *)
Theorem built_record_fields_filled
        (getFullYear : Z) (element : Anchor) (c : AntlerCompany) :
  extractCompanyFromElement getFullYear element = Some c ->
  5 <= length (description c)
  /\ trim (description c) = description c
  /\ location c <> []
  /\ sector c <> []
  /\ 5 <= length (Types.website c).
Proof.
  intros H.
  pose proof (extract_fields getFullYear element c H) as F. cbv zeta in F.
  destruct F as (_ & _ & _ & _ & Hweb & Hdesc & _ & Hloc & Hsec & _).
  destruct (extract_website getFullYear element c H) as [Hlen _].
  set (card := resolveCard element parentSelectors) in *.
  set (nm := extractName card (websiteOf element)) in *.
  assert (D : 5 <= length (trim (describe card nm))
              /\ trim (trim (describe card nm)) = trim (describe card nm)).
  { split; [|apply trim_idem]. unfold describe.
    destruct (isEmpty (extractDescription card)
              || (length (extractDescription card) <? 5)) eqn:E.
    - pose proof (synthesized_length nm). lia.
    - apply orb_false_iff in E as [_ E]. apply Nat.ltb_ge in E.
      rewrite extractDescription_trimmed. exact E. }
  rewrite Hdesc, Hloc, Hsec, Hweb.
  split; [apply D|]. split; [apply D|].
  split; [destruct (normalizeLocation _); discriminate|].
  split; [destruct (snd _); discriminate|].
  destruct (startsWith (websiteOf element) (js "http")); [exact Hlen|].
  rewrite length_app. lia.
Qed.

(** X16.  When the card offers no description of 5 characters, the
    description of the record is the sentence made from the name as it was
    extracted, trimmed as a whole; when that name has no white space around
    it, this is the sentence made from the record's name. *)
Theorem description_falls_back_to_sentence
        (getFullYear : Z) (element : Anchor) (c : AntlerCompany) :
  extractCompanyFromElement getFullYear element = Some c ->
  let card := resolveCard element parentSelectors in
  let extracted := extractName card (websiteOf element) in
  length (extractDescription card) < 5 ->
  description c = trim (synthesized extracted)
  /\ (trim extracted = extracted -> description c = synthesized (name c)).
Proof.
  intros H card extracted Hlen.
  exact (description_synthesized getFullYear element c H Hlen).
Qed.

(* ------------------------------------------------------------------ *)
(** * Further facts on fetcher.ts: one page *)

Section PageFurther.

Lemma processed_covers (links : list Anchor) :
  forall seen el,
    In el links ->
    In (websiteOf el) seen
    \/ In (websiteOf el) (map websiteOf (processedElements links seen)).
Proof.
  induction links as [|x links IH]; intros seen el Hin; [destruct Hin|].
  simpl. destruct (has seen (websiteOf x)) eqn:E.
  - destruct Hin as [<- | Hin]; [left; apply has_In; exact E | apply IH; exact Hin].
  - destruct Hin as [<- | Hin]; [right; left; reflexivity|].
    destruct (IH (websiteOf x :: seen) el Hin) as [[Hx | Hs] | Hp].
    + right. left. exact Hx.
    + left. exact Hs.
    + right. right. exact Hp.
Qed.

Lemma first_is_processed (pre : list Anchor) :
  forall seen el post,
    ~ In (websiteOf el) (map websiteOf pre) ->
    ~ In (websiteOf el) seen ->
    In el (processedElements (pre ++ el :: post) seen).
Proof.
  induction pre as [|x pre IH]; intros seen el post Hpre Hseen.
  - simpl. apply has_false_not_In in Hseen. rewrite Hseen. left. reflexivity.
  - simpl in Hpre. simpl. destruct (has seen (websiteOf x)).
    + apply IH; tauto.
    + right. apply IH; [tauto|]. intros [Hx | Hs]; tauto.
Qed.

Lemma processed_length (links : list Anchor) :
  forall seen, length (processedElements links seen) <= length links.
Proof.
  induction links as [|x links IH]; intros seen; simpl; [lia|].
  destruct (has seen (websiteOf x)); simpl.
  - specialize (IH seen). lia.
  - specialize (IH (websiteOf x :: seen)). lia.
Qed.

Lemma https_is_http (h : jsstring) :
  startsWith h (js "https://") = true -> startsWith h (js "http") = true.
Proof.
  intros H. apply startsWith_split in H. rewrite H. reflexivity.
Qed.

(** The website of a record built from a candidate is the candidate's href. *)
Lemma record_website (getFullYear : Z) (el : Anchor) (c : AntlerCompany) :
  hasHttpsHref el = true ->
  extractCompanyFromElement getFullYear el = Some c ->
  Types.website c = websiteOf el /\ href el = Some (Types.website c).
Proof.
  intros Hs H.
  pose proof (extract_fields getFullYear el c H) as F. cbv zeta in F.
  destruct F as (_ & _ & _ & _ & Hweb & _).
  unfold hasHttpsHref in Hs. unfold websiteOf in *.
  destruct (href el) as [h|]; [|discriminate].
  rewrite (https_is_http h Hs) in Hweb. rewrite Hweb. auto.
Qed.

Lemma records_of_distinct_links (getFullYear : Z) (links : list Anchor) :
  Forall (fun el => hasHttpsHref el = true) links ->
  NoDup (map websiteOf links) ->
  let records := flat_map (fun el => pushIfSome (extractCompanyFromElement getFullYear el))
                          links in
  NoDup (map Types.website records)
  /\ (forall c, In c records ->
                exists el, In el links /\ href el = Some (Types.website c)).
Proof.
  cbv zeta. induction links as [|x links IH]; intros Hall Hnd.
  - simpl. split; [constructor | intros c []].
  - inversion Hall as [|? ? Hx Hrest]; subst.
    inversion Hnd as [|? ? Hnotin Hnd']; subst.
    destruct (IH Hrest Hnd') as [IH1 IH2]. simpl.
    destruct (extractCompanyFromElement getFullYear x) as [c|] eqn:E; simpl.
    + destruct (record_website getFullYear x c Hx E) as [Hw Hh]. split.
      * constructor; [|exact IH1].
        intros Hin. apply in_map_iff in Hin as [d [Hd Hin]].
        destruct (IH2 d Hin) as [el [Hel Hhref]].
        apply Hnotin. apply in_map_iff. exists el. split; [|exact Hel].
        unfold websiteOf at 1. rewrite Hhref, Hd. exact Hw.
      * intros d [<- | Hin]; [exists x; split; [left; reflexivity | exact Hh]|].
        destruct (IH2 d Hin) as [el [Hel Hhref]]. exists el. split; [right|]; assumption.
    + split; [exact IH1|]. intros d Hin.
      destruct (IH2 d Hin) as [el [Hel Hhref]]. exists el. split; [right|]; assumption.
Qed.

End PageFurther.

(** X17.  The loop over the candidate links processes every distinct href
    exactly once, at its first occurrence: each candidate's href is the href
    of a processed one, the first candidate with a given href is processed
    itself, and no two processed candidates share an href. *)
Theorem each_href_processed_once (links : list Anchor) :
  let processed := processedElements links [] in
  (forall el, In el links -> In (websiteOf el) (map websiteOf processed))
  /\ (forall pre el post,
        links = pre ++ el :: post ->
        ~ In (websiteOf el) (map websiteOf pre) ->
        In el processed)
  /\ NoDup (map websiteOf processed)
  /\ length processed <= length links.
Proof.
  cbv zeta. split; [|split; [|split]].
  - intros el Hin. destruct (processed_covers links [] el Hin) as [[] | H]. exact H.
  - intros pre el post -> Hpre. apply first_is_processed; [exact Hpre | intros []].
  - apply processedElements_fresh.
  - apply processed_length.
Qed.

(** X18.  The records [extractCompaniesFromCurrentPage] returns carry, for
    website, the href of an anchor of the page, unchanged; no two of them
    have the same website, and there are at most as many as anchors. *)
Theorem page_records_have_distinct_websites (getFullYear : Z) (page : Page) :
  let records := extractCompaniesFromCurrentPage getFullYear page in
  NoDup (map Types.website records)
  /\ (forall c, In c records ->
                exists el, In el (anchors page) /\ href el = Some (Types.website c))
  /\ length records <= length (anchors page).
Proof.
  cbv zeta. unfold extractCompaniesFromCurrentPage.
  assert (Hall : Forall (fun el => hasHttpsHref el = true)
                        (processedElements (companyLinks page) [])).
  { apply Forall_forall. intros el Hel. apply processedElements_sub in Hel.
    apply companyLinks_sound in Hel. tauto. }
  destruct (records_of_distinct_links getFullYear _ Hall
              (proj1 (processedElements_fresh (companyLinks page) []))) as [H1 H2].
  split; [exact H1|]. split.
  - intros c Hc. destruct (H2 c Hc) as [el [Hel Hhref]]. exists el.
    split; [|exact Hhref]. apply processedElements_sub in Hel.
    apply companyLinks_sound in Hel. tauto.
  - clear H1 H2 Hall.
    assert (L1 : forall l : list Anchor,
               length (flat_map (fun el => pushIfSome (extractCompanyFromElement getFullYear el)) l)
               <= length l).
    { induction l as [|x l IH]; simpl; [lia|]. rewrite length_app.
      destruct (extractCompanyFromElement getFullYear x); simpl; lia. }
    assert (L2 : length (companyLinks page) <= length (anchors page)).
    { unfold companyLinks. cbv zeta.
      eapply Nat.le_trans; [apply filter_length_le|].
      destruct (0 <? portfolio_containers page);
        [destruct (0 <? length _)|]; apply filter_length_le. }
    eapply Nat.le_trans; [apply L1|].
    eapply Nat.le_trans; [apply processed_length | exact L2].
Qed.

(* ------------------------------------------------------------------ *)
(** * Further facts on fetcher.ts: the loop, whatever the pages do *)

Section LoopFurther.

Variable w : World.

(** The two ways a turn of the loop can go. *)
Lemma loopBody_cases (this : Scraper) (page : nat) :
  let entered := if 1 <? page then navigate this page else this in
  loopBody w this page = (entered, page, false)
  \/ exists doc,
       content w page = inr doc
       /\ let newCompanies :=
            newCompaniesOf (companies this)
                           (extractCompaniesFromCurrentPage (getFullYear w) doc) in
          newCompanies <> []
          /\ loopBody w this page
             = (savePageCompanies (pushCompanies entered newCompanies), S page, true).
Proof.
  cbv zeta. unfold loopBody.
  set (entered := if 1 <? page then navigate this page else this).
  assert (Hcs : companies entered = companies this)
    by (subst entered; destruct (1 <? page); reflexivity).
  destruct (if 1 <? page then goto w page else None); [left; reflexivity|].
  destruct (content w page) as [e | doc]; [left; reflexivity|].
  destruct (length (extractCompaniesFromCurrentPage (getFullYear w) doc) =? 0);
    [left; reflexivity|].
  rewrite Hcs.
  destruct (newCompaniesOf (companies this)
              (extractCompaniesFromCurrentPage (getFullYear w) doc)) as [|n ns] eqn:E.
  - left. reflexivity.
  - right. exists doc. split; [reflexivity|]. rewrite E.
    split; [discriminate | reflexivity].
Qed.

(** What every turn taken under the loop's condition keeps, the loop keeps. *)
Lemma whileLoop_keeps (I : Scraper -> nat -> bool -> Prop) :
  (forall this page,
      I this page true -> page <= maxPages (config this) ->
      I (fst (fst (loopBody w this page))) (snd (fst (loopBody w this page)))
        (snd (loopBody w this page))) ->
  forall fuel this page flag,
    I this page flag ->
    I (fst (fst (whileLoop fuel w this page flag)))
      (snd (fst (whileLoop fuel w this page flag)))
      (snd (whileLoop fuel w this page flag)).
Proof.
  intros Hstep. induction fuel as [|fuel IH]; intros this page flag H.
  - exact H.
  - cbn [whileLoop]. destruct flag; cbn [andb]; [|exact H].
    destruct (page <=? maxPages (config this)) eqn:E; [|exact H].
    apply Nat.leb_le in E. specialize (Hstep this page H E).
    destruct (loopBody w this page) as [[this' page'] flag'].
    apply IH. exact Hstep.
Qed.

(** The counter of processed companies follows the accumulated list. *)
Lemma loop_counts (fuel : nat) (this : Scraper) (page : nat) (flag : bool) :
  processedCompanies (progress this) = length (companies this) ->
  let final := fst (fst (whileLoop fuel w this page flag)) in
  processedCompanies (progress final) = length (companies final).
Proof.
  intros H. cbv zeta.
  apply (whileLoop_keeps
           (fun this _ _ => processedCompanies (progress this) = length (companies this)));
    [|exact H].
  clear. intros this page H _.
  pose proof (loopBody_cases this page) as C. cbv zeta in C.
  destruct C as [-> | (doc & _ & _ & ->)]; cbn [fst snd].
  - destruct (1 <? page); exact H.
  - simpl. rewrite length_app.
    destruct (1 <? page); simpl; rewrite H; reflexivity.
Qed.

(** The accumulated list only grows at its end. *)
Lemma loop_grows (fuel : nat) (this : Scraper) (page : nat) (flag : bool) :
  exists added,
    companies (fst (fst (whileLoop fuel w this page flag))) = companies this ++ added.
Proof.
  apply (whileLoop_keeps
           (fun this' _ _ => exists added, companies this' = companies this ++ added)).
  - clear page flag. intros this' page [added H] _.
    pose proof (loopBody_cases this' page) as C. cbv zeta in C.
    destruct C as [-> | (doc & _ & _ & ->)]; cbn [fst snd].
    + exists added. destruct (1 <? page); exact H.
    + eexists. simpl.
      replace (companies (if 1 <? page then navigate this' page else this'))
        with (companies this') by (destruct (1 <? page); reflexivity).
      rewrite H, <- app_assoc. reflexivity.
  - exists []. rewrite app_nil_r. reflexivity.
Qed.

(** Slugs stay distinct as long as those within each page are. *)
Lemma loop_keeps_slugs_distinct (fuel : nat) (this : Scraper) (page : nat) (flag : bool) :
  (forall n doc, content w n = inr doc ->
                 NoDup (map slug (extractCompaniesFromCurrentPage (getFullYear w) doc))) ->
  NoDup (map slug (companies this)) ->
  NoDup (map slug (companies (fst (fst (whileLoop fuel w this page flag))))).
Proof.
  intros Hpages H.
  apply (whileLoop_keeps (fun this _ _ => NoDup (map slug (companies this))));
    [|exact H].
  clear this page flag H. intros this page H _.
  pose proof (loopBody_cases this page) as C. cbv zeta in C.
  destruct C as [-> | (doc & Hdoc & _ & ->)]; cbn [fst snd].
  - destruct (1 <? page); exact H.
  - simpl.
    replace (companies (if 1 <? page then navigate this page else this))
      with (companies this) by (destruct (1 <? page); reflexivity).
    apply merge_keeps_slugs_distinct; [exact H | exact (Hpages page doc Hdoc)].
Qed.

(** Where the browser has been sent: [page] is the counter, [flag] the
    loop's flag, [ceiling] the value of [maxPages]. *)
Lemma loop_navigates_in_order (ceiling fuel : nat) (this : Scraper) :
  maxPages (config this) = ceiling ->
  navigated this = [1] ->
  let r := whileLoop fuel w this 1 true in
  exists n,
    navigated (fst (fst r)) = seq 1 n
    /\ 1 <= n <= Nat.max 1 ceiling
    /\ n <= snd (fst r) <= S n.
Proof.
  intros Hmax Hnav. cbv zeta.
  pose (I := fun (this : Scraper) (page : nat) (flag : bool) =>
               maxPages (config this) = ceiling
               /\ 1 <= page
               /\ if flag
                  then navigated this = seq 1 (Nat.max 1 (page - 1))
                       /\ page <= S ceiling
                  else navigated this = seq 1 page /\ page <= ceiling).
  assert (Hfinal : I (fst (fst (whileLoop fuel w this 1 true)))
                     (snd (fst (whileLoop fuel w this 1 true)))
                     (snd (whileLoop fuel w this 1 true))).
  { apply (whileLoop_keeps I).
    - clear. intros this page (Hc & Hp & Hn & _) Hle.
      assert (Hentered : navigated (if 1 <? page then navigate this page else this)
                         = seq 1 page).
      { destruct page as [|j]; [lia|]. apply navigated_entering. simpl in Hn.
        rewrite Nat.sub_0_r in Hn. exact Hn. }
      assert (Hcfg : config (if 1 <? page then navigate this page else this)
                     = config this) by (destruct (1 <? page); reflexivity).
      pose proof (loopBody_cases this page) as C. cbv zeta in C.
      destruct C as [-> | (doc & _ & _ & ->)]; cbn [fst snd]; unfold I.
      + rewrite Hcfg. rewrite Hc in Hle. auto.
      + set (merged := savePageCompanies (pushCompanies _ _)).
        assert (N : navigated merged = seq 1 page)
          by (rewrite <- Hentered; reflexivity).
        assert (Cf : config merged = config this)
          by (rewrite <- Hcfg; reflexivity).
        rewrite Cf, N. rewrite Hc in Hle. split; [exact Hc|].
        split; [lia|]. split; [|lia].
        replace (S page - 1) with page by lia.
        rewrite Nat.max_r by lia. reflexivity.
    - unfold I. split; [exact Hmax|]. split; [lia|]. simpl. split; [exact Hnav | lia]. }
  destruct (whileLoop fuel w this 1 true) as [[final page] flag].
  cbn [fst snd] in *. destruct Hfinal as (_ & Hp & Hrest). destruct flag.
  - destruct Hrest as [Hn Hle]. exists (Nat.max 1 (page - 1)).
    split; [exact Hn | lia].
  - destruct Hrest as [Hn Hle]. exists page. split; [exact Hn | lia].
Qed.

(** Wherever the loop stands, the last files written hold the accumulated
    list. *)
Lemma loop_snapshot (fuel : nat) (this : Scraper) (page : nat) (flag : bool) :
  companies this = [] -> written this = [] ->
  let final := fst (fst (whileLoop fuel w this page flag)) in
  (companies final = [] /\ written final = [])
  \/ exists earlier,
       written final = earlier ++ snapshot (config this) (companies final).
Proof.
  intros Hc Hw. cbv zeta.
  pose (I := fun (this' : Scraper) (_ : nat) (_ : bool) =>
               config this' = config this
               /\ ((companies this' = [] /\ written this' = [])
                   \/ exists earlier,
                        written this' = earlier ++ snapshot (config this) (companies this'))).
  assert (Hfinal : I (fst (fst (whileLoop fuel w this page flag)))
                     (snd (fst (whileLoop fuel w this page flag)))
                     (snd (whileLoop fuel w this page flag))).
  { apply (whileLoop_keeps I).
    - clear page flag. intros this' page [Hcfg H] _.
      pose proof (loopBody_cases this' page) as C. cbv zeta in C.
      destruct C as [-> | (doc & _ & _ & ->)]; cbn [fst snd]; unfold I.
      + destruct (1 <? page); simpl; auto.
      + split; [destruct (1 <? page); exact Hcfg|]. right.
        exists (written this'). unfold savePageCompanies, snapshot, aggregateFile, allJson.
        simpl. rewrite <- app_assoc.
        replace (config (if 1 <? page then navigate this' page else this'))
          with (config this') by (destruct (1 <? page); reflexivity).
        replace (written (if 1 <? page then navigate this' page else this'))
          with (written this') by (destruct (1 <? page); reflexivity).
        rewrite Hcfg. reflexivity.
    - unfold I. auto. }
  destruct Hfinal as [_ H]. exact H.
Qed.

End LoopFurther.

(** X19.  A turn of the loop of [extractCompanyData] on a page that loads:
    the accumulated list afterwards is the one before followed, in page
    order, by exactly the records of the page whose slug no accumulated
    record had; the other records are dropped;
    [progress.processedCompanies] grows by the number appended; the page
    counter moves on and the loop goes on exactly when something was
    appended. *)
Theorem merge_drops_known_slugs (w : World) (this : Scraper) (page : nat) (doc : Page) :
  (1 < page -> goto w page = None) ->
  content w page = inr doc ->
  let pageCompanies := extractCompaniesFromCurrentPage (getFullYear w) doc in
  let known c := has (map slug (companies this)) (slug c) in
  let fresh := filter (fun c => negb (known c)) pageCompanies in
  let turn := loopBody w this page in
  companies (fst (fst turn)) = companies this ++ fresh
  /\ (forall c, In c fresh <->
                In c pageCompanies /\ ~ In (slug c) (map slug (companies this)))
  /\ processedCompanies (progress (fst (fst turn)))
     = processedCompanies (progress this) + length fresh
  /\ length fresh + length (filter known pageCompanies) = length pageCompanies
  /\ snd (fst turn) = (if length fresh =? 0 then page else S page)
  /\ snd turn = negb (length fresh =? 0).
Proof.
  intros Hgoto Hdoc. cbv beta zeta.
  set (pageCompanies := extractCompaniesFromCurrentPage (getFullYear w) doc).
  change (filter (fun c => negb (has (map slug (companies this)) (slug c))) pageCompanies)
    with (newCompaniesOf (companies this) pageCompanies).
  assert (Hnav : (if 1 <? page then goto w page else None) = None).
  { destruct (1 <? page) eqn:E; [|reflexivity]. apply Hgoto. apply Nat.ltb_lt. exact E. }
  assert (Hlen : length (newCompaniesOf (companies this) pageCompanies)
                 + length (filter (fun c => has (map slug (companies this)) (slug c))
                                  pageCompanies)
                 = length pageCompanies).
  { unfold newCompaniesOf. cbv zeta. rewrite Nat.add_comm. apply filter_length. }
  assert (Hiff : forall c, In c (newCompaniesOf (companies this) pageCompanies) <->
                           In c pageCompanies /\ ~ In (slug c) (map slug (companies this)))
    by (intros c; apply newCompaniesOf_unknown).
  set (entered := if 1 <? page then navigate this page else this).
  assert (Hcs : companies entered = companies this)
    by (subst entered; destruct (1 <? page); reflexivity).
  assert (Hpr : progress entered = progress this)
    by (subst entered; destruct (1 <? page); reflexivity).
  assert (T : loopBody w this page
              = if length (newCompaniesOf (companies this) pageCompanies) =? 0
                then (entered, page, false)
                else (savePageCompanies
                        (pushCompanies entered
                           (newCompaniesOf (companies this) pageCompanies)),
                      S page, true)).
  { unfold loopBody. rewrite Hnav, Hdoc. fold pageCompanies. fold entered. cbv zeta.
    rewrite Hcs.
    destruct (length pageCompanies =? 0) eqn:E; [|reflexivity].
    apply Nat.eqb_eq in E. destruct pageCompanies; [reflexivity | discriminate]. }
  rewrite T.
  destruct (newCompaniesOf (companies this) pageCompanies) as [|n ns];
    cbn [length Nat.eqb fst snd negb].
  - rewrite app_nil_r, Hpr, Nat.add_0_r.
    split; [exact Hcs|]. split; [exact Hiff|]. split; [reflexivity|].
    split; [exact Hlen|]. split; reflexivity.
  - simpl. rewrite Hcs, Hpr.
    split; [reflexivity|]. split; [exact Hiff|]. split; [reflexivity|].
    split; [exact Hlen|]. split; reflexivity.
Qed.

Section AfterLoop.

Variable w : World.
Variable cfg : ScrapingConfig.

(** Every accumulated record was returned for the document of some page. *)
Lemma loop_records_come_from_pages (fuel : nat) (this : Scraper) (page : nat) (flag : bool) :
  let fromPages c :=
    exists n doc, content w n = inr doc
                  /\ In c (extractCompaniesFromCurrentPage (getFullYear w) doc) in
  Forall fromPages (companies this) ->
  Forall fromPages (companies (fst (fst (whileLoop fuel w this page flag)))).
Proof.
  cbv zeta. intros H.
  apply (whileLoop_keeps w
           (fun this _ _ =>
              Forall (fun c => exists n doc,
                          content w n = inr doc
                          /\ In c (extractCompaniesFromCurrentPage (getFullYear w) doc))
                     (companies this))); [|exact H].
  clear this page flag H. intros this page H _.
  pose proof (loopBody_cases w this page) as C. cbv zeta in C.
  destruct C as [-> | (doc & Hdoc & _ & ->)]; cbn [fst snd].
  - destruct (1 <? page); exact H.
  - simpl.
    replace (companies (if 1 <? page then navigate this page else this))
      with (companies this) by (destruct (1 <? page); reflexivity).
    apply Forall_app. split; [exact H|].
    apply Forall_forall. intros c Hc. apply newCompaniesOf_unknown in Hc as [Hc _].
    exists page, doc. split; assumption.
Qed.

End AfterLoop.

(** X20.  When the records of every single page have pairwise different
    slugs, the accumulated set has pairwise different slugs after the loop,
    whatever else the pages do. *)
Theorem slugs_distinct_when_pages_are (w : World) (cfg : ScrapingConfig) :
  (forall n doc, content w n = inr doc ->
                 NoDup (map slug (extractCompaniesFromCurrentPage (getFullYear w) doc))) ->
  NoDup (map slug (companies (afterLoop w cfg))).
Proof.
  intros H. rewrite (proj1 (afterLoop_unfold w cfg)).
  change (companies (setTotal ?x)) with (companies x).
  apply loop_keeps_slugs_distinct; [exact H | constructor].
Qed.

(** X21.  After the loop of any run, [progress.totalCompanies] and
    [progress.processedCompanies] both equal the number of accumulated
    companies, and every accumulated company was returned by
    [extractCompaniesFromCurrentPage] for the document of some page. *)
Theorem counters_agree_after_loop (w : World) (cfg : ScrapingConfig) :
  let this := afterLoop w cfg in
  totalCompanies (progress this) = length (companies this)
  /\ processedCompanies (progress this) = length (companies this)
  /\ Forall (fun c => exists n doc,
                 content w n = inr doc
                 /\ In c (extractCompaniesFromCurrentPage (getFullYear w) doc))
            (companies this).
Proof.
  cbv zeta. rewrite (proj1 (afterLoop_unfold w cfg)).
  split; [reflexivity|]. split.
  - change (processedCompanies (progress (setTotal ?x)))
      with (processedCompanies (progress x)).
    change (companies (setTotal ?x)) with (companies x).
    apply (loop_counts w). reflexivity.
  - change (companies (setTotal ?x)) with (companies x).
    apply loop_records_come_from_pages. constructor.
Qed.

(** X22.  In any run the browser is sent to the pages 1, 2, ..., n in this
    order, each once, with n at least 1 and at most [maxPages] (page 1 is
    fetched even when [maxPages] is 0); the loop's page counter ends at n or
    at n + 1. *)
Theorem pages_visited_in_order (w : World) (cfg : ScrapingConfig) :
  exists n,
    navigated (afterLoop w cfg) = seq 1 n
    /\ 1 <= n <= Nat.max 1 (maxPages cfg)
    /\ n <= pageAfterLoop w cfg <= S n.
Proof.
  destruct (afterLoop_unfold w cfg) as [-> ->].
  change (navigated (setTotal ?x)) with (navigated x).
  apply loop_navigates_in_order; reflexivity.
Qed.

(** X23.  [extractCompanyData] never touches [progress.errors],
    [progress.currentPage] or the configuration, whatever happens on the
    pages, and it only appends to the accumulated list: what was there
    before stays in front. *)
Theorem loop_leaves_errors_alone (w : World) (this : Scraper) :
  let after := fst (extractCompanyData w this) in
  errors (progress after) = errors (progress this)
  /\ currentPage (progress after) = currentPage (progress this)
  /\ config after = config this
  /\ exists added, companies after = companies this ++ added.
Proof.
  cbv zeta. unfold extractCompanyData.
  pose proof (whileLoop_frame w (maxPages (config this)) this 1 true) as F.
  pose proof (loop_grows w (maxPages (config this)) this 1 true) as G.
  cbv zeta in F.
  destruct (whileLoop (maxPages (config this)) w this 1 true) as [[final page] flag].
  cbn [fst snd] in *. destruct F as (F1 & F2 & F3).
  simpl. auto.
Qed.

(** X24.  Wherever the loop of a run stops, the files are up to date: either
    nothing was accumulated and nothing written, or the last two files
    written are the aggregate file and the statistics file of exactly the
    accumulated list. *)
Theorem disk_follows_accumulated (w : World) (cfg : ScrapingConfig) :
  let this := afterLoop w cfg in
  (companies this = [] /\ written this = [])
  \/ exists earlier, written this = earlier ++ snapshot cfg (companies this).
Proof.
  cbv zeta. rewrite (proj1 (afterLoop_unfold w cfg)).
  change (companies (setTotal ?x)) with (companies x).
  change (written (setTotal ?x)) with (written x).
  apply (loop_snapshot w (maxPages cfg) (navigate (newScraper cfg) 1) 1 true);
    reflexivity.
Qed.

(* ------------------------------------------------------------------ *)
(** * Further facts on fetcher.ts: the sector files *)

Section GroupFacts.

Lemma addToGroup_keys (groups : list (jsstring * list AntlerCompany))
      (key : jsstring) (c : AntlerCompany) (k : jsstring) :
  In k (map fst (addToGroup groups key c)) <-> In k (map fst groups) \/ k = key.
Proof.
  induction groups as [|[k1 cs1] rest IH]; simpl.
  - split; [intros [<- | []]; auto | intros [[] | ->]; auto].
  - destruct (str_eqb k1 key) eqn:E; simpl.
    + apply str_eqb_eq in E. subst k1. split; [tauto|].
      intros [[H | H] | ->]; auto.
    + rewrite IH. tauto.
Qed.

Lemma addToGroup_NoDup (groups : list (jsstring * list AntlerCompany))
      (key : jsstring) (c : AntlerCompany) :
  NoDup (map fst groups) -> NoDup (map fst (addToGroup groups key c)).
Proof.
  induction groups as [|[k1 cs1] rest IH]; simpl; intros H.
  - constructor; [intros [] | constructor].
  - inversion H as [|? ? Hnotin Hrest]; subst.
    destruct (str_eqb k1 key) eqn:E; simpl.
    + constructor; assumption.
    + constructor; [|apply IH; assumption].
      rewrite addToGroup_keys. intros [Hin | ->]; [exact (Hnotin Hin)|].
      rewrite str_eqb_refl in E. discriminate.
Qed.

(** The entries after one more company. *)
Lemma addToGroup_entries (groups : list (jsstring * list AntlerCompany))
      (key : jsstring) (c : AntlerCompany) (k : jsstring) (members : list AntlerCompany) :
  NoDup (map fst groups) ->
  In (k, members) (addToGroup groups key c) ->
  (k <> key /\ In (k, members) groups)
  \/ (k = key /\ ((exists before, In (key, before) groups /\ members = before ++ [c])
                  \/ (~ In key (map fst groups) /\ members = [c]))).
Proof.
  induction groups as [|[k1 cs1] rest IH]; simpl; intros Hnd Hin.
  - destruct Hin as [Hin | []]. injection Hin as <- <-. right. split; [reflexivity|].
    right. split; [intros [] | reflexivity].
  - inversion Hnd as [|? ? Hnotin Hrest]; subst.
    destruct (str_eqb k1 key) eqn:E.
    + apply str_eqb_eq in E. subst k1. destruct Hin as [Hin | Hin].
      * injection Hin as <- <-. right. split; [reflexivity|]. left.
        exists cs1. split; [left; reflexivity | reflexivity].
      * left. split; [|right; exact Hin].
        intros ->. apply Hnotin. apply in_map_iff. exists (key, members). auto.
    + destruct Hin as [Hin | Hin].
      * injection Hin as <- <-. left. split; [|left; reflexivity].
        intros ->. rewrite str_eqb_refl in E. discriminate.
      * destruct (IH Hrest Hin) as [[Hne Hi] | [-> [[before [Hb ->]] | [Hn ->]]]].
        -- left. split; [exact Hne | right; exact Hi].
        -- right. split; [reflexivity|]. left. exists before. split; [right|]; auto.
        -- right. split; [reflexivity|]. right. split; [|reflexivity].
           intros [Hk | Hk]; [|exact (Hn Hk)].
           simpl in Hk. subst k1. rewrite str_eqb_refl in E. discriminate.
Qed.

Lemma groupedBySector_snoc (cs : list AntlerCompany) (c : AntlerCompany) :
  groupedBySector (cs ++ [c]) = addToGroup (groupedBySector cs) (createSlug (sector c)) c.
Proof. unfold groupedBySector. rewrite fold_left_app. reflexivity. Qed.

Lemma filter_none (A : Type) (f : A -> bool) (l : list A) :
  (forall x, In x l -> f x = false) -> filter f l = [].
Proof.
  induction l as [|x l IH]; intros H; [reflexivity|].
  simpl. rewrite (H x (or_introl eq_refl)). apply IH. intros y Hy. apply H. right. exact Hy.
Qed.

(** The groups are the companies sorted by sector slug. *)
Lemma groupedBySector_partition (cs : list AntlerCompany) :
  NoDup (map fst (groupedBySector cs))
  /\ (forall k members,
        In (k, members) (groupedBySector cs) ->
        members <> []
        /\ members = filter (fun c => str_eqb (createSlug (sector c)) k) cs)
  /\ (forall c, In c cs -> In (createSlug (sector c)) (map fst (groupedBySector cs))).
Proof.
  induction cs as [|c0 cs (IH1 & IH2 & IH3)] using rev_ind.
  - split; [constructor|]. split; [intros k m [] | intros c []].
  - rewrite groupedBySector_snoc. split; [apply addToGroup_NoDup; exact IH1|]. split.
    + intros k members Hin. rewrite filter_app. simpl.
      destruct (addToGroup_entries _ _ _ _ _ IH1 Hin)
        as [[Hne Hi] | [-> [[before [Hb ->]] | [Hn ->]]]].
      * destruct (IH2 k members Hi) as [H1 H2].
        rewrite (str_eqb_neq (createSlug (sector c0)) k) by congruence.
        rewrite app_nil_r. auto.
      * destruct (IH2 _ before Hb) as [H1 H2]. rewrite str_eqb_refl.
        split; [destruct before; discriminate | rewrite <- H2; reflexivity].
      * rewrite str_eqb_refl. split; [discriminate|].
        rewrite filter_none; [reflexivity|].
        intros x Hx. apply str_eqb_neq. intros E. apply Hn. rewrite <- E.
        apply IH3. exact Hx.
    + intros c Hc. rewrite addToGroup_keys. apply in_app_or in Hc as [Hc | [<- | []]].
      * left. apply IH3. exact Hc.
      * right. reflexivity.
Qed.

End GroupFacts.

Section ObjectFacts.

Variable inherits : jsstring -> bool.
Variable typeError : jsstring.

Lemma hasOwn_In (groups : list (jsstring * list AntlerCompany)) (key : jsstring) :
  hasOwn groups key = true <-> In key (map fst groups).
Proof.
  unfold hasOwn. rewrite existsb_exists. split.
  - intros [[k cs] [Hin Heq]]. simpl in Heq. apply str_eqb_eq in Heq. subst.
    apply in_map_iff. exists (key, cs). auto.
  - intros Hin. apply in_map_iff in Hin as [[k cs] [Hk Hin]]. simpl in Hk. subst.
    exists (key, cs). split; [exact Hin | apply str_eqb_refl].
Qed.

Lemma groupCompanies_normal (cs : list AntlerCompany) :
  forall groups,
    (forall c, In c cs -> inherits (createSlug (sector c)) = false) ->
    groupCompanies inherits groups cs
    = Some (fold_left (fun g c => addToGroup g (createSlug (sector c)) c) cs groups).
Proof.
  induction cs as [|c cs IH]; intros groups H; [reflexivity|].
  simpl. rewrite (H c (or_introl eq_refl)). rewrite orb_true_r.
  apply IH. intros x Hx. apply H. right. exact Hx.
Qed.

Lemma groupCompanies_throws (cs : list AntlerCompany) :
  forall groups,
    (forall k, In k (map fst groups) -> inherits k = false) ->
    (exists c, In c cs /\ inherits (createSlug (sector c)) = true) ->
    groupCompanies inherits groups cs = None.
Proof.
  induction cs as [|c cs IH]; intros groups Hown [x [Hx Hi]]; [destruct Hx|].
  simpl. destruct (inherits (createSlug (sector c))) eqn:E.
  - destruct (hasOwn groups (createSlug (sector c))) eqn:O; [|reflexivity].
    apply hasOwn_In in O. rewrite (Hown _ O) in E. discriminate.
  - rewrite orb_true_r. apply IH.
    + intros k Hk. apply addToGroup_keys in Hk as [Hk | ->]; [apply Hown; exact Hk | exact E].
    + destruct Hx as [-> | Hx]; [congruence|]. exists x. auto.
Qed.

Lemma insertByIndex_In (g x : jsstring * list AntlerCompany)
      (sorted : list (jsstring * list AntlerCompany)) :
  In x (insertByIndex g sorted) <-> x = g \/ In x sorted.
Proof.
  induction sorted as [|h rest IH]; simpl.
  - split; [intros [<- | []]; auto | intros [-> | []]; auto].
  - destruct (parseDigits (fst g) <=? parseDigits (fst h))%Z; simpl.
    + split; [intros [<- | H]; auto | intros [-> | H]; auto].
    + rewrite IH. split; [intros [<- | [-> | H]]; auto | intros [-> | [<- | H]]; auto].
Qed.

Lemma entries_In (groups : list (jsstring * list AntlerCompany))
      (x : jsstring * list AntlerCompany) :
  In x (entries groups) <-> In x groups.
Proof.
  unfold entries. rewrite in_app_iff.
  assert (S : forall l, In x (fold_right insertByIndex [] l) <-> In x l).
  { induction l as [|g l IH]; simpl; [tauto|]. rewrite insertByIndex_In, IH.
    split; [intros [-> | H]; auto | intros [<- | H]; auto]. }
  rewrite S, !filter_In.
  destruct (isArrayIndex (fst x)); simpl; tauto.
Qed.

Lemma entries_plain (groups : list (jsstring * list AntlerCompany)) :
  (forall k, In k (map fst groups) -> isArrayIndex k = false) ->
  entries groups = groups.
Proof.
  intros H. unfold entries.
  rewrite filter_none.
  - simpl. induction groups as [|g groups IH]; [reflexivity|].
    simpl. rewrite (H (fst g)) by (left; reflexivity). simpl. f_equal.
    apply IH. intros k Hk. apply H. right. exact Hk.
  - intros g Hg. apply H. apply in_map. exact Hg.
Qed.

(** The first [forEach] comes through exactly when no sector slug is
    inherited. *)
Lemma sectorGroups_some (cs : list AntlerCompany)
      (groups : list (jsstring * list AntlerCompany)) :
  sectorGroups inherits cs = Some groups ->
  (forall c, In c cs -> inherits (createSlug (sector c)) = false)
  /\ groups = groupedBySector cs.
Proof.
  unfold sectorGroups. intros H.
  destruct (existsb (fun c => inherits (createSlug (sector c))) cs) eqn:E.
  - apply existsb_exists in E.
    rewrite (groupCompanies_throws cs [] (fun k (F : In k []) => match F with end) E) in H.
    discriminate.
  - assert (N : forall c, In c cs -> inherits (createSlug (sector c)) = false).
    { intros c Hc. destruct (inherits (createSlug (sector c))) eqn:I; [|reflexivity].
      assert (X : existsb (fun c => inherits (createSlug (sector c))) cs = true)
        by (apply existsb_exists; exists c; auto).
      congruence. }
    split; [exact N|]. rewrite (groupCompanies_normal cs [] N) in H.
    injection H as <-. reflexivity.
Qed.

(** The sector step on a plain object: the files of the groups, or the throw. *)
Lemma generateSectorFiles_cases (this : Scraper) :
  let slugOf c := createSlug (sector c) in
  ((forall c, In c (companies this) -> inherits (slugOf c) = false) ->
   exists after,
     generateSectorFiles inherits typeError this = Normal after
     /\ companies after = companies this
     /\ progress after = progress this
     /\ (forall file,
           In file (written after) <->
           In file (written this)
           \/ exists k members,
                In (k, members) (groupedBySector (companies this))
                /\ file = (js "./industries/" ++ k ++ js ".json", JsonCompanies members)))
  /\ ((exists c, In c (companies this) /\ inherits (slugOf c) = true) ->
      generateSectorFiles inherits typeError this = Throws typeError this)
  /\ ((forall c, In c (companies this) ->
                 inherits (slugOf c) = false /\ isArrayIndex (slugOf c) = false) ->
      exists after,
        generateSectorFiles inherits typeError this = Normal after
        /\ config after = config this
        /\ companies after = companies this
        /\ progress after = progress this
        /\ navigated after = navigated this
        /\ written after
           = written this ++ map sectorFile (groupedBySector (companies this))).
Proof.
  cbv zeta. unfold generateSectorFiles, sectorGroups. split; [|split].
  - intros H. rewrite (groupCompanies_normal _ [] H).
    fold (groupedBySector (companies this)).
    pose proof (fold_writes (list ascii * list AntlerCompany)
                  (fun _ g => js "./industries/" ++ fst g ++ js ".json")
                  (fun g => JsonCompanies (snd g))
                  (entries (groupedBySector (companies this))) this) as B.
    cbv beta zeta in B. destruct B as (_ & B2 & B3 & _ & B5).
    eexists. split; [reflexivity|]. split; [exact B2|]. split; [exact B3|].
    intros file. rewrite B5, in_app_iff, in_map_iff. split.
    + intros [Hf | [[k members] [<- Hin]]]; [left; exact Hf|].
      right. exists k, members. split; [apply entries_In; exact Hin | reflexivity].
    + intros [Hf | (k & members & Hin & ->)]; [left; exact Hf|].
      right. exists (k, members). split; [reflexivity | apply entries_In; exact Hin].
  - intros H. rewrite (groupCompanies_throws _ [] (fun k (F : In k []) => match F with end) H).
    reflexivity.
  - intros H.
    rewrite (groupCompanies_normal _ [] (fun c Hc => proj1 (H c Hc))).
    fold (groupedBySector (companies this)).
    rewrite entries_plain.
    + pose proof (fold_writes (list ascii * list AntlerCompany)
                    (fun _ g => js "./industries/" ++ fst g ++ js ".json")
                    (fun g => JsonCompanies (snd g))
                    (groupedBySector (companies this)) this) as B.
      cbv beta zeta in B. destruct B as (B1 & B2 & B3 & B4 & B5).
      eexists. split; [reflexivity|].
      split; [exact B1|]. split; [exact B2|]. split; [exact B3|]. split; [exact B4|].
      exact B5.
    + intros k Hk. apply in_map_iff in Hk as [[k' members] [Hk' Hin]].
      simpl in Hk'. subst k'.
      destruct (groupedBySector_partition (companies this)) as (_ & P2 & _).
      destruct (P2 k members Hin) as [Hne Hm].
      destruct members as [|c rest]; [congruence|].
      assert (Hc : In c (filter (fun c => str_eqb (createSlug (sector c)) k)
                                (companies this)))
        by (rewrite <- Hm; left; reflexivity).
      apply filter_In in Hc as [Hc Hk]. apply str_eqb_eq in Hk. subst k.
      apply (H c Hc).
Qed.

End ObjectFacts.

(** X25.  The object [sectorGroups] of [generateSectorFiles] when the first
    [forEach] comes through, that is, when every lookup finds what the code
    set: then no company's sector slug is the name of a property of
    [Object.prototype], there is one group per sector slug, each holding
    exactly the companies whose sector has that slug, in their order, and
    never empty, and every company is in the group of its sector. *)
Theorem sector_groups_sort_companies
        (inherits : jsstring -> bool) (companies : list AntlerCompany)
        (groups : list (jsstring * list AntlerCompany)) :
  sectorGroups inherits companies = Some groups ->
  (forall c, In c companies -> inherits (createSlug (sector c)) = false)
  /\ NoDup (map fst groups)
  /\ (forall k members,
        In (k, members) groups ->
        members <> []
        /\ members = filter (fun c => str_eqb (createSlug (sector c)) k) companies)
  /\ (forall c, In c companies -> In (createSlug (sector c)) (map fst groups)).
Proof.
  intros H. destruct (sectorGroups_some inherits companies groups H) as [N ->].
  split; [exact N | exact (groupedBySector_partition companies)].
Qed.

(** X26.  [generateSectorFiles] on the plain object [sectorGroups]: when no
    company's sector slug is the name of a property of [Object.prototype],
    it writes one industries file per group and nothing else; when some
    company's sector slug is such a name (the sector "Constructor" gives the
    slug "constructor"), the call throws before any industries file is
    written. *)
Theorem sector_files_or_type_error
        (inherits : jsstring -> bool) (typeError : jsstring) (this : Scraper) :
  ((forall c, In c (companies this) -> inherits (createSlug (sector c)) = false) ->
   exists after,
     generateSectorFiles inherits typeError this = Normal after
     /\ companies after = companies this
     /\ progress after = progress this
     /\ (forall file,
           In file (written after) <->
           In file (written this)
           \/ exists k members,
                In (k, members) (groupedBySector (companies this))
                /\ file = (js "./industries/" ++ k ++ js ".json", JsonCompanies members)))
  /\ ((exists c, In c (companies this) /\ inherits (createSlug (sector c)) = true) ->
      generateSectorFiles inherits typeError this
      = Throws typeError this).
Proof.
  pose proof (generateSectorFiles_cases inherits typeError this) as H. cbv zeta in H.
  destruct H as (H1 & H2 & _). split; assumption.
Qed.

Section SectorRunFacts.

Lemma letter_is_no_digit (ch : ascii) : isLowerAZ ch = true -> isDigit ch = false.
Proof. every_char ch. Qed.

Lemma capital_lowers_to_letter (ch : ascii) :
  isUpperAZ ch = true -> isLowerAZ (lowerChar ch) = true.
Proof. every_char ch. Qed.

Lemma joinWithDash_In (ch : ascii) (word : jsstring) (ws : list jsstring) :
  In ch word \/ In ch (joinWithDash ws) -> In ch (joinWithDash (word :: ws)).
Proof.
  destruct ws as [|w' ws].
  - simpl. intros [H | []]. exact H.
  - rewrite (joinWithDash_cons word (w' :: ws)) by discriminate.
    rewrite in_app_iff. simpl. tauto.
Qed.

(** A slug character of the lower-cased name is kept by the slug. *)
Lemma alnumRuns_keep (ch : ascii) (s : jsstring) :
  isSlugChar ch = true ->
  forall cur, In ch cur \/ In ch s -> In ch (joinWithDash (alnumRuns cur s)).
Proof.
  intros Hch. induction s as [|c s IH]; intros cur H.
  - destruct H as [H | []]. destruct cur as [|x cur]; [destruct H | exact H].
  - simpl. destruct (isSlugChar c) eqn:Ec.
    + apply IH. rewrite in_app_iff. simpl. destruct H as [H | [-> | H]]; auto.
    + assert (T : In ch cur \/ In ch s).
      { destruct H as [H | [-> | H]]; auto. congruence. }
      destruct cur as [|x cur].
      * simpl. apply IH. right. destruct T as [[] | T]. exact T.
      * simpl app. apply joinWithDash_In. destruct T as [T | T]; [left; exact T|].
        right. apply IH. right. exact T.
Qed.

Lemma slug_keeps_letters (ch : ascii) (name : jsstring) :
  isLowerAZ ch = true -> In ch (toLowerCase name) -> In ch (createSlug name).
Proof.
  intros Hch Hin. unfold createSlug. rewrite slug_of_lowered.
  apply alnumRuns_keep; [unfold isSlugChar; rewrite Hch; reflexivity | right; exact Hin].
Qed.

Lemma includes_head (s : jsstring) (ch : ascii) (rest : jsstring) :
  includes s (ch :: rest) = true -> In ch s.
Proof.
  intros H. apply includes_split in H as (a & b & ->).
  rewrite in_app_iff. right. left. reflexivity.
Qed.

(** A text taken as sector has a letter of a-z or A-Z. *)
Lemma sector_text_has_letter (text : jsstring) :
  isSectorText text = true ->
  exists ch, In ch (toLowerCase text) /\ isLowerAZ ch = true.
Proof.
  unfold isSectorText. rewrite !orb_true_iff.
  intros [[[[[H | H] | H] | H] | H] | H].
  - apply existsb_exists in H as [sec [Hsec H]].
    assert (F : Forall (fun sec => exists ch rest,
                          toLowerCase sec = ch :: rest /\ isLowerAZ ch = true) sectors).
    { unfold sectors. repeat constructor; eexists; eexists; split; reflexivity. }
    rewrite Forall_forall in F. destruct (F sec Hsec) as (ch & rest & E & Hch).
    rewrite E in H. exists ch. split; [exact (includes_head _ _ _ H) | exact Hch].
  - eexists. split; [exact (includes_head _ _ _ H) | reflexivity].
  - eexists. split; [exact (includes_head _ _ _ H) | reflexivity].
  - eexists. split; [exact (includes_head _ _ _ H) | reflexivity].
  - eexists. split; [exact (includes_head _ _ _ H) | reflexivity].
  - destruct text as [|c s]; [discriminate|].
    simpl in H. apply andb_true_iff in H as [Hc _].
    exists (lowerChar c). split; [left; reflexivity | apply capital_lowers_to_letter; exact Hc].
Qed.

Lemma index_is_digits (key : jsstring) :
  isArrayIndex key = true -> forallb isDigit key = true.
Proof.
  destruct key as [|c rest]; [discriminate|].
  unfold isArrayIndex. rewrite !andb_true_iff. tauto.
Qed.

(** The sector slug of a record the builder returns is no array index. *)
Lemma built_sector_not_index (getFullYear : Z) (element : Anchor) (c : AntlerCompany) :
  extractCompanyFromElement getFullYear element = Some c ->
  isArrayIndex (createSlug (sector c)) = false.
Proof.
  intros H.
  pose proof (extract_fields getFullYear element c H) as F. cbv zeta in F.
  destruct F as (_ & _ & _ & _ & _ & _ & _ & _ & Hsec & _).
  destruct (extractLocationAndSector_classified
              (resolveCard element parentSelectors)) as [_ [E | E]].
  - rewrite Hsec, E. reflexivity.
  - assert (Hne : snd (extractLocationAndSector (resolveCard element parentSelectors)) <> []).
    { intros N. rewrite N in E. discriminate. }
    assert (S : sector c = snd (extractLocationAndSector (resolveCard element parentSelectors))).
    { rewrite Hsec.
      destruct (snd (extractLocationAndSector (resolveCard element parentSelectors)));
        [congruence | reflexivity]. }
    rewrite <- S in E.
    destruct (sector_text_has_letter _ E) as (ch & Hin & Hch).
    pose proof (slug_keeps_letters ch _ Hch Hin) as Hslug.
    destruct (isArrayIndex (createSlug (sector c))) eqn:I; [|reflexivity].
    apply index_is_digits in I. rewrite forallb_forall in I.
    specialize (I ch Hslug). rewrite (letter_is_no_digit ch Hch) in I. discriminate.
Qed.

Lemma page_records_built (getFullYear : Z) (page : Page) (c : AntlerCompany) :
  In c (extractCompaniesFromCurrentPage getFullYear page) ->
  exists element, extractCompanyFromElement getFullYear element = Some c.
Proof.
  unfold extractCompaniesFromCurrentPage. rewrite in_flat_map.
  intros [element [_ H]]. exists element.
  destruct (extractCompanyFromElement getFullYear element) as [d|]; [|destruct H].
  destruct H as [-> | []]. reflexivity.
Qed.

Variable w : World.
Variable cfg : ScrapingConfig.

Lemma afterLoop_sectors_not_index (c : AntlerCompany) :
  In c (companies (afterLoop w cfg)) ->
  isArrayIndex (createSlug (sector c)) = false.
Proof.
  rewrite (proj1 (afterLoop_unfold w cfg)).
  change (companies (setTotal ?x)) with (companies x).
  pose proof (loop_records_come_from_pages w (maxPages cfg)
                (navigate (newScraper cfg) 1) 1 true) as P.
  cbv zeta in P. specialize (P (Forall_nil _)). rewrite Forall_forall in P.
  intros Hc. destruct (P c Hc) as (n & doc & _ & Hin).
  destruct (page_records_built _ _ _ Hin) as [element Hel].
  exact (built_sector_not_index _ _ _ Hel).
Qed.

(** A slug is made of a-z, 0-9 and dashes: of the names of
    [Object.prototype] it can only be "constructor". *)
Lemma standardInherits_slug (text : jsstring) :
  standardInherits (createSlug text) = true -> createSlug text = js "constructor".
Proof.
  intros H. apply has_In in H.
  destruct (createSlug_shape text) as [E | W].
  - rewrite E in H. simpl in H.
    repeat (destruct H as [H | H]; [discriminate H|]). destruct H.
  - simpl in H.
    destruct H as [H | H]; [symmetry; exact H|].
    repeat (destruct H as [H | H]; [rewrite <- H in W; discriminate W|]).
    destruct H.
Qed.

(** In Node, a run whose first page loads and whose companies have no sector
    of slug "constructor" resolves with an empty error log. *)
Lemma run_resolves :
  goto w 1 = None ->
  noConstructorSector (companies (afterLoop w cfg)) ->
  outcome (run w cfg) = Resolved
  /\ errors (progress (finalScraper (run w cfg))) = [].
Proof.
  intros Hgoto Hno.
  destruct (afterLoop_frame w cfg) as (_ & _ & Herr).
  unfold run, scrapePortfolio, afterLoop in *. rewrite Hgoto.
  destruct (extractCompanyData w (navigate (newScraper cfg) 1)) as [loaded page].
  cbn [fst snd] in *.
  destruct (generateOutputFiles_prefix standardInherits pushTypeError loaded)
    as (before & E1 & B1 & B2 & B3 & B4 & B5).
  rewrite E1.
  pose proof (generateSectorFiles_cases standardInherits pushTypeError before) as C.
  cbv zeta in C. destruct C as (C1 & _ & _). rewrite B2 in C1.
  destruct C1 as (after & -> & _ & A3 & _).
  - intros c Hc. destruct (standardInherits (createSlug (sector c))) eqn:I; [|reflexivity].
    exfalso. exact (Hno c Hc (standardInherits_slug _ I)).
  - unfold outcome, finalScraper. cbn [fst snd]. split; [reflexivity|].
    rewrite A3, B3. exact Herr.
Qed.

End SectorRunFacts.

(** X27.  A run whose first page loads, on a plain object [sectorGroups]:
    when no accumulated company has a sector slug that names a property of
    [Object.prototype], the run resolves with every file written: the
    aggregate file, the statistics file, the company files and one
    industries file per sector slug, in the order the slugs first occur;
    when one has, the aggregate file, the statistics file and the company
    files are written, no industries file is, the throw reaches the [catch]
    of [scrapePortfolio], which logs "Scraping error: ..." as the only error
    and rejects. *)
Theorem run_with_inherited_sector
        (inherits : jsstring -> bool) (typeError : jsstring)
        (w : World) (cfg : ScrapingConfig) :
  goto w 1 = None ->
  let loaded := afterLoop w cfg in
  let r := scrapePortfolio inherits typeError w (newScraper cfg) in
  ((forall c, In c (companies loaded) -> inherits (createSlug (sector c)) = false) ->
   r = completedRun w cfg)
  /\ ((exists c, In c (companies loaded) /\ inherits (createSlug (sector c)) = true) ->
      outcome r = Rejected typeError
      /\ finalPage r = pageAfterLoop w cfg
      /\ companies (finalScraper r) = companies loaded
      /\ errors (progress (finalScraper r)) = [js "Scraping error: " ++ typeError]
      /\ written (finalScraper r)
         = written loaded
           ++ aggregateFile cfg (companies loaded)
           :: (js "./meta.json", JsonStats (companies loaded))
           :: map (companyFile cfg) (companies loaded)).
Proof.
  intros Hgoto. cbv zeta.
  pose proof (afterLoop_sectors_not_index w cfg) as Hidx.
  destruct (afterLoop_frame w cfg) as (Hcfg & _ & Herr).
  unfold completedRun, scrapePortfolio, afterLoop, pageAfterLoop in *.
  rewrite Hgoto.
  destruct (extractCompanyData w (navigate (newScraper cfg) 1)) as [loaded page].
  cbn [fst snd] in *.
  destruct (generateOutputFiles_prefix inherits typeError loaded)
    as (before & E1 & B1 & B2 & B3 & B4 & B5).
  rewrite E1.
  pose proof (generateSectorFiles_cases inherits typeError before) as C. cbv zeta in C.
  destruct C as (_ & C2 & C3). rewrite B2 in C2, C3. split.
  - intros H.
    destruct C3 as (after & -> & A1 & A2 & A3 & A4 & A5).
    { intros c Hc. split; [apply H | apply Hidx]; exact Hc. }
    f_equal. f_equal. apply scraper_ext; simpl.
    + rewrite A1, B1. reflexivity.
    + rewrite A2. reflexivity.
    + rewrite A3, B3. reflexivity.
    + rewrite A5, B5, Hcfg, <- app_assoc. reflexivity.
    + rewrite A4, B4. reflexivity.
  - intros H. rewrite (C2 H). unfold outcome, finalPage, finalScraper. cbn [fst snd].
    split; [reflexivity|]. split; [reflexivity|]. split; [exact B2|].
    split; [simpl; rewrite B3, Herr; reflexivity|].
    simpl. rewrite B5, Hcfg. reflexivity.
Qed.

(* ------------------------------------------------------------------ *)
(** * Further facts on fetcher.ts: what counts as a sector *)

Section ProperCaseFacts.

Lemma small_letters_go_on (l rest : jsstring) :
  forallb isLowerAZ l = true ->
  matchProperCase InWord rest = true ->
  matchProperCase InWord (l ++ rest) = true.
Proof.
  induction l as [|c l IH]; intros Hl Hrest; [exact Hrest|].
  simpl in Hl. apply andb_true_iff in Hl as [Hc Hl].
  simpl. rewrite Hc, (IH Hl Hrest). reflexivity.
Qed.

Lemma spaced_accepted (ws : list jsstring) :
  forallb isProperWord ws = true -> matchProperCase InWord (spaced ws) = true.
Proof.
  induction ws as [|w ws IH]; intros H; [reflexivity|].
  simpl in H. apply andb_true_iff in H as [Hw Hws].
  destruct w as [|c [|d l]]; try discriminate.
  - simpl in Hw. rewrite andb_false_r in Hw. discriminate.
  - simpl in Hw. apply andb_true_iff in Hw as [Hc Hl].
    rewrite andb_true_r in Hc. apply andb_true_iff in Hl as [Hd Hl].
    cbn [spaced app matchProperCase]. rewrite Hc, Hd.
    rewrite (small_letters_go_on l _ Hl (IH Hws)). reflexivity.
Qed.

Lemma proper_words_accepted (ws : list jsstring) :
  ws <> [] -> forallb isProperWord ws = true ->
  matchProperCase WantCapital (joinWithSpace ws) = true.
Proof.
  destruct ws as [|w ws]; [congruence|]. intros _ H.
  pose proof (spaced_accepted (w :: ws) H) as S.
  cbn [spaced matchProperCase] in S. exact S.
Qed.

(** What each state of the matcher accepts. *)
Lemma matchProperCase_shape (s : jsstring) :
  (matchProperCase InWord s = true ->
   exists l ws, forallb isLowerAZ l = true /\ forallb isProperWord ws = true
                /\ s = l ++ spaced ws)
  /\ (matchProperCase WantSmall s = true ->
      exists d l ws, isLowerAZ d = true /\ forallb isLowerAZ l = true
                     /\ forallb isProperWord ws = true /\ s = d :: l ++ spaced ws)
  /\ (matchProperCase WantCapital s = true ->
      exists w ws, isProperWord w = true /\ forallb isProperWord ws = true
                   /\ s = w ++ spaced ws).
Proof.
  induction s as [|c s (IHa & IHb & IHc)].
  - split; [|split]; try discriminate.
    intros _. exists [], []. repeat split.
  - split; [|split]; cbn [matchProperCase]; intros H.
    + apply orb_true_iff in H as [H | H]; apply andb_true_iff in H as [Hc H].
      * destruct (IHa H) as (l & ws & Hl & Hws & ->).
        exists (c :: l), ws. simpl. rewrite Hc, Hl. repeat split. exact Hws.
      * apply Ascii.eqb_eq in Hc. subst c.
        destruct (IHc H) as (w & ws & Hw & Hws & ->).
        exists [], (w :: ws). simpl. rewrite Hw, Hws. repeat split.
    + apply andb_true_iff in H as [Hc H].
      destruct (IHa H) as (l & ws & Hl & Hws & ->).
      exists c, l, ws. repeat split; assumption.
    + apply andb_true_iff in H as [Hc H].
      destruct (IHb H) as (d & l & ws & Hd & Hl & Hws & ->).
      exists (c :: d :: l), ws. simpl. rewrite Hc, Hd, Hl. repeat split. exact Hws.
Qed.

Lemma existsb_app (A : Type) (f : A -> bool) (l1 l2 : list A) :
  existsb f (l1 ++ l2) = existsb f l1 || existsb f l2.
Proof. induction l1 as [|x l1 IH]; simpl; [reflexivity|]. rewrite IH, orb_assoc. reflexivity. Qed.

Lemma existsb_map (A B : Type) (g : A -> B) (f : B -> bool) (l : list A) :
  existsb f (map g l) = existsb (fun x => f (g x)) l.
Proof. induction l as [|x l IH]; simpl; [reflexivity|]. rewrite IH. reflexivity. Qed.

Lemma isSectorText_keywords (text : jsstring) :
  isSectorText text
  = existsb (includes (toLowerCase text)) sectorKeywords
    || matchProperCase WantCapital text.
Proof.
  unfold isSectorText, sectorKeywords. rewrite existsb_app, existsb_map.
  cbn [existsb map]. rewrite orb_false_r, !orb_assoc. reflexivity.
Qed.

End ProperCaseFacts.

(** X28.  [isSectorText] accepts exactly the texts that contain, in any
    letter case, the name of one of the eight sectors or one of "tech",
    "software", "service", "platform", and the texts made of words of a
    capital of A-Z followed by one or more letters of a-z, with single
    spaces between the words: every capitalised word counts as a sector. *)
Theorem isSectorText_accepts (text : jsstring) :
  isSectorText text = true <->
  (exists keyword a b, In keyword sectorKeywords /\ toLowerCase text = a ++ keyword ++ b)
  \/ (exists words, words <> [] /\ forallb isProperWord words = true
                    /\ text = joinWithSpace words).
Proof.
  rewrite isSectorText_keywords, orb_true_iff, existsb_exists. split.
  - intros [[k [Hk H]] | H].
    + left. apply includes_split in H as (a & b & E). exists k, a, b. split; assumption.
    + right. destruct (proj2 (proj2 (matchProperCase_shape text)) H)
        as (w & ws & Hw & Hws & ->).
      exists (w :: ws). split; [discriminate|]. split; [|reflexivity].
      simpl. rewrite Hw, Hws. reflexivity.
  - intros [(k & a & b & Hk & E) | (words & Hne & Hw & ->)].
    + left. exists k. split; [exact Hk|]. apply includes_split. exists a, b. exact E.
    + right. apply proper_words_accepted; assumption.
Qed.

(* ------------------------------------------------------------------ *)
(** * The further facts at concrete inputs *)

Lemma normalizeLocation_without_token_witness :
  forallb (fun t => negb (isCountryToken t)) (tails (js "  Berlin, Germany")) = true
  /\ normalizeLocation (js "  Berlin, Germany") = js "Berlin, Germany".
Proof.
  split; [reflexivity|].
  exact (proj2 (normalizeLocation_without_token (js "  Berlin, Germany")) eq_refl).
Defined.

Lemma extractYear_range_witness :
  forallb (fun c => negb (isDigit c)) (js "founded recently") = true
  /\ extractYear 2025 (js "founded recently") = 2025%Z.
Proof.
  split; [reflexivity|].
  exact (proj2 (extractYear_range 2025%Z (js "founded recently")) eq_refl).
Defined.

Lemma extractCountry_by_ending_witness :
  extractCountry (js "London, " ++ js "uk") = js "United Kingdom"
  /\ extractCountry (js "Emma" ++ js "us") = js "United States"
  /\ extractCountry (js "Berlin" ++ ","%char :: js " Germany") = js "Germany".
Proof.
  split; [|split].
  - exact (proj1 extractCountry_by_ending (js "London, ") (js "uk") (or_introl eq_refl)).
  - exact (proj1 (proj2 extractCountry_by_ending) (js "Emma") (js "us")
                 (or_intror (or_introl eq_refl))).
  - exact (proj2 (proj2 extractCountry_by_ending) (js "Berlin") (js " Germany")
                 eq_refl eq_refl).
Defined.

Lemma sanitizeFilename_safe_witness :
  nth_error (js "my file.json") 1 = Some "y"%char
  /\ nth_error (sanitizeFilename (js "my file.json")) 1 = Some "y"%char.
Proof.
  split; [reflexivity|].
  apply (proj1 (proj2 (proj2 (sanitizeFilename_safe (js "my file.json")))) 1 "y"%char);
    [reflexivity | left; reflexivity].
Defined.

Lemma stats_count_ordinary_keys_witness :
  standardInheritedText (js "FinTech") = None
  /\ js "FinTech" <> js "__proto__"
  /\ Stats.sectorDistribution
       (Stats.generateCompanyStats standardInheritedText smallNumberKey
          (js "2025-01-01T00:00:00.000Z") sampleCompanies)
       (js "FinTech")
     = Some (Stats.Count 2).
Proof.
  split; [reflexivity|]. split; [discriminate|].
  pose proof (stats_count_ordinary_keys standardInheritedText smallNumberKey
                (js "2025-01-01T00:00:00.000Z") sampleCompanies (js "FinTech") eq_refl) as H.
  cbv zeta in H. destruct H as (_ & H & _); [discriminate | exact H].
Defined.

Lemma stats_inherited_keys_witness :
  standardInheritedText (js "constructor") = Some (nativeText (js "Object"))
  /\ Stats.sectorDistribution
       (Stats.generateCompanyStats standardInheritedText smallNumberKey
          (js "2025-01-01T00:00:00.000Z") sampleCompanies)
       (js "constructor")
     = Some (Stats.Text (js "function Object() { [native code] }1"))
  /\ Stats.locationDistribution
       (Stats.generateCompanyStats standardInheritedText smallNumberKey
          (js "2025-01-01T00:00:00.000Z") sampleCompanies)
       (js "__proto__")
     = None.
Proof.
  split; [reflexivity|].
  pose proof (stats_inherited_keys standardInheritedText smallNumberKey
                (js "2025-01-01T00:00:00.000Z") sampleCompanies
                (js "constructor") (nativeText (js "Object")) eq_refl) as H.
  cbv zeta in H. destruct H as (H1 & _ & _ & H4); [discriminate | discriminate |].
  split; [exact H1 | exact H4].
Defined.

Lemma isLocationText_in_context_witness :
  isLocationText (js "us") = true
  /\ isLocationText (js "Ind" ++ js "us" ++ js "trials") = true.
Proof.
  split; [reflexivity|].
  exact (isLocationText_in_context (js "Ind") (js "us") (js "trials") eq_refl).
Defined.

Lemma nameFromUrl_first_label_witness :
  forallb isLabelChar (js "nimbus") = true
  /\ existsb capitalOutside (firstn 1 (js "nimbus")) = false
  /\ nameFromUrl (js "https://" ++ js "nimbus" ++ "."%char :: js "example/about")
     = js "Nimbus".
Proof.
  split; [reflexivity|]. split; [reflexivity|].
  exact (proj1 (nameFromUrl_first_label (js "nimbus") (js "example/about")
                  eq_refl eq_refl)).
Defined.

Lemma built_record_is_consistent_witness :
  exists c,
    extractCompanyFromElement 2025
      (linkIn "https://nimbus.example"
              (fullCard "  Nimbus Labs " "<img src=x>2021" ["Singapore"; "FinTech"]%string))
    = Some c
    /\ name c = js "Nimbus Labs"
    /\ slug c = createSlug (name c)
    /\ id c = js "antler-" ++ slug c.
Proof.
  eexists. split; [vm_compute; reflexivity|]. split; [reflexivity|].
  destruct (built_record_is_consistent 2025%Z
              (linkIn "https://nimbus.example"
                      (fullCard "  Nimbus Labs " "<img src=x>2021"
                                ["Singapore"; "FinTech"]%string))
              _ eq_refl) as (_ & H2 & H3 & _).
  split; [exact H2 | exact H3].
Defined.

Lemma built_record_fields_filled_witness :
  exists c,
    extractCompanyFromElement 2025
      (linkIn "https://alpha.example" (headedCard "Alpha")) = Some c
    /\ 5 <= length (description c)
    /\ location c <> []
    /\ sector c <> [].
Proof.
  eexists. split; [vm_compute; reflexivity|].
  destruct (built_record_fields_filled 2025%Z
              (linkIn "https://alpha.example" (headedCard "Alpha")) _ eq_refl)
    as (H1 & _ & H3 & H4 & _).
  split; [exact H1|]. split; [exact H3 | exact H4].
Defined.

Lemma description_falls_back_witness :
  exists c,
    extractCompanyFromElement 2025
      (linkIn "https://alpha.example" (headedCard "Alpha")) = Some c
    /\ length (extractDescription
                 (resolveCard (linkIn "https://alpha.example" (headedCard "Alpha"))
                              parentSelectors)) < 5
    /\ description c = js "Alpha is a portfolio company of Antler.".
Proof.
  eexists. split; [vm_compute; reflexivity|].
  assert (S : length (extractDescription
                        (resolveCard (linkIn "https://alpha.example" (headedCard "Alpha"))
                                     parentSelectors)) < 5) by (vm_compute; lia).
  split; [exact S|].
  exact (proj1 (description_falls_back_to_sentence 2025%Z
                  (linkIn "https://alpha.example" (headedCard "Alpha")) _ eq_refl S)).
Defined.

Lemma each_href_processed_once_witness :
  In (linkIn "https://bravo.example" (headedCard "Bravo"))
     (processedElements repeatedLinks [])
  /\ length (processedElements repeatedLinks []) = 2.
Proof.
  split; [|reflexivity].
  apply (proj1 (proj2 (each_href_processed_once repeatedLinks))
               [linkIn "https://alpha.example" (headedCard "Alpha")]
               (linkIn "https://bravo.example" (headedCard "Bravo"))
               [linkIn "https://alpha.example" (headedCard "Alpha Again")]);
    [reflexivity | intros [H | []]; discriminate H].
Defined.

Lemma page_records_witness :
  exists c,
    In c (extractCompaniesFromCurrentPage 2025 (pageOf repeatedLinks))
    /\ name c = js "Bravo"
    /\ exists el, In el (anchors (pageOf repeatedLinks))
                  /\ href el = Some (Types.website c).
Proof.
  eexists. split; [vm_compute; right; left; reflexivity|]. split; [reflexivity|].
  apply (proj1 (proj2 (page_records_have_distinct_websites 2025%Z (pageOf repeatedLinks)))).
  vm_compute. right. left. reflexivity.
Defined.

Lemma fourPageSite_slugs_distinct (n : nat) (doc : Page) :
  content fourPageSite n = inr doc ->
  NoDup (map slug (extractCompaniesFromCurrentPage (getFullYear fourPageSite) doc)).
Proof.
  destruct n as [|[|[|[|n]]]]; intros H; injection H as <-; vm_compute;
    repeat constructor; intros [].
Defined.

Lemma slugs_distinct_witness :
  (forall n doc, content fourPageSite n = inr doc ->
                 NoDup (map slug (extractCompaniesFromCurrentPage
                                    (getFullYear fourPageSite) doc)))
  /\ NoDup (map slug (companies (afterLoop fourPageSite defaultConfig)))
  /\ length (companies (afterLoop fourPageSite defaultConfig)) = 3.
Proof.
  split; [exact fourPageSite_slugs_distinct|]. split; [|reflexivity].
  exact (slugs_distinct_when_pages_are fourPageSite defaultConfig
           fourPageSite_slugs_distinct).
Defined.

Lemma sector_groups_witness :
  sectorGroups standardInherits plainCompanies
  = Some [(js "fintech", [sampleCompany "Alpha" "FinTech" "Singapore" 2021;
                          sampleCompany "Charlie" "FinTech" "Berlin" 2021]);
          (js "climate", [sampleCompany "Echo" "Climate" "Berlin" 2020])]
  /\ [sampleCompany "Alpha" "FinTech" "Singapore" 2021;
      sampleCompany "Charlie" "FinTech" "Berlin" 2021]
     = filter (fun c => str_eqb (createSlug (sector c)) (js "fintech")) plainCompanies.
Proof.
  split; [reflexivity|].
  destruct (sector_groups_sort_companies standardInherits plainCompanies _ eq_refl)
    as (_ & _ & H & _).
  apply (H (js "fintech")). left. reflexivity.
Defined.

Lemma sector_files_witness :
  (exists c, In c (companies (holding sampleCompanies))
             /\ standardInherits (createSlug (sector c)) = true)
  /\ generateSectorFiles standardInherits pushTypeError (holding sampleCompanies)
     = Throws pushTypeError (holding sampleCompanies)
  /\ exists after,
       generateSectorFiles standardInherits pushTypeError
         (holding [sampleCompany "Alpha" "FinTech" "Singapore" 2021])
       = Normal after
       /\ companies after = [sampleCompany "Alpha" "FinTech" "Singapore" 2021].
Proof.
  assert (E : exists c, In c (companies (holding sampleCompanies))
                        /\ standardInherits (createSlug (sector c)) = true).
  { exists (sampleCompany "Builder" "Constructor" "London" 2022).
    split; [right; left; reflexivity | reflexivity]. }
  split; [exact E|]. split.
  - exact (proj2 (sector_files_or_type_error standardInherits pushTypeError
                    (holding sampleCompanies)) E).
  - destruct (proj1 (sector_files_or_type_error standardInherits pushTypeError
                       (holding [sampleCompany "Alpha" "FinTech" "Singapore" 2021])))
      as (after & H1 & H2 & _).
    + intros c [<- | []]. reflexivity.
    + exists after. split; [exact H1 | exact H2].
Defined.

Lemma run_with_inherited_sector_witness :
  goto constructorSite 1 = None
  /\ (exists c, In c (companies (afterLoop constructorSite defaultConfig))
                /\ standardInherits (createSlug (sector c)) = true)
  /\ outcome (scrapePortfolio standardInherits pushTypeError constructorSite
                (newScraper defaultConfig))
     = Rejected pushTypeError
  /\ errors (progress (finalScraper
                         (scrapePortfolio standardInherits pushTypeError
                            constructorSite (newScraper defaultConfig))))
     = [js "Scraping error: TypeError: sectorGroups[sectorSlug].push is not a function"].
Proof.
  split; [reflexivity|].
  assert (E : exists c, In c (companies (afterLoop constructorSite defaultConfig))
                        /\ standardInherits (createSlug (sector c)) = true).
  { eexists. split; [vm_compute; left; reflexivity | vm_compute; reflexivity]. }
  split; [exact E|].
  pose proof (run_with_inherited_sector standardInherits pushTypeError
                constructorSite defaultConfig eq_refl) as H.
  cbv zeta in H. destruct H as [_ H]. destruct (H E) as (H1 & _ & _ & H4 & _).
  split; [exact H1 | exact H4].
Defined.

(* ------------------------------------------------------------------ *)
(** * The claims on the controller *)

(** C2, as the code has it.  In every run whose first [k - 1] pages each
    bring a new record, a page [k] within [maxPages] that yields no record,
    or only records whose slug is already accumulated, ends the pagination:
    the loop's page counter stays [k], the pages navigated to are exactly
    1, ..., [k], each once, and page [k + 1] is not among them.  When every
    page up to [maxPages] brings a new record the counter moves on page by
    page and the loop ends past page [maxPages], all of 1, ..., [maxPages]
    having been visited.  The field [progress.currentPage] is not the
    counter: no run assigns it, it is 0 at the end.  The run then resolves,
    provided no accumulated company has a sector of slug "constructor". *)
Theorem pagination_halts_on_barren_page (w : World) (cfg : ScrapingConfig) :
  goto w 1 = None ->
  (forall k,
      1 <= k <= maxPages cfg ->
      (forall i, 1 <= i < k -> productive w i) ->
      barren w k ->
      finalPage (run w cfg) = k
      /\ navigated (finalScraper (run w cfg)) = seq 1 k
      /\ NoDup (navigated (finalScraper (run w cfg)))
      /\ ~ In (S k) (navigated (finalScraper (run w cfg)))
      /\ companies (finalScraper (run w cfg)) = accumulated w (k - 1)
      /\ currentPage (progress (finalScraper (run w cfg))) = 0
      /\ (noConstructorSector (accumulated w (k - 1)) ->
          outcome (run w cfg) = Resolved))
  /\ ((forall i, 1 <= i <= maxPages cfg -> productive w i) ->
      finalPage (run w cfg) = S (maxPages cfg)
      /\ navigated (finalScraper (run w cfg)) = seq 1 (Nat.max 1 (maxPages cfg))
      /\ companies (finalScraper (run w cfg)) = accumulated w (maxPages cfg)
      /\ currentPage (progress (finalScraper (run w cfg))) = 0
      /\ (noConstructorSector (accumulated w (maxPages cfg)) ->
          outcome (run w cfg) = Resolved)).
Proof.
  intros Hgoto. destruct (run_frame w cfg Hgoto) as [Hzero _]. split.
  - intros k Hk Hprod Hbarren.
    destruct (run_stops w cfg k Hgoto Hk Hprod (or_introl Hbarren))
      as (Hpage & Hnav & Hcs & _).
    destruct (loop_stops w cfg k Hk Hprod (or_introl Hbarren)) as (_ & Hst & _).
    destruct Hst as (_ & Hloaded & _).
    rewrite Hnav.
    split; [exact Hpage|]. split; [reflexivity|]. split; [apply seq_NoDup|].
    split; [rewrite in_seq; lia|]. split; [exact Hcs|]. split; [exact Hzero|].
    intros Hno. apply (run_resolves w cfg Hgoto). rewrite Hloaded. exact Hno.
  - intros Hprod.
    destruct (run_to_ceiling w cfg Hgoto Hprod) as (Hpage & Hnav & Hcs).
    destruct (loop_to_ceiling w cfg Hprod) as (_ & Hat).
    destruct Hat as (_ & Hloaded & _).
    split; [exact Hpage|]. split; [exact Hnav|]. split; [exact Hcs|].
    split; [exact Hzero|].
    intros Hno. apply (run_resolves w cfg Hgoto). rewrite Hloaded. exact Hno.
Qed.

(** What holds of C7 in every run: an error while fetching a page beyond the
    first or while reading the document of a page stops the loop at once,
    the page is not retried, no later page is fetched, and the records
    accumulated before are kept, counted and written to the aggregate file
    and to their own files.  The error itself is only logged to the console:
    unless the sector step throws, [progress.errors] is empty at the end
    and the run resolves.  A failure of the first navigation is appended to
    [progress.errors] and rejects the run. *)
Lemma page_error_stops_pagination (w : World) (cfg : ScrapingConfig) :
  (forall k e,
      goto w 1 = None ->
      1 <= k <= maxPages cfg ->
      (forall i, 1 <= i < k -> productive w i) ->
      failsWith w k e ->
      stoppedRun w cfg k (run w cfg)
      /\ ~ In (S k) (navigated (finalScraper (run w cfg)))
      /\ (noConstructorSector (accumulated w (k - 1)) ->
          outcome (run w cfg) = Resolved
          /\ errors (progress (finalScraper (run w cfg))) = []))
  /\ (forall e,
      goto w 1 = Some e ->
      outcome (run w cfg) = Rejected e
      /\ errors (progress (finalScraper (run w cfg))) = [js "Scraping error: " ++ e]
      /\ navigated (finalScraper (run w cfg)) = [1]
      /\ companies (finalScraper (run w cfg)) = []
      /\ written (finalScraper (run w cfg)) = []).
Proof.
  split.
  - intros k e Hgoto Hk Hprod Hfail.
    pose proof (run_stops w cfg k Hgoto Hk Hprod
                  (or_intror (ex_intro _ e Hfail))) as Hrun.
    destruct (loop_stops w cfg k Hk Hprod (or_intror (ex_intro _ e Hfail)))
      as (_ & Hst & _).
    destruct Hst as (_ & Hloaded & _).
    split; [exact Hrun|].
    destruct Hrun as (_ & Hnav & _).
    rewrite Hnav. split; [rewrite in_seq; lia|].
    intros Hno. apply (run_resolves w cfg Hgoto). rewrite Hloaded. exact Hno.
  - intros e Hgoto. rewrite (run_unreachable w cfg e Hgoto). repeat split.
Qed.

(** C7, at a site whose page 1 brings a company and whose page 2 cannot be
    navigated to: the loop stops on page 2 and the record of page 1 is kept
    and written, but the error is not appended to [progress.errors], which
    is empty at the end, and the run resolves. *)
Theorem navigation_error_not_logged :
  let r := run brokenSite defaultConfig in
  failsWith brokenSite 2 (js "TimeoutError: Navigation timeout")
  /\ finalPage r = 2
  /\ navigated (finalScraper r) = [1; 2]
  /\ map name (companies (finalScraper r)) = [js "Alpha"]
  /\ In (js "./companies/alpha.json") (map fst (written (finalScraper r)))
  /\ outcome r = Resolved
  /\ errors (progress (finalScraper r)) = []
  /\ ~ In (js "TimeoutError: Navigation timeout") (errors (progress (finalScraper r))).
Proof.
  cbv zeta. split; [left; split; [lia | reflexivity]|].
  split; [vm_compute; reflexivity|]. split; [vm_compute; reflexivity|].
  split; [vm_compute; reflexivity|].
  split; [vm_compute; tauto|].
  split; [vm_compute; reflexivity|].
  assert (E : errors (progress (finalScraper (run brokenSite defaultConfig))) = [])
    by (vm_compute; reflexivity).
  rewrite E. split; [reflexivity | intros []].
Qed.

(** C6, at a card whose markup has a heading and a custom element
    [img-badge] but no image: the pattern takes the element for an image
    tag, and the record gets the year that follows it. *)
Theorem unknown_tag_taken_for_image :
  let markup := js "<h3>Nimbus</h3><img-badge></img-badge> Since 2001" in
  let element :=
    linkIn "https://nimbus.example"
           (markupCard "Nimbus" "<h3>Nimbus</h3><img-badge></img-badge> Since 2001") in
  exists c,
    extractCompanyFromElement 2025 element = Some c
    /\ markupOf (resolveCard element parentSelectors) = markup
    /\ find_img (resolveCard element parentSelectors) = None
    /\ hasImgTag markup = false
    /\ founded_year c = 2001%Z
    /\ founded_year c <> 0%Z.
Proof.
  cbv zeta. eexists. split; [vm_compute; reflexivity|].
  split; [reflexivity|]. split; [reflexivity|]. split; [reflexivity|].
  split; [reflexivity | discriminate].
Qed.

(** ** The claims on the controller at concrete inputs *)

Lemma fourPageSite_productive (i : nat) : 1 <= i < 4 -> productive fourPageSite i.
Proof.
  intros Hi. destruct i as [|[|[|[|i]]]]; try lia;
    (split; [split; [intros _; reflexivity | eexists; reflexivity]
            | vm_compute; discriminate]).
Defined.

Lemma fourPageSite_barren : barren fourPageSite 4.
Proof.
  split; [split; [intros _; reflexivity | eexists; reflexivity]|].
  left. reflexivity.
Defined.

Lemma endlessSite_productive (i : nat) : 1 <= i <= 3 -> productive endlessSite i.
Proof.
  intros Hi. destruct i as [|[|[|[|i]]]]; try lia;
    (split; [split; [intros _; reflexivity | eexists; reflexivity]
            | vm_compute; discriminate]).
Defined.

Lemma fourPageSite_sectors : noConstructorSector (accumulated fourPageSite 3).
Proof.
  intros c Hc. vm_compute in Hc.
  destruct Hc as [<- | [<- | [<- | []]]]; discriminate.
Defined.

(** Example 5: three pages with a company each and an empty fourth page; and
    a site that never runs dry, under a ceiling of three pages. *)
Lemma pagination_halts_witness :
  (finalPage (run fourPageSite defaultConfig) = 4
   /\ navigated (finalScraper (run fourPageSite defaultConfig)) = [1; 2; 3; 4]
   /\ ~ In 5 (navigated (finalScraper (run fourPageSite defaultConfig)))
   /\ currentPage (progress (finalScraper (run fourPageSite defaultConfig))) = 0
   /\ outcome (run fourPageSite defaultConfig) = Resolved)
  /\ (finalPage (run endlessSite shortConfig) = 4
      /\ navigated (finalScraper (run endlessSite shortConfig)) = [1; 2; 3]).
Proof.
  split.
  - destruct (proj1 (pagination_halts_on_barren_page fourPageSite defaultConfig eq_refl) 4)
      as (H1 & H2 & _ & H4 & _ & H6 & H7).
    + simpl. lia.
    + exact fourPageSite_productive.
    + exact fourPageSite_barren.
    + split; [exact H1|]. split; [exact H2|]. split; [exact H4|]. split; [exact H6|].
      exact (H7 fourPageSite_sectors).
  - destruct (proj2 (pagination_halts_on_barren_page endlessSite shortConfig eq_refl)
                    endlessSite_productive) as (H1 & H2 & _).
    split; assumption.
Defined.

(** C2, where the claim fails: page 4 yields no record, the loop ends with
    its counter on 4, and [progress.currentPage] is 0, not 4. *)
Lemma progress_page_never_assigned :
  let r := run fourPageSite defaultConfig in
  pageRecords fourPageSite 4 = []
  /\ finalPage r = 4
  /\ outcome r = Resolved
  /\ currentPage (progress (finalScraper r)) = 0
  /\ currentPage (progress (finalScraper r)) <> 4.
Proof.
  cbv zeta. split; [reflexivity|]. split; [vm_compute; reflexivity|].
  split; [vm_compute; reflexivity|].
  assert (E : currentPage (progress (finalScraper (run fourPageSite defaultConfig))) = 0)
    by (vm_compute; reflexivity).
  rewrite E. split; [reflexivity | discriminate].
Qed.

Lemma merge_drops_known_slugs_witness :
  let this := fst (fst (loopBody overlapSite (navigate (newScraper defaultConfig) 1) 1)) in
  content overlapSite 2 = inr overlapPage
  /\ map name (companies this) = [js "Alpha"]
  /\ map name (extractCompaniesFromCurrentPage 2025 overlapPage)
     = [js "Alpha"; js "Bravo"]
  /\ map name (companies (fst (fst (loopBody overlapSite this 2))))
     = [js "Alpha"; js "Bravo"]
  /\ processedCompanies (progress (fst (fst (loopBody overlapSite this 2)))) = 2.
Proof.
  cbv zeta. split; [reflexivity|]. split; [vm_compute; reflexivity|].
  split; [vm_compute; reflexivity|].
  destruct (merge_drops_known_slugs overlapSite
              (fst (fst (loopBody overlapSite (navigate (newScraper defaultConfig) 1) 1)))
              2 overlapPage (fun _ => eq_refl) eq_refl) as (H1 & _ & H3 & _).
  split; [rewrite H1; vm_compute; reflexivity | rewrite H3; vm_compute; reflexivity].
Defined.
